(** * Recorder core of the Playwright automation framework

    A shallow embedding of
      - [src/core/recorder/action-parser.js]     (class ActionParser),
      - [src/core/recorder/selector-generator.js] (class SelectorGenerator),
      - the recording session of [src/scripts/process-manager.js]
        (class PlaywrightRecorder),
    together with the properties the specification states about them.

    Conventions of the embedding.
      - A JavaScript property that may be [undefined] is an [option].
      - JavaScript numbers that hold timestamps, timeouts and indices are
        integers ([Z], or [nat] for array indices); no arithmetic of the
        source leaves the exactly representable range on recorded data.
      - Strings are [string]; [substring], [trim] and the character classes
        of the regular expressions are taken over ASCII.
      - An [async] method that can reject is a computation in the error
        monad [Result]; [await] is its bind, [try]/[catch] is [try_catch]. *)

From Stdlib Require Import ZArith QArith Ascii String DecimalString Sorted.
From stdpp Require Import base option list strings gmap.

Local Open Scope Z_scope.
Local Open Scope string_scope.
Local Open Scope list_scope.

(** ** JavaScript values *)

Module Js.

(** The double quote character, used inside generated selectors. *)
Definition dq : string := String (ascii_of_nat 34) EmptyString.

(** The line feed character. *)
Definition lf : string := String (ascii_of_nat 10) EmptyString.

(** The backslash character. *)
Definition bs : string := String (ascii_of_nat 92) EmptyString.

(** Truthiness of a possibly undefined string: [undefined] and the empty
    string are falsy. *)
Definition truthy (o : option string) : bool :=
  match o with
  | Some (String _ _) => true
  | _ => false
  end.

(** [a || d] for a possibly undefined string [a] and a string [d]. *)
Definition or_else (a : option string) (d : string) : string :=
  match a with
  | Some (String c s) => String c s
  | _ => d
  end.

(** [a || b] where both sides may be undefined. *)
Definition or_opt (a b : option string) : option string :=
  if truthy a then a else b.

(** String conversion inside a template literal. *)
Definition show (o : option string) : string :=
  match o with
  | Some s => s
  | None => "undefined"
  end.

(** Decimal rendering of an integer. *)
Definition show_Z (z : Z) : string := NilZero.string_of_int (Z.to_int z).

Definition show_nat (n : nat) : string := show_Z (Z.of_nat n).

(** Strict equality [===] of two possibly undefined strings. *)
Definition strict_eq (a b : option string) : bool := bool_decide (a = b).

(** [Array.prototype.join]. *)
Fixpoint join (sep : string) (l : list string) : string :=
  match l with
  | [] => EmptyString
  | [s] => s
  | s :: rest => s +:+ sep +:+ join sep rest
  end.

End Js.

(** ** Throwing computations

    A method that may throw (or an [async] method whose promise may reject)
    returns a [Result]: [Ok v] for a normal return, [Throw e] for an
    exception carrying the message [e]. *)

Inductive Result (A : Type) : Type :=
  | Ok (a : A)
  | Throw (e : string).

Arguments Ok {A} a.
Arguments Throw {A} e.

#[global] Instance Result_ret : MRet Result := fun A a => Ok a.

#[global] Instance Result_bind : MBind Result := fun A B f m =>
  match m with
  | Ok a => f a
  | Throw e => Throw e
  end.

(** [try { body } catch (error) { handler(error) }]. *)
Definition try_catch {A : Type} (body : Result A) (handler : string -> Result A)
  : Result A :=
  match body with
  | Ok a => Ok a
  | Throw e => handler e
  end.

(** ** Regular expressions of the stability heuristics

    The patterns of [isStableId] and [getStableClasses] are kept as data
    and run by a derivative matcher. *)

Module Regex.

Inductive Regex : Type :=
  | Fail
  | Eps
  | Class (p : ascii -> bool)
  | Cat (r s : Regex)
  | Alt (r s : Regex)
  | Star (r : Regex).

Fixpoint nullable (r : Regex) : bool :=
  match r with
  | Fail => false
  | Eps => true
  | Class _ => false
  | Cat r s => nullable r && nullable s
  | Alt r s => nullable r || nullable s
  | Star _ => true
  end.

Fixpoint deriv (c : ascii) (r : Regex) : Regex :=
  match r with
  | Fail => Fail
  | Eps => Fail
  | Class p => if p c then Eps else Fail
  | Cat r s =>
      if nullable r then Alt (Cat (deriv c r) s) (deriv c s)
      else Cat (deriv c r) s
  | Alt r s => Alt (deriv c r) (deriv c s)
  | Star r => Cat (deriv c r) (Star r)
  end.

(** The whole string is in the language of [r]. *)
Fixpoint matches (r : Regex) (s : string) : bool :=
  match s with
  | EmptyString => nullable r
  | String c s' => matches (deriv c r) s'
  end.

Definition any : Regex := Class (fun _ => true).

(** [r+] *)
Definition plus (r : Regex) : Regex := Cat r (Star r).

(** [r{n,}] *)
Fixpoint at_least (n : nat) (r : Regex) : Regex :=
  match n with
  | O => Star r
  | S n' => Cat r (at_least n' r)
  end.

Definition in_range (lo hi : nat) (c : ascii) : bool :=
  (lo <=? nat_of_ascii c)%nat && (nat_of_ascii c <=? hi)%nat.

(** [\d] *)
Definition digit (c : ascii) : bool := in_range 48 57 c.

Definition upper (c : ascii) : bool := in_range 65 90 c.

Definition lower (c : ascii) : bool := in_range 97 122 c.

(** [[a-zA-Z0-9]] *)
Definition alnum (c : ascii) : bool := digit c || upper c || lower c.

(** [\w] *)
Definition word (c : ascii) : bool := alnum c || (nat_of_ascii c =? 95)%nat.

(** [[a-f0-9]] under the [i] flag. *)
Definition hex_i (c : ascii) : bool :=
  digit c || in_range 97 102 c || in_range 65 70 c.

Definition to_lower (c : ascii) : ascii :=
  if upper c then ascii_of_nat (nat_of_ascii c + 32) else c.

(** One literal character, case-sensitive. *)
Definition chr (a : ascii) : Regex := Class (fun c => bool_decide (c = a)).

(** One literal character under the [i] flag. *)
Definition chr_i (a : ascii) : Regex :=
  Class (fun c => bool_decide (to_lower c = to_lower a)).

(** A literal word under the [i] flag. *)
Fixpoint lit_i (s : string) : Regex :=
  match s with
  | EmptyString => Eps
  | String a s' => Cat (chr_i a) (lit_i s')
  end.

(** A pattern with its anchors: [^] and [$] (no [m] flag, so they are
    the ends of the input). *)
Record Pattern : Type := mkPattern {
  at_start : bool;
  body : Regex;
  at_end : bool
}.

(** [pattern.test(s)] *)
Definition test (p : Pattern) (s : string) : bool :=
  matches
    (Cat (if at_start p then Eps else Star any)
         (Cat (body p) (if at_end p then Eps else Star any)))
    s.

End Regex.

(** ** The selector generator ([selector-generator.js]) *)

Module SelectorGenerator.

Import Js.

(** [this.options] of the constructor. *)
Record Options : Type := mkOptions {
  preferredAttributes : list string;
  fallbackStrategies : list string;
  avoidAttributes : list string;
  maxTextLength : nat;
  useStableSelectors : bool
}.

(** The defaults of the constructor (no overrides). *)
Definition default_options : Options :=
  {| preferredAttributes := ["data-testid"; "data-test"; "data-cy"; "id"];
     fallbackStrategies := ["css"; "xpath"; "text"];
     avoidAttributes := ["style"; "class"];
     maxTextLength := 30;
     useStableSelectors := true |}.

(** The [parent] part of an element snapshot. *)
Record ParentInfo : Type := mkParentInfo {
  parent_tagName : string;
  parent_className : string;
  parent_id : string
}.

(** The object built inside [getElementInfo].  The floating-point
    rectangle [position] is read by none of the methods below and is
    left out. *)
Record ElementInfo : Type := mkElementInfo {
  tagName : string;
  id : string;
  className : string;
  textContent : string;
  innerText : string;
  value : string;
  placeholder : string;
  title : string;
  alt : string;
  href : string;
  src : string;
  type : string;
  name : string;
  role : string;
  ariaLabel : string;
  attributes : gmap string string;
  parent : ParentInfo;
  isVisible : bool;
  index : Z
}.

(** What a strategy returns: the object literal with [selector], [type],
    [confidence] and the strategy's own extra properties. *)
Record Candidate : Type := mkCandidate {
  selector : string;
  c_type : string;
  c_confidence : Q;
  c_attribute : option string;
  c_value : option string;
  c_role : option string;
  c_text : option string;
  c_placeholder : option string;
  c_classes : option string
}.

(** The Selector Result handed to callers. *)
Record SelectorResult : Type := mkSelectorResult {
  primary : string;
  r_type : string;
  confidence : Q;
  fallbacks : list Candidate
}.

(** A DOM element; an element handle denotes one, and [===] inside the
    page compares them. *)
Definition Node : Type := nat.

(** The live page, as far as the generator talks to it.  Every call is a
    round trip that may reject. *)
Record Page : Type := mkPage {
  (** [page.evaluate] of the snapshot function of [getElementInfo] *)
  evaluate_info : Node -> Result ElementInfo;
  (** [page.evaluate] of the sibling-index function of [getElementIndex] *)
  evaluate_index : Node -> Result Z;
  (** [page.locator(selector).all()] *)
  locator_all : string -> Result (list Node);
  (** whether [page.evaluate] of the identity comparison goes through *)
  evaluate_pair : Node -> Node -> Result unit
}.

(** *** String helpers *)

(** [s.split(c)] for a one-character separator. *)
Fixpoint split (c : ascii) (s : string) : list string :=
  match s with
  | EmptyString => [EmptyString]
  | String a s' =>
      if bool_decide (a = c) then EmptyString :: split c s'
      else match split c s' with
           | [] => [String a EmptyString]
           | w :: ws => String a w :: ws
           end
  end.

(** [s.replace(/c/g, by)] for a one-character pattern. *)
Fixpoint replace_all (c : ascii) (by_ : string) (s : string) : string :=
  match s with
  | EmptyString => EmptyString
  | String a s' =>
      if bool_decide (a = c) then by_ +:+ replace_all c by_ s'
      else String a (replace_all c by_ s')
  end.

Definition is_space (c : ascii) : bool :=
  let n := nat_of_ascii c in
  ((9 <=? n)%nat && (n <=? 13)%nat) || (n =? 32)%nat.

Fixpoint trim_start (s : string) : string :=
  match s with
  | EmptyString => EmptyString
  | String a s' => if is_space a then trim_start s' else s
  end.

Fixpoint trim_end (s : string) : string :=
  match s with
  | EmptyString => EmptyString
  | String a s' =>
      match trim_end s' with
      | EmptyString => if is_space a then EmptyString else String a EmptyString
      | t => String a t
      end
  end.

(** [s.trim()] *)
Definition trim (s : string) : string := trim_end (trim_start s).

Definition nonempty (s : string) : bool :=
  match s with
  | EmptyString => false
  | String _ _ => true
  end.

(** [list.includes(s)] *)
Definition includes (l : list string) (s : string) : bool :=
  bool_decide (s ∈ l).

(** *** Stability heuristics *)

Import Regex.

(** The [unstablePatterns] of [isStableId]. *)
Definition unstable_id_patterns : list Pattern :=
  [ mkPattern true (at_least 8 (Class hex_i)) true;
    mkPattern true (plus (Class digit)) true;
    mkPattern true
      (Cat (Alt (lit_i "react") (Alt (lit_i "vue") (lit_i "ng"))) (chr_i "-"))
      false;
    mkPattern false (Cat (chr "_") (plus (Class digit))) true;
    mkPattern true (lit_i "generated") false ].

Definition isStableId (id : string) : bool :=
  negb (existsb (fun pattern => test pattern id) unstable_id_patterns).

(** The [unstablePatterns] of [getStableClasses]. *)
Definition unstable_class_patterns : list Pattern :=
  [ mkPattern true (at_least 8 (Class hex_i)) true;
    mkPattern true
      (Cat (plus (Class word))
        (Cat (chr "_") (Cat (plus (Class word))
          (Cat (chr "_") (plus (Class hex_i))))))
      true;
    mkPattern true (Cat (lit_i "css-") (plus (Class hex_i))) true;
    mkPattern true (Cat (Class upper) (at_least 10 (Class alnum))) true;
    mkPattern true (Class digit) false ].

Definition getStableClasses (classString : string) : list string :=
  let classes := filter (fun c => nonempty c = true) (split " " classString) in
  filter
    (fun className =>
       negb (existsb (fun pattern => test pattern className)
               unstable_class_patterns) = true)
    classes.

Definition escapeText (text : string) : string :=
  trim (replace_all (ascii_of_nat 10) (bs +:+ "n")
          (replace_all (ascii_of_nat 34) (bs +:+ dq) text)).

(** *** The strategies *)

Section Strategies.

(** [CSS.escape] is a global of the runtime, not of this repository;
    it throws when the runtime does not define [CSS]. *)
Variable CSS_escape : string -> Result string.

(** The generator object: its [options]. *)
Variable this : Options.

(** [elementInfo.attributes[attr]], when truthy. *)
Definition truthy_attribute (elementInfo : ElementInfo) (attr : string)
  : option string :=
  match attributes elementInfo !! attr with
  | Some (String c v) => Some (String c v)
  | _ => None
  end.

(** The [for] loop of [generateTestIdSelector]. *)
Fixpoint testid_loop (elementInfo : ElementInfo) (attrs : list string)
  : option Candidate :=
  match attrs with
  | [] => None
  | attr :: rest =>
      match truthy_attribute elementInfo attr with
      | Some v =>
          Some {| selector := "[" +:+ attr +:+ "=" +:+ dq +:+ v +:+ dq +:+ "]";
                  c_type := "data-attribute";
                  c_confidence := 9 # 10;
                  c_attribute := Some attr;
                  c_value := Some v;
                  c_role := None; c_text := None;
                  c_placeholder := None; c_classes := None |}
      | None => testid_loop elementInfo rest
      end
  end.

Definition generateTestIdSelector (elementInfo : ElementInfo)
  : option Candidate :=
  testid_loop elementInfo (preferredAttributes this).

Definition generateIdSelector (elementInfo : ElementInfo)
  : Result (option Candidate) :=
  if nonempty (id elementInfo) && isStableId (id elementInfo) then
    escaped ← CSS_escape (id elementInfo);
    Ok (Some {| selector := "#" +:+ escaped;
                c_type := "id";
                c_confidence := 8 # 10;
                c_attribute := None;
                c_value := Some (id elementInfo);
                c_role := None; c_text := None;
                c_placeholder := None; c_classes := None |})
  else Ok None.

Definition generateNameSelector (elementInfo : ElementInfo)
  : option Candidate :=
  if nonempty (name elementInfo)
     && includes ["input"; "select"; "textarea"] (tagName elementInfo) then
    Some {| selector :=
              tagName elementInfo +:+ "[name=" +:+ dq +:+ name elementInfo
              +:+ dq +:+ "]";
            c_type := "name";
            c_confidence := 7 # 10;
            c_attribute := None;
            c_value := Some (name elementInfo);
            c_role := None; c_text := None;
            c_placeholder := None; c_classes := None |}
  else None.

Definition generateRoleSelector (elementInfo : ElementInfo)
  : option Candidate :=
  if nonempty (role elementInfo) then
    let selector0 := "[role=" +:+ dq +:+ role elementInfo +:+ dq +:+ "]" in
    if nonempty (ariaLabel elementInfo) then
      Some {| selector :=
                selector0 +:+ "[aria-label=" +:+ dq +:+ ariaLabel elementInfo
                +:+ dq +:+ "]";
              c_type := "role";
              c_confidence := 6 # 10;
              c_attribute := None; c_value := None;
              c_role := Some (role elementInfo);
              c_text := None; c_placeholder := None; c_classes := None |}
    else if nonempty (textContent elementInfo)
            && (String.length (textContent elementInfo)
                <=? maxTextLength this)%nat then
      Some {| selector :=
                selector0 +:+ ":has-text(" +:+ dq
                +:+ escapeText (textContent elementInfo) +:+ dq +:+ ")";
              c_type := "role-text";
              c_confidence := 75 # 100;
              c_attribute := None; c_value := None;
              c_role := Some (role elementInfo);
              c_text := Some (textContent elementInfo);
              c_placeholder := None; c_classes := None |}
    else
      Some {| selector := selector0;
              c_type := "role";
              c_confidence := 6 # 10;
              c_attribute := None; c_value := None;
              c_role := Some (role elementInfo);
              c_text := None; c_placeholder := None; c_classes := None |}
  else None.

Definition generateTextSelector (elementInfo : ElementInfo)
  : option Candidate :=
  let text :=
    if nonempty (textContent elementInfo) then textContent elementInfo
    else if nonempty (innerText elementInfo) then innerText elementInfo
    else value elementInfo in
  if nonempty text && (0 <? String.length text)%nat
     && (String.length text <=? maxTextLength this)%nat then
    if includes ["button"; "a"; "label"; "span"] (tagName elementInfo) then
      Some {| selector :=
                tagName elementInfo +:+ ":has-text(" +:+ dq
                +:+ escapeText text +:+ dq +:+ ")";
              c_type := "text";
              c_confidence := 65 # 100;
              c_attribute := None; c_value := None; c_role := None;
              c_text := Some text;
              c_placeholder := None; c_classes := None |}
    else
      Some {| selector := ":has-text(" +:+ dq +:+ escapeText text +:+ dq +:+ ")";
              c_type := "text";
              c_confidence := 5 # 10;
              c_attribute := None; c_value := None; c_role := None;
              c_text := Some text;
              c_placeholder := None; c_classes := None |}
  else if nonempty (placeholder elementInfo)
          && includes ["input"; "textarea"] (tagName elementInfo) then
    Some {| selector :=
              tagName elementInfo +:+ "[placeholder=" +:+ dq
              +:+ placeholder elementInfo +:+ dq +:+ "]";
            c_type := "placeholder";
            c_confidence := 6 # 10;
            c_attribute := None; c_value := None; c_role := None;
            c_text := None;
            c_placeholder := Some (placeholder elementInfo);
            c_classes := None |}
  else None.

Definition generateCssSelector (elementInfo : ElementInfo) : Candidate :=
  let parts0 := [tagName elementInfo] in
  let parts1 :=
    if nonempty (className elementInfo) then
      let stableClasses := getStableClasses (className elementInfo) in
      if (0 <? length stableClasses)%nat
      then parts0 ++ ["." +:+ join "." stableClasses]
      else parts0
    else parts0 in
  let parts2 :=
    if nonempty (type elementInfo)
       && bool_decide (tagName elementInfo = "input")
    then parts1 ++ ["[type=" +:+ dq +:+ type elementInfo +:+ dq +:+ "]"]
    else parts1 in
  {| selector := join EmptyString parts2;
     c_type := "css";
     c_confidence := 4 # 10;
     c_attribute := None; c_value := None; c_role := None; c_text := None;
     c_placeholder := None;
     c_classes := Some (className elementInfo) |}.

Definition generateXPathSelector (elementInfo : ElementInfo) : Candidate :=
  let parts0 := ["//" +:+ tagName elementInfo] in
  let conditions0 :=
    if nonempty (id elementInfo)
    then ["@id=" +:+ dq +:+ id elementInfo +:+ dq]
    else [] in
  let conditions1 :=
    if nonempty (className elementInfo) then
      conditions0 ++
      ["contains(@class, " +:+ dq
       +:+ default EmptyString (head (split " " (className elementInfo)))
       +:+ dq +:+ ")"]
    else conditions0 in
  let conditions2 :=
    if nonempty (textContent elementInfo)
       && (String.length (textContent elementInfo) <=? maxTextLength this)%nat
    then
      conditions1 ++
      ["contains(text(), " +:+ dq +:+ escapeText (textContent elementInfo)
       +:+ dq +:+ ")"]
    else conditions1 in
  let parts1 :=
    if (0 <? length conditions2)%nat
    then parts0 ++ ["[" +:+ join " and " conditions2 +:+ "]"]
    else parts0 in
  {| selector := "xpath=" +:+ join EmptyString parts1;
     c_type := "xpath";
     c_confidence := 3 # 10;
     c_attribute := None; c_value := None; c_role := None; c_text := None;
     c_placeholder := None; c_classes := None |}.

Definition generateCompositeSelector (page : Page) (elementHandle : Node)
    (elementInfo : ElementInfo) : Result SelectorResult :=
  let attributes0 :=
    if nonempty (tagName elementInfo) then [tagName elementInfo] else [] in
  let attributes1 :=
    if nonempty (type elementInfo)
    then attributes0 ++ ["[type=" +:+ dq +:+ type elementInfo +:+ dq +:+ "]"]
    else attributes0 in
  let attributes2 :=
    if nonempty (name elementInfo)
    then attributes1 ++ ["[name=" +:+ dq +:+ name elementInfo +:+ dq +:+ "]"]
    else attributes1 in
  Ok {| primary :=
          join EmptyString attributes2 +:+ ":nth-of-type("
          +:+ show_Z (index elementInfo + 1) +:+ ")";
        r_type := "composite";
        confidence := 2 # 10;
        fallbacks := [] |}.

(** *** Talking to the page *)

Definition getElementInfo (page : Page) (elementHandle : Node)
  : Result ElementInfo :=
  evaluate_info page elementHandle.

Definition getElementIndex (page : Page) (elementHandle : Node)
  : Result Z :=
  evaluate_index page elementHandle.

(** The body of the [try] block of [validateSelector]. *)
Definition validateSelector_body (page : Page) (selectorInfo : Candidate)
    (originalElement : Node) : Result bool :=
  elements ← locator_all page (selector selectorInfo);
  if negb (length elements =? 1)%nat then Ok false
  else
    match elements with
    | foundElement :: _ =>
        _ ← evaluate_pair page originalElement foundElement;
        Ok (bool_decide (originalElement = foundElement))
    | [] => Ok false
    end.

Definition validateSelector (page : Page) (selectorInfo : Candidate)
    (originalElement : Node) : bool :=
  match validateSelector_body page selectorInfo originalElement with
  | Ok isSame => isSame
  | Throw _ => false
  end.

(** The [for] loop of [generateFallbacks]. *)
Fixpoint fallbacks_loop (page : Page) (elementHandle : Node)
    (primarySelector : Candidate) (elementInfo : ElementInfo)
    (fallbackStrategies : list (ElementInfo -> option Candidate))
    (fallbacks : list Candidate) : list Candidate :=
  match fallbackStrategies with
  | [] => fallbacks
  | strategy :: rest =>
      match strategy elementInfo with
      | Some fallback =>
          if negb (bool_decide (selector fallback = selector primarySelector))
             && validateSelector page fallback elementHandle then
            let fallbacks' := fallbacks ++ [fallback] in
            if (2 <=? length fallbacks')%nat then fallbacks'
            else fallbacks_loop page elementHandle primarySelector
                   elementInfo rest fallbacks'
          else fallbacks_loop page elementHandle primarySelector
                 elementInfo rest fallbacks
      | None =>
          fallbacks_loop page elementHandle primarySelector
            elementInfo rest fallbacks
      end
  end.

Definition generateFallbacks (page : Page) (elementHandle : Node)
    (primarySelector : Candidate) : Result (list Candidate) :=
  elementInfo ← getElementInfo page elementHandle;
  Ok (fallbacks_loop page elementHandle primarySelector elementInfo
        [ (fun info => Some (generateXPathSelector info));
          (fun info => Some (generateCssSelector info));
          generateTextSelector ]
        []).

(** The [strategies] array of [generateSelector], in source order. *)
Definition strategies : list (ElementInfo -> Result (option Candidate)) :=
  [ (fun info => Ok (generateTestIdSelector info));
    generateIdSelector;
    (fun info => Ok (generateNameSelector info));
    (fun info => Ok (generateRoleSelector info));
    (fun info => Ok (generateTextSelector info));
    (fun info => Ok (Some (generateCssSelector info)));
    (fun info => Ok (Some (generateXPathSelector info))) ].

(** The [for] loop of [generateSelector]: [Some r] when a strategy's
    candidate validated and the loop returned [r], [None] when the
    loop ran to its end. *)
Fixpoint strategies_loop (page : Page) (elementHandle : Node)
    (elementInfo : ElementInfo)
    (strats : list (ElementInfo -> Result (option Candidate)))
  : Result (option SelectorResult) :=
  match strats with
  | [] => Ok None
  | strategy :: rest =>
      sel ← strategy elementInfo;
      match sel with
      | Some selector0 =>
          if validateSelector page selector0 elementHandle then
            fbs ← generateFallbacks page elementHandle selector0;
            Ok (Some {| primary := selector selector0;
                        r_type := c_type selector0;
                        confidence := c_confidence selector0;
                        fallbacks := fbs |})
          else strategies_loop page elementHandle elementInfo rest
      | None => strategies_loop page elementHandle elementInfo rest
      end
  end.

(** The [try] block of [generateSelector]. *)
Definition generateSelector_body (page : Page) (elementHandle : Node)
  : Result SelectorResult :=
  elementInfo ← getElementInfo page elementHandle;
  found ← strategies_loop page elementHandle elementInfo strategies;
  match found with
  | Some result => Ok result
  | None => generateCompositeSelector page elementHandle elementInfo
  end.

(** The [catch] block of [generateSelector] ([console.error] only logs). *)
Definition generateSelector_handler (page : Page) (elementHandle : Node)
    (error : string) : Result SelectorResult :=
  idx ← getElementIndex page elementHandle;
  Ok {| primary := "xpath=//body//*[position()=" +:+ show_Z idx +:+ "]";
        r_type := "xpath";
        confidence := 1 # 10;
        fallbacks := [] |}.

Definition generateSelector (page : Page) (elementHandle : Node)
  : Result SelectorResult :=
  try_catch (generateSelector_body page elementHandle)
            (generateSelector_handler page elementHandle).

End Strategies.

End SelectorGenerator.

(** ** The action parser ([action-parser.js]) *)

Module ActionParser.

Import Js.

(** *** Data *)

(** The kinds of Action Record (the [type] tag of the recorded object). *)
Inductive ActionKind : Type :=
  | navigation | click | input | select | hover
  | keypress | submit | api_call | wait.

#[global] Instance ActionKind_eq_dec : EqDecision ActionKind.
Proof. solve_decision. Defined.

(** The string of the tag. *)
Definition kind_name (k : ActionKind) : string :=
  match k with
  | navigation => "navigation"
  | click => "click"
  | input => "input"
  | select => "select"
  | hover => "hover"
  | keypress => "keypress"
  | submit => "submit"
  | api_call => "api_call"
  | wait => "wait"
  end.

Record ElementParent : Type := mkElementParent {
  p_tagName : option string;
  p_id : option string;
  p_className : option string
}.

(** The element snapshot carried by an Action Record, as far as the
    parser reads it. *)
Record Element : Type := mkElement {
  tagName : option string;
  id : option string;
  name : option string;
  textContent : option string;
  attributes : option (gmap string string);
  parent : option ElementParent
}.

(** The [selector] property: the Selector Result of the generator on a
    recorded action, a plain string on a synthetic wait. *)
Inductive SelectorField : Type :=
  | SelObject (s : SelectorGenerator.SelectorResult)
  | SelString (s : string).

(** An entry of [expectedElements]. *)
Record ExpectedElement : Type := mkExpectedElement {
  ee_selector : option string;
  ee_type : string
}.

(** An Action Record. *)
Record ActionRecord : Type := mkActionRecord {
  type : ActionKind;
  timestamp : Z;
  selector : option SelectorField;
  element : option Element;
  url : option string;
  value : option string;
  key : option string;
  strategy : option string;
  timeout : option Z;
  expectedElements : option (list ExpectedElement)
}.

(** What the stages after grouping work on: a recorded (or synthetic)
    action, or the [form_sequence] composite built by [finalizeGroup]. *)
Inductive Action : Type :=
  | Recorded (r : ActionRecord)
  | FormSequence (actions : list ActionRecord) (fs_timestamp : Z)
      (description : string).

Record Assertion : Type := mkAssertion {
  as_type : string;
  as_description : string;
  as_code : string
}.

(** The [data] object of a Test Step; [sd_element] holds [elementText]
    and [elementType] when the action has an element. *)
Record StepData : Type := mkStepData {
  sd_inputValue : option string;
  sd_optionValue : option string;
  sd_element : option (option string * option string)
}.

Record TestStep : Type := mkTestStep {
  ts_id : nat;
  ts_type : string;
  ts_description : string;
  ts_code : string;
  ts_selector : option SelectorField;
  ts_data : option StepData;
  ts_assertions : option (list Assertion);
  ts_timestamp : Z
}.

(** [this.options]; the three flags are read by no method. *)
Record Options : Type := mkOptions {
  optimizeSequences : bool;
  groupSimilarActions : bool;
  generateWaitStrategies : bool;
  minWaitTime : Z;
  maxWaitTime : Z
}.

Definition default_options : Options :=
  {| optimizeSequences := true;
     groupSimilarActions := true;
     generateWaitStrategies := true;
     minWaitTime := 100;
     maxWaitTime := 5000 |}.

(** *** Property access on the two shapes of [Action] *)

Definition action_type (a : Action) : string :=
  match a with
  | Recorded r => kind_name (type r)
  | FormSequence _ _ _ => "form_sequence"
  end.

Definition has_kind (a : Action) (k : ActionKind) : bool :=
  match a with
  | Recorded r => bool_decide (type r = k)
  | FormSequence _ _ _ => false
  end.

Definition action_timestamp (a : Action) : Z :=
  match a with
  | Recorded r => timestamp r
  | FormSequence _ t _ => t
  end.

Definition action_selector (a : Action) : option SelectorField :=
  match a with
  | Recorded r => selector r
  | FormSequence _ _ _ => None
  end.

Definition action_element (a : Action) : option Element :=
  match a with
  | Recorded r => element r
  | FormSequence _ _ _ => None
  end.

Definition action_url (a : Action) : option string :=
  match a with
  | Recorded r => url r
  | FormSequence _ _ _ => None
  end.

(** [selector?.primary] *)
Definition primary_of (s : option SelectorField) : option string :=
  match s with
  | Some (SelObject r) => Some (SelectorGenerator.primary r)
  | Some (SelString _) => None
  | None => None
  end.

(** Truthiness of the [selector] property. *)
Definition selector_truthy (s : option SelectorField) : bool :=
  match s with
  | Some (SelObject _) => true
  | Some (SelString t) => truthy (Some t)
  | None => false
  end.

(** The [selector] property inside a template literal. *)
Definition show_selector (s : option SelectorField) : string :=
  match s with
  | Some (SelObject _) => "[object Object]"
  | Some (SelString t) => t
  | None => "undefined"
  end.

(** [element?.attributes?.type] *)
Definition attr_type (e : Element) : option string :=
  match attributes e with
  | Some m => m !! "type"
  | None => None
  end.

(** *** Stage 1: redundancy elimination *)

(** The three [continue] tests on [current] and [next = actions[i + 1]]. *)
Definition redundant (current : ActionRecord) (next : option ActionRecord)
  : bool :=
  match next with
  | None => false
  | Some next =>
      let same :=
        strict_eq (primary_of (selector current)) (primary_of (selector next)) in
      (bool_decide (type current = click) && bool_decide (type next = click)
         && same)
      || (bool_decide (type current = input) && bool_decide (type next = input)
         && same)
      || (bool_decide (type current = hover) && bool_decide (type next = click)
         && same)
  end.

(** One iteration of the loop at index [i]. *)
Definition removeRedundant_step (actions filtered : list ActionRecord)
    (i : nat) : list ActionRecord :=
  match actions !! i with
  | Some current =>
      if redundant current (actions !! (i + 1)%nat) then filtered
      else filtered ++ [current]
  | None => filtered
  end.

Definition removeRedundantActions (actions : list ActionRecord)
  : list ActionRecord :=
  foldl (removeRedundant_step actions) [] (seq 0 (length actions)).

(** *** Stage 2: sequence grouping *)

Definition isFormElement (element : option Element) : bool :=
  match element with
  | None => false
  | Some element =>
      match tagName element with
      | Some t => SelectorGenerator.includes
                    ["input"; "select"; "textarea"; "button"] t
      | None => false
      end
      || strict_eq (attr_type element) (Some "submit")
  end.

Definition generateFormDescription (formActions : list ActionRecord)
  : string :=
  let fieldCount :=
    length (filter (fun a => type a = input) formActions) in
  let hasSubmit :=
    existsb
      (fun a =>
         bool_decide (type a = click)
         && match element a with
            | Some e =>
                strict_eq (attr_type e) (Some "submit")
                || strict_eq (tagName e) (Some "button")
            | None => false
            end)
      formActions in
  let description :=
    "Fill form with " +:+ show_nat fieldCount +:+ " field"
    +:+ (if bool_decide (fieldCount ≠ 1%nat) then "s" else EmptyString) in
  if hasSubmit then description +:+ " and submit" else description.

(** The values of [currentGroupType] other than [null]. *)
Inductive GroupType : Type := form | general.

Definition finalizeGroup (group : list ActionRecord)
    (groupType : option GroupType) : list Action :=
  match groupType, group with
  | Some form, first :: _ :: _ =>
      [FormSequence group (timestamp first) (generateFormDescription group)]
  | _, _ => Recorded <$> group
  end.

(** The loop state of [groupSequentialActions]. *)
Record GroupState : Type := mkGroupState {
  grouped : list Action;
  currentGroup : list ActionRecord;
  currentGroupType : option GroupType
}.

(** One iteration of the [for ... of] loop. *)
Definition group_step (st : GroupState) (action : ActionRecord) : GroupState :=
  if (bool_decide (type action = input) || bool_decide (type action = select)
      || bool_decide (type action = click))
     && isFormElement (element action) then
    match currentGroupType st with
    | Some form =>
        {| grouped := grouped st;
           currentGroup := currentGroup st ++ [action];
           currentGroupType := Some form |}
    | _ =>
        {| grouped :=
             if (0 <? length (currentGroup st))%nat
             then grouped st
                  ++ finalizeGroup (currentGroup st) (currentGroupType st)
             else grouped st;
           currentGroup := [action];
           currentGroupType := Some form |}
    end
  else if bool_decide (type action = navigation) then
    {| grouped :=
         (if (0 <? length (currentGroup st))%nat
          then grouped st
               ++ finalizeGroup (currentGroup st) (currentGroupType st)
          else grouped st)
         ++ [Recorded action];
       currentGroup := [];
       currentGroupType := None |}
  else
    match currentGroupType st with
    | Some form =>
        {| grouped :=
             grouped st ++ finalizeGroup (currentGroup st) (Some form);
           currentGroup := [action];
           currentGroupType := Some general |}
    | _ =>
        {| grouped := grouped st;
           currentGroup := currentGroup st ++ [action];
           currentGroupType := Some general |}
    end.

Definition groupSequentialActions (actions : list ActionRecord)
  : list Action :=
  let st := foldl group_step (mkGroupState [] [] None) actions in
  if (0 <? length (currentGroup st))%nat
  then grouped st ++ finalizeGroup (currentGroup st) (currentGroupType st)
  else grouped st.

(** *** Stage 3: wait strategies *)

Definition isSubmitButton (element : option Element) : bool :=
  match element with
  | None => false
  | Some element =>
      strict_eq (attr_type element) (Some "submit")
      || (strict_eq (tagName element) (Some "button")
          && negb (truthy (attr_type element)))
      || (strict_eq (tagName element) (Some "button")
          && strict_eq (attr_type element) (Some "submit"))
  end.

(** The object returned by [determineWaitStrategy]. *)
Record WaitStrategy : Type := mkWaitStrategy {
  ws_type : string;
  ws_selector : option string;
  ws_timeout : Z;
  ws_url : option string
}.

Section WithOptions.

(** The parser object: its [options]. *)
Variable this : Options.

Definition determineWaitStrategy (currentAction : Action)
    (nextAction : option Action) : option WaitStrategy :=
  match nextAction with
  | None => None
  | Some nextAction =>
      let timeDiff :=
        action_timestamp nextAction - action_timestamp currentAction in
      if has_kind currentAction navigation then
        Some (mkWaitStrategy "networkidle" None 5000 None)
      else if has_kind currentAction click
              && has_kind nextAction navigation then
        Some (mkWaitStrategy "navigation" None 10000 None)
      else if has_kind currentAction click
              && (minWaitTime this <? timeDiff)%Z
              && selector_truthy (action_selector nextAction) then
        Some (mkWaitStrategy "visible"
                (primary_of (action_selector nextAction))
                (Z.min (timeDiff * 2) (maxWaitTime this)) None)
      else if has_kind currentAction click
              && isSubmitButton (action_element currentAction) then
        Some (mkWaitStrategy "networkidle" None 10000 None)
      else if has_kind currentAction api_call then
        Some (mkWaitStrategy "response" None 5000 (action_url currentAction))
      else None
  end.

(** The synthetic wait pushed by [addWaitStrategies]. *)
Definition wait_record (waitStrategy : WaitStrategy) (current : Action)
  : ActionRecord :=
  {| type := wait;
     timestamp := action_timestamp current + 1;
     selector := SelString <$> ws_selector waitStrategy;
     element := None;
     url := None;
     value := None;
     key := None;
     strategy := Some (ws_type waitStrategy);
     timeout := Some (ws_timeout waitStrategy);
     expectedElements := None |}.

(** One iteration of the loop at index [i]. *)
Definition addWait_step (actions withWaits : list Action) (i : nat)
  : list Action :=
  match actions !! i with
  | Some current =>
      match determineWaitStrategy current (actions !! (i + 1)%nat) with
      | Some waitStrategy =>
          withWaits ++ [current; Recorded (wait_record waitStrategy current)]
      | None => withWaits ++ [current]
      end
  | None => withWaits
  end.

Definition addWaitStrategies (actions : list Action) : list Action :=
  foldl (addWait_step actions) [] (seq 0 (length actions)).

End WithOptions.

(** *** Stage 4: form filling *)

Definition identifyFormContainer (action : ActionRecord) : string :=
  match element action with
  | Some e =>
      match parent e with
      | Some p =>
          if strict_eq (p_tagName p) (Some "form")
          then or_else (or_opt (p_id p) (p_className p)) "form"
          else "default"
      | None => "default"
      end
  | None => "default"
  end.

(** The [Map] named [formGroups]: keys in insertion order.
    [formGroups_push] is the [has]/[set]/[get(...).push] of the loop. *)
Fixpoint formGroups_push (formContainer : string) (action : ActionRecord)
    (formGroups : list (string * list ActionRecord))
  : list (string * list ActionRecord) :=
  match formGroups with
  | [] => [(formContainer, [action])]
  | (k, group) :: rest =>
      if bool_decide (k = formContainer) then (k, group ++ [action]) :: rest
      else (k, group) :: formGroups_push formContainer action rest
  end.

(** The table [order] of the comparator, with its [|| 0]. *)
Definition order (k : ActionKind) : Z :=
  match k with
  | input => 0
  | select => 1
  | click => 3
  | _ => 0
  end.

(** [Array.prototype.sort] with the comparator [order a - order b]: the
    sort is stable, so its result is the stable arrangement by [order]. *)
Fixpoint sort_insert (a : ActionRecord) (sorted : list ActionRecord)
  : list ActionRecord :=
  match sorted with
  | [] => [a]
  | b :: rest =>
      if (order (type a) - order (type b) <=? 0)%Z then a :: b :: rest
      else b :: sort_insert a rest
  end.

(** [optimizeFormGroup] sorts in place the array it is given and returns
    it; its caller passes the arrays of its own [formGroups] map, so no
    array that is reachable from the input changes. *)
Definition optimizeFormGroup (actions : list ActionRecord) (container : string)
  : list ActionRecord :=
  foldr sort_insert [] actions.

Definition optimizeFormSequence (formActions : list ActionRecord)
  : list ActionRecord :=
  let formGroups :=
    foldl (fun groups action =>
             formGroups_push (identifyFormContainer action) action groups)
          [] formActions in
  foldl (fun optimized entry =>
           optimized ++ optimizeFormGroup (snd entry) (fst entry))
        [] formGroups.

Definition optimizeFormFilling (actions : list Action) : list Action :=
  (fun action =>
     match action with
     | FormSequence sub t d => FormSequence (optimizeFormSequence sub) t d
     | Recorded r => Recorded r
     end) <$> actions.

(** *** Stage 5: navigation look-ahead *)

(** [actions.slice(startIndex + 1, startIndex + 1 + count)] *)
Definition getSubsequentActions (actions : list Action)
    (startIndex count : nat) : list Action :=
  take count (drop (startIndex + 1) actions).

Definition extractExpectedElements (actions : list Action)
  : list ExpectedElement :=
  (fun action =>
     {| ee_selector := primary_of (action_selector action);
        ee_type := action_type action |})
  <$> filter (fun action => selector_truthy (action_selector action) = true)
        actions.

(** One iteration of the loop at index [i]. *)
Definition optimizeNavigation_step (actions optimized : list Action)
    (i : nat) : list Action :=
  match actions !! i with
  | Some (Recorded r) =>
      if bool_decide (type r = navigation) then
        optimized ++
        [Recorded
           {| type := type r;
              timestamp := timestamp r;
              selector := selector r;
              element := element r;
              url := url r;
              value := value r;
              key := key r;
              strategy := strategy r;
              timeout := timeout r;
              expectedElements :=
                Some (extractExpectedElements
                        (getSubsequentActions actions i 3)) |}]
      else optimized ++ [Recorded r]
  | Some action => optimized ++ [action]
  | None => optimized
  end.

Definition optimizeNavigation (actions : list Action) : list Action :=
  foldl (optimizeNavigation_step actions) [] (seq 0 (length actions)).

(** *** Stage 6: Test Steps *)

(** [action.element?.p] for a property [p] of the element. *)
Definition element_prop (r : ActionRecord)
    (p : Element -> option string) : option string :=
  match element r with
  | Some e => p e
  | None => None
  end.

Definition generateStepDescription (action : Action) : string :=
  match action with
  | FormSequence _ _ description =>
      or_else (Some description) "Fill and submit form"
  | Recorded r =>
      match type r with
      | navigation => "Navigate to " +:+ show (url r)
      | click =>
          if truthy (element_prop r textContent) then
            "Click " +:+ dq
            +:+ substring 0 30 (show (element_prop r textContent)) +:+ dq
          else "Click " +:+ or_else (element_prop r tagName) "element"
      | input =>
          "Enter text in "
          +:+ or_else (or_opt (element_prop r name) (element_prop r id)) "field"
      | select =>
          "Select option in " +:+ or_else (element_prop r name) "dropdown"
      | hover => "Hover over " +:+ or_else (element_prop r tagName) "element"
      | keypress => "Press " +:+ show (key r) +:+ " key"
      | wait =>
          "Wait for " +:+ show (strategy r)
          +:+ (if selector_truthy (selector r)
               then " (" +:+ show_selector (selector r) +:+ ")"
               else EmptyString)
      | api_call => "API call to " +:+ show (url r)
      | submit => "Perform " +:+ kind_name (type r)
      end
  end.

Definition generateWaitCode (waitAction : ActionRecord) : string :=
  match strategy waitAction with
  | Some "visible" =>
      "await page.locator('" +:+ show_selector (selector waitAction)
      +:+ "').waitFor({ state: 'visible' });"
  | Some "networkidle" => "await page.waitForLoadState('networkidle');"
  | Some "navigation" => "await page.waitForURL('**');"
  | Some "response" =>
      "await page.waitForResponse('" +:+ show (url waitAction) +:+ "');"
  | _ =>
      "await page.waitForTimeout("
      +:+ show_Z (match timeout waitAction with
                  | Some t => if (t =? 0)%Z then 1000 else t
                  | None => 1000
                  end)
      +:+ ");"
  end.

(** [generateStepCode] on a recorded (or synthetic) action. *)
Definition generateStepCode_record (action : ActionRecord) : string :=
  let locator :=
    "await page.locator('" +:+ show (primary_of (selector action)) +:+ "')" in
  match type action with
  | navigation => "await page.goto('" +:+ show (url action) +:+ "');"
  | click => locator +:+ ".click();"
  | input =>
      locator +:+ ".fill('" +:+ or_else (value action) "${data.inputValue}"
      +:+ "');"
  | select =>
      locator +:+ ".selectOption('"
      +:+ or_else (value action) "${data.optionValue}" +:+ "');"
  | hover => locator +:+ ".hover();"
  | keypress => "await page.keyboard.press('" +:+ show (key action) +:+ "');"
  | wait => generateWaitCode action
  | api_call =>
      "// Wait for API call to " +:+ show (url action) +:+ lf
      +:+ "await page.waitForResponse('" +:+ show (url action) +:+ "');"
  | submit => "// " +:+ kind_name (type action) +:+ " action"
  end.

Definition generateFormSequenceCode (sub : list ActionRecord) : string :=
  join lf (generateStepCode_record <$> sub).

Definition generateStepCode (action : Action) : string :=
  match action with
  | Recorded r => generateStepCode_record r
  | FormSequence sub _ _ => generateFormSequenceCode sub
  end.

Definition extractStepData (action : Action) : option StepData :=
  match action with
  | FormSequence _ _ _ => None
  | Recorded r =>
      let inputValue :=
        if bool_decide (type r = input) && truthy (value r)
        then value r else None in
      let optionValue :=
        if bool_decide (type r = select) && truthy (value r)
        then value r else None in
      let elementData :=
        (fun e => (textContent e, tagName e)) <$> element r in
      match inputValue, optionValue, elementData with
      | None, None, None => None
      | _, _, _ => Some (mkStepData inputValue optionValue elementData)
      end
  end.

Definition generateAssertions (action : Action) : option (list Assertion) :=
  let assertions :=
    match action with
    | FormSequence _ _ _ => []
    | Recorded r =>
        match type r with
        | navigation =>
            mkAssertion "url" "Verify page URL"
              ("await expect(page).toHaveURL('" +:+ show (url r) +:+ "');")
            :: ((fun e =>
                   mkAssertion "visibility"
                     ("Verify " +:+ ee_type e +:+ " element is visible")
                     ("await expect(page.locator('" +:+ show (ee_selector e)
                      +:+ "')).toBeVisible();"))
                <$> default [] (expectedElements r))
        | click =>
            if strict_eq (element_prop r tagName) (Some "button")
               && isSubmitButton (element r)
            then [mkAssertion "form_submission" "Verify form submission"
                    "// Verify form submission was successful"]
            else []
        | input =>
            [mkAssertion "input_value" "Verify input value"
               ("await expect(page.locator('"
                +:+ show (primary_of (selector r)) +:+ "')).toHaveValue('"
                +:+ show (value r) +:+ "');")]
        | _ => []
        end
    end in
  if (0 <? length assertions)%nat then Some assertions else None.

Definition convertToTestSteps (optimizedActions : list Action)
  : list TestStep :=
  imap
    (fun index action =>
       {| ts_id := (index + 1)%nat;
          ts_type := action_type action;
          ts_description := generateStepDescription action;
          ts_code := generateStepCode action;
          ts_selector := action_selector action;
          ts_data := extractStepData action;
          ts_assertions := generateAssertions action;
          ts_timestamp := action_timestamp action |})
    optimizedActions.

(** *** The public entry point *)

(** What a caller may pass as [recordedActions]. *)
Inductive Argument : Type :=
  | Undefined
  | Null
  | NotArray (repr : string)
  | ArrayOf (recordedActions : list ActionRecord).

Definition optimizeActions (this : Options) (recordedActions : Argument)
  : list TestStep :=
  match recordedActions with
  | ArrayOf (first :: rest) =>
      let optimizedActions := first :: rest in
      let optimizedActions := removeRedundantActions optimizedActions in
      let optimizedActions := groupSequentialActions optimizedActions in
      let optimizedActions := addWaitStrategies this optimizedActions in
      let optimizedActions := optimizeFormFilling optimizedActions in
      let optimizedActions := optimizeNavigation optimizedActions in
      convertToTestSteps optimizedActions
  | _ => []
  end.

End ActionParser.

(** ** The recording session ([PlaywrightRecorder] of [process-manager.js]) *)

Module PlaywrightRecorder.

(** A browser, context or page object handed out by the automation
    library. *)
Definition Handle : Type := nat.

(** The events the recorder emits. *)
Inductive Event : Type :=
  | EvStatus (text : string)
  | EvStarted (url testName : string)
  | EvAction (action : ActionParser.ActionRecord)
  | EvError (message : string).

(** The fields of the recorder object that [startRecording] reads or
    writes, and the events emitted so far.  The page-object map updated
    by [recordAction] is left out. *)
Record Recorder : Type := mkRecorder {
  browser : option Handle;
  context : option Handle;
  page : option Handle;
  isRecording : bool;
  recordedActions : list ActionParser.ActionRecord;
  testName : option string;
  startUrl : option string;
  emitted : list Event
}.

(** The recorder after its constructor. *)
Definition new_recorder : Recorder :=
  {| browser := None; context := None; page := None;
     isRecording := false; recordedActions := [];
     testName := None; startUrl := None; emitted := [] |}.

(** The outside world: which handles are alive, the next fresh handle,
    the clock read by [Date.now()], and which calls of the automation
    library reject. *)
Record World : Type := mkWorld {
  next_handle : Handle;
  live_browsers : list Handle;
  now : Z;
  launch_rejects : bool;
  newContext_rejects : bool;
  newPage_rejects : bool;
  goto_rejects : bool
}.

Definition fresh (w : World) : World :=
  {| next_handle := S (next_handle w);
     live_browsers := live_browsers w;
     now := now w;
     launch_rejects := launch_rejects w;
     newContext_rejects := newContext_rejects w;
     newPage_rejects := newPage_rejects w;
     goto_rejects := goto_rejects w |}.

(** [browserType.launch(...)] *)
Definition launch (w : World) : Result Handle * World :=
  if launch_rejects w then (Throw "browser launch failed", w)
  else
    (Ok (next_handle w),
     {| next_handle := S (next_handle w);
        live_browsers := live_browsers w ++ [next_handle w];
        now := now w;
        launch_rejects := launch_rejects w;
        newContext_rejects := newContext_rejects w;
        newPage_rejects := newPage_rejects w;
        goto_rejects := goto_rejects w |}).

(** [browser.newContext(...)] *)
Definition newContext (w : World) : Result Handle * World :=
  if newContext_rejects w then (Throw "context creation failed", w)
  else (Ok (next_handle w), fresh w).

(** [context.newPage()] *)
Definition newPage (w : World) : Result Handle * World :=
  if newPage_rejects w then (Throw "page creation failed", w)
  else (Ok (next_handle w), fresh w).

(** [page.goto(url)] *)
Definition goto (w : World) (url : string) : Result unit :=
  if goto_rejects w then Throw "navigation failed" else Ok ().

Definition emit (e : Event) (r : Recorder) : Recorder :=
  {| browser := browser r; context := context r; page := page r;
     isRecording := isRecording r; recordedActions := recordedActions r;
     testName := testName r; startUrl := startUrl r;
     emitted := emitted r ++ [e] |}.

Definition recordAction (action : ActionParser.ActionRecord) (r : Recorder)
  : Recorder :=
  emit (EvAction action)
    {| browser := browser r; context := context r; page := page r;
       isRecording := isRecording r;
       recordedActions := recordedActions r ++ [action];
       testName := testName r; startUrl := startUrl r;
       emitted := emitted r |}.

(** The [catch] block of [startRecording]: emit and rethrow. *)
Definition rethrow (error : string) (r : Recorder) (w : World)
  : Result bool * Recorder * World :=
  (Throw error, emit (EvError error) r, w).

Definition navigation_record (url : string) (t : Z)
  : ActionParser.ActionRecord :=
  {| ActionParser.type := ActionParser.navigation;
     ActionParser.timestamp := t;
     ActionParser.selector := None;
     ActionParser.element := None;
     ActionParser.url := Some url;
     ActionParser.value := None;
     ActionParser.key := None;
     ActionParser.strategy := None;
     ActionParser.timeout := None;
     ActionParser.expectedElements := None |}.

(** [startRecording(url, testName)]: the returned triple is the outcome
    of the call, the recorder object afterwards and the world
    afterwards.  The listeners that [setupPageRecording] registers are
    not part of the model: what they record while [page.goto] is pending
    is missing from [recordedActions] and [emitted], which are those of
    a page that emits no event during the call. *)
Definition startRecording (url testName0 : string) (r : Recorder) (w : World)
  : Result bool * Recorder * World :=
  let r := emit (EvStatus "Starting browser...") r in
  match launch w with
  | (Throw e, w) => rethrow e r w
  | (Ok b, w) =>
      let r :=
        {| browser := Some b; context := context r; page := page r;
           isRecording := isRecording r; recordedActions := recordedActions r;
           testName := testName r; startUrl := startUrl r;
           emitted := emitted r |} in
      match newContext w with
      | (Throw e, w) => rethrow e r w
      | (Ok c, w) =>
          let r :=
            {| browser := browser r; context := Some c; page := page r;
               isRecording := isRecording r;
               recordedActions := recordedActions r;
               testName := testName r; startUrl := startUrl r;
               emitted := emitted r |} in
          match newPage w with
          | (Throw e, w) => rethrow e r w
          | (Ok p, w) =>
              let r :=
                {| browser := browser r; context := context r;
                   page := Some p;
                   isRecording := true;
                   recordedActions := [];
                   testName := Some testName0;
                   startUrl := Some url;
                   emitted := emitted r |} in
              let r := emit (EvStatus ("Recording started for " +:+ url)) r in
              let r := emit (EvStarted url testName0) r in
              match goto w url with
              | Throw e => rethrow e r w
              | Ok _ =>
                  (Ok true, recordAction (navigation_record url (now w)) r, w)
              end
          end
      end
  end.

End PlaywrightRecorder.

(** ** What one loop iteration pushes

    The index loops of the parser, read suffix by suffix: the records an
    iteration pushes, as a function of [current :: rest], the part of the
    array that starts at the loop index.  The properties below show that
    the loops of the source compute exactly these chunks. *)

Module Chunks.

Import ActionParser.

Definition removeRedundant_chunk (suffix : list ActionRecord)
  : list ActionRecord :=
  match suffix with
  | [] => []
  | current :: rest => if redundant current (head rest) then [] else [current]
  end.

Definition addWait_chunk (this : Options) (suffix : list Action)
  : list Action :=
  match suffix with
  | [] => []
  | current :: rest =>
      match determineWaitStrategy this current (head rest) with
      | Some waitStrategy =>
          [current; Recorded (wait_record waitStrategy current)]
      | None => [current]
      end
  end.

(** The navigation record with its look-ahead annotation. *)
Definition annotate (r : ActionRecord) (following : list Action)
  : ActionRecord :=
  {| type := type r;
     timestamp := timestamp r;
     selector := selector r;
     element := element r;
     url := url r;
     value := value r;
     key := key r;
     strategy := strategy r;
     timeout := timeout r;
     expectedElements :=
       Some (extractExpectedElements (take 3 following)) |}.

Definition optimizeNavigation_chunk (suffix : list Action) : list Action :=
  match suffix with
  | [] => []
  | Recorded r :: rest =>
      if bool_decide (type r = navigation)
      then [Recorded (annotate r rest)]
      else [Recorded r]
  | action :: _ => [action]
  end.

(** The synthetic wait after a navigation. *)
Definition networkidle_wait (current : Action) : ActionRecord :=
  wait_record (mkWaitStrategy "networkidle" None 5000 None) current.

(** The claim that every navigation record of a sequence is immediately
    followed by a wait for network idle with a 5000 ms timeout. *)
Definition every_navigation_followed_by_wait (out : list Action) : Prop :=
  forall (i : nat) (r : ActionRecord),
    out !! i = Some (Recorded r) ->
    type r = navigation ->
    exists w : ActionRecord,
      out !! (i + 1)%nat = Some (Recorded w)
      /\ type w = wait
      /\ strategy w = Some "networkidle"
      /\ timeout w = Some 5000.

(** A chunk of the wait stage: the action alone, or the action and one
    synthetic wait right after it. *)
Definition wait_boundary (current : Action) (chunk : list Action) : Prop :=
  chunk = [current]
  \/ exists waitStrategy : WaitStrategy,
       chunk = [current; Recorded (wait_record waitStrategy current)].

(** The timestamps a Test Step may carry: one of the input, or one of
    the input plus one (a synthetic wait). *)
Definition timestamp_from_input (input : list ActionRecord) (t : Z) : Prop :=
  exists r : ActionRecord,
    r ∈ input /\ (t = timestamp r \/ t = timestamp r + 1).

End Chunks.

(** ** Concrete pages, elements and recordings *)

Module Examples.

Import SelectorGenerator.

(** [CSS.escape] on identifiers that need no escaping. *)
Definition css_escape_plain (s : string) : Result string := Ok s.

(** A runtime without the [CSS] global. *)
Definition css_escape_missing (s : string) : Result string :=
  Throw "CSS is not defined".

Definition no_parent : ParentInfo := mkParentInfo "body" EmptyString EmptyString.

(** A snapshot with the given tag, id, text and attribute map and
    nothing else set. *)
Definition snapshot (tag id0 text : string) (attrs : gmap string string)
  : ElementInfo :=
  {| tagName := tag; id := id0; className := EmptyString;
     textContent := text; innerText := text; value := EmptyString;
     placeholder := EmptyString; title := EmptyString; alt := EmptyString;
     href := EmptyString; src := EmptyString; type := EmptyString;
     name := EmptyString; role := EmptyString; ariaLabel := EmptyString;
     attributes := attrs; parent := no_parent; isVisible := true;
     index := 0 |}.

(** A page on which every element has the snapshot [info], and a
    selector resolves to the nodes listed for it in [table] (to none when
    it is not listed). *)
Definition static_page (info : ElementInfo) (table : list (string * list Node))
  : Page :=
  {| evaluate_info := fun _ => Ok info;
     evaluate_index := fun _ => Ok (index info);
     locator_all := fun sel =>
       Ok (default [] (snd <$> List.find (fun e => String.eqb (fst e) sel) table));
     evaluate_pair := fun _ _ => Ok () |}.

(** A page that was closed: every round trip rejects. *)
Definition closed_page : Page :=
  {| evaluate_info := fun _ => Throw "Target closed";
     evaluate_index := fun _ => Throw "Target closed";
     locator_all := fun _ => Throw "Target closed";
     evaluate_pair := fun _ _ => Throw "Target closed" |}.

(** [<button id="save" data-testid="save-btn">Save</button>] *)
Definition save_button : ElementInfo :=
  snapshot "button" "save" "Save"
    (<["data-testid" := "save-btn"]> (<["id" := "save"]> ∅)).

Definition testid_selector : string :=
  "[data-testid=" +:+ Js.dq +:+ "save-btn" +:+ Js.dq +:+ "]".

(** The button is node 1 and the only match of both of its selectors. *)
Definition page_unique : Page :=
  static_page save_button [(testid_selector, [1%nat]); ("#save", [1%nat])].

(** A second node carries the same [data-testid]; the id is unique. *)
Definition page_shared_testid : Page :=
  static_page save_button
    [(testid_selector, [1%nat; 2%nat]); ("#save", [1%nat])].

(** [<div id="deadbeef"></div>] *)
Definition hex_div : ElementInfo :=
  snapshot "div" "deadbeef" EmptyString (<["id" := "deadbeef"]> ∅).

Definition hex_attribute_selector : string :=
  "[id=" +:+ Js.dq +:+ "deadbeef" +:+ Js.dq +:+ "]".

Definition hex_xpath_selector : string :=
  "xpath=//div[@id=" +:+ Js.dq +:+ "deadbeef" +:+ Js.dq +:+ "]".

(** The div is node 7, the only element with that id, next to another
    div (node 3). *)
Definition page_hex : Page :=
  static_page hex_div
    [(hex_attribute_selector, [7%nat]);
     ("div", [3%nat; 7%nat]);
     (hex_xpath_selector, [7%nat])].

(** The id is used twice on the page (nodes 7 and 8, a div and a span),
    so only the XPath with the tag resolves to the div alone. *)
Definition page_hex_xpath : Page :=
  static_page hex_div
    [(hex_attribute_selector, [7%nat; 8%nat]);
     ("div", [3%nat; 7%nat]);
     (hex_xpath_selector, [7%nat])].





End Examples.

Module RecorderExamples.

Import PlaywrightRecorder.

(** A world in which no call of the automation library rejects. *)
Definition calm_world : World :=
  {| next_handle := 1%nat; live_browsers := []; now := 1000;
     launch_rejects := false; newContext_rejects := false;
     newPage_rejects := false; goto_rejects := false |}.

(** The recorder and the world after a first [startRecording]. *)
Definition first_session : Result bool * Recorder * World :=
  startRecording "https://a.example/" "first" new_recorder calm_world.

(** A second [startRecording] on the recorder that is still recording. *)
Definition second_session : Result bool * Recorder * World :=
  startRecording "https://b.example/" "second"
    (snd (fst first_session)) (snd first_session).

End RecorderExamples.

Module ParserExamples.

Import ActionParser.

(** A Selector Result with the given primary locator. *)
Definition selector_of (p : string) : SelectorField :=
  SelObject
    {| SelectorGenerator.primary := p;
       SelectorGenerator.r_type := "id";
       SelectorGenerator.confidence := 8 # 10;
       SelectorGenerator.fallbacks := [] |}.

(** A record of kind [k] at time [t] on the element located by [p]. *)
Definition on_selector (k : ActionKind) (t : Z) (p : string) : ActionRecord :=
  {| type := k; timestamp := t; selector := Some (selector_of p);
     element := None; url := None; value := None; key := None;
     strategy := None; timeout := None; expectedElements := None |}.

(** A navigation to [u] at time [t]. *)
Definition nav (t : Z) (u : string) : ActionRecord :=
  {| type := navigation; timestamp := t; selector := None;
     element := None; url := Some u; value := None; key := None;
     strategy := None; timeout := None; expectedElements := None |}.

(** Two clicks on [#btn] at 100 and 150 ms. *)
Definition click_100 : ActionRecord := on_selector click 100 "#btn".

Definition hover_50 : ActionRecord := on_selector hover 50 "#btn".

Definition nav_login : ActionRecord := nav 0 "/login".

(** A parser constructed with the three flags switched off. *)
Definition other_parser : Options :=
  {| optimizeSequences := false;
     groupSimilarActions := false;
     generateWaitStrategies := false;
     minWaitTime := 100;
     maxWaitTime := 5000 |}.

End ParserExamples.

(** ** Vocabulary for the stages of the parser

    Predicates and projections used to state what the stages of
    [optimizeActions] keep of their input. *)

Module Stages.

Import ActionParser.

(** The recorded actions an [Action] stands for. *)
Definition sub_actions (a : Action) : list ActionRecord :=
  match a with
  | Recorded r => [r]
  | FormSequence sub _ _ => sub
  end.

(** The recorded actions of a grouped sequence, in order. *)
Definition flatten (l : list Action) : list ActionRecord :=
  concat (sub_actions <$> l).

(** The test of the first branch of the grouping loop. *)
Definition is_form_action (r : ActionRecord) : bool :=
  (bool_decide (type r = input) || bool_decide (type r = select)
   || bool_decide (type r = click))
  && isFormElement (element r).

(** What holds of an action that [groupSequentialActions] emits. *)
Definition grouped_well (a : Action) : Prop :=
  match a with
  | Recorded _ => True
  | FormSequence sub t d =>
      (2 <= length sub)%nat
      /\ Forall (fun r => is_form_action r = true) sub
      /\ head (timestamp <$> sub) = Some t
      /\ d = generateFormDescription sub
  end.

(** The kinds that redundancy elimination never removes. *)
Definition never_redundant (r : ActionRecord) : bool :=
  negb (bool_decide (type r = click) || bool_decide (type r = input)
        || bool_decide (type r = hover)).

(** The kinds after which a wait may be inserted. *)
Definition may_get_wait (a : Action) : bool :=
  has_kind a navigation || has_kind a click || has_kind a api_call.

(** [b] is [a], or [a] is a navigation and [b] is [a] with at most three
    expected elements attached. *)
Definition looked_ahead (a b : Action) : Prop :=
  match a with
  | Recorded r =>
      if bool_decide (type r = navigation) then
        exists expected : list ExpectedElement,
          (length expected <= 3)%nat
          /\ b = Recorded
                   {| type := type r; timestamp := timestamp r;
                      selector := selector r; element := element r;
                      url := url r; value := value r; key := key r;
                      strategy := strategy r; timeout := timeout r;
                      expectedElements := Some expected |}
      else b = a
  | FormSequence _ _ _ => b = a
  end.

(** The sub-actions whose [order] in the form sort is [k]. *)
Definition of_order (k : Z) (l : list ActionRecord) : list ActionRecord :=
  filter (fun r => order (type r) = k) l.

End Stages.

Module StageExamples.

Import ActionParser.

(** An element with the given tag and [type] attribute, inside the form
    with id [form_id]. *)
Definition form_element (tag ty form_id : string) : Element :=
  {| tagName := Some tag; id := None; name := None; textContent := None;
     attributes := Some (<["type" := ty]> ∅);
     parent := Some (mkElementParent (Some "form") (Some form_id) None) |}.

(** An action of kind [k] at time [t] on [e], located by [p]. *)
Definition on_element (k : ActionKind) (t : Z) (p : string) (e : Element)
    (v : option string) : ActionRecord :=
  {| type := k; timestamp := t;
     selector := Some (ParserExamples.selector_of p);
     element := Some e; url := None; value := v; key := None;
     strategy := None; timeout := None; expectedElements := None |}.

Definition enter_user : ActionRecord :=
  on_element input 1000 "#user" (form_element "input" "text" "login")
    (Some "alice").

Definition enter_pass : ActionRecord :=
  on_element input 2000 "#pass" (form_element "input" "password" "login")
    (Some "secret").

Definition click_submit : ActionRecord :=
  on_element click 3000 "#submit" (form_element "button" "submit" "login") None.

(** Open the login page, fill the two fields, submit. *)
Definition login_recording : list ActionRecord :=
  [ParserExamples.nav_login; enter_user; enter_pass; click_submit].

(** The click recorded before the fields it submits. *)
Definition click_first : list ActionRecord :=
  [click_submit; enter_user; enter_pass].

(** The composite the grouping stage builds for the login form. *)
Definition login_form : Action :=
  FormSequence [enter_user; enter_pass; click_submit] 1000
    "Fill form with 2 fields and submit".

End StageExamples.

(** ** Page-object methods ([generateMethods] and its helpers,
    [action-parser.js]) *)

Module PageObjectMethods.

Import Js ActionParser.

(** *** Case conversion *)

Definition to_upper (c : ascii) : ascii :=
  if Regex.lower c then ascii_of_nat (nat_of_ascii c - 32) else c.

(** One pass of [str.replace(/(?:^\w|[A-Z]|\b\w)/g, callback)].  A match
    is one character: an upper-case letter, or a word character that
    starts the string or follows a character that is not a word
    character.  [callback first c] is what replaces the match [c];
    [first] says that the match is at index 0.  [prev] is the character
    before the current position. *)
Fixpoint replace_word_starts (callback : bool -> ascii -> ascii)
    (prev : option ascii) (s : string) : string :=
  match s with
  | EmptyString => EmptyString
  | String c s' =>
      let matched :=
        Regex.upper c
        || (Regex.word c
            && match prev with
               | None => true
               | Some p => negb (Regex.word p)
               end) in
      String (if matched then callback (bool_decide (prev = None)) c else c)
             (replace_word_starts callback (Some c) s')
  end.

(** [str.replace(/\s+/g, '')] *)
Fixpoint remove_spaces (s : string) : string :=
  match s with
  | EmptyString => EmptyString
  | String c s' =>
      if SelectorGenerator.is_space c then remove_spaces s'
      else String c (remove_spaces s')
  end.

Definition toCamelCase (str : string) : string :=
  remove_spaces
    (replace_word_starts
       (fun first word => if first then Regex.to_lower word else to_upper word)
       None str).

Definition toPascalCase (str : string) : string :=
  remove_spaces (replace_word_starts (fun _ word => to_upper word) None str).

Definition is_letter (c : ascii) : bool := Regex.upper c || Regex.lower c.

(** [str.replace(/[^a-zA-Z]/g, '')] *)
Fixpoint letters_only (s : string) : string :=
  match s with
  | EmptyString => EmptyString
  | String c s' =>
      if is_letter c then String c (letters_only s') else letters_only s'
  end.

(** *** Method synthesis *)

(** An entry of [parameters]. *)
Record Param : Type := mkParam {
  p_name : string;
  p_type : string;
  p_description : string;
  p_defaultValue : string
}.

(** The object returned by [createPageObjectMethod]. *)
Record Method : Type := mkMethod {
  m_name : string;
  m_parameters : list Param;
  m_body : string;
  m_jsdoc : string;
  m_actions : nat;
  m_isAsync : bool
}.

Definition generateParameterName (action : ActionRecord) (suffix : string)
  : string :=
  if truthy (element_prop action name) then
    toCamelCase (show (element_prop action name) +:+ suffix)
  else if truthy (element_prop action id) then
    toCamelCase (show (element_prop action id) +:+ suffix)
  else "value" +:+ suffix.

(** The loop state of [generateMethodParameters]: [params] and the set
    [paramNames]. *)
Definition ParamState : Type := (list Param * gset string)%type.

(** The [push]/[add] guarded by [!paramNames.has(paramName)]. *)
Definition add_parameter (p : Param) (st : ParamState) : ParamState :=
  if bool_decide (p_name p ∈ snd st) then st
  else (fst st ++ [p], {[p_name p]} ∪ snd st).

(** One iteration of the loop of [generateMethodParameters]. *)
Definition parameter_step (st : ParamState) (action : Action) : ParamState :=
  match action with
  | FormSequence _ _ _ => st
  | Recorded r =>
      let st1 :=
        if bool_decide (type r = input) && truthy (value r) then
          add_parameter
            {| p_name := generateParameterName r EmptyString;
               p_type := "string";
               p_description :=
                 "Text to enter in " +:+ or_else (element_prop r name) "field";
               p_defaultValue := show (value r) |}
            st
        else st in
      if bool_decide (type r = select) && truthy (value r) then
        add_parameter
          {| p_name := generateParameterName r "option";
             p_type := "string";
             p_description := "Option to select";
             p_defaultValue := show (value r) |}
          st1
      else st1
  end.

Definition generateMethodParameters (actions : list Action) : list Param :=
  fst (foldl parameter_step ([], ∅) actions).

(** [[...new Set(l)]]: the first occurrences, in order. *)
Fixpoint distinct (seen : list string) (l : list string) : list string :=
  match l with
  | [] => []
  | x :: rest =>
      if bool_decide (x ∈ seen) then distinct seen rest
      else x :: distinct (x :: seen) rest
  end.

Definition generateMethodDescription (methodName : string)
    (actions : list Action) : string :=
  match actions with
  | [only] => generateStepDescription only
  | _ =>
      "Performs " +:+ join ", " (distinct [] (action_type <$> actions))
      +:+ " actions (" +:+ show_nat (length actions) +:+ " steps)"
  end.

Definition generateMethodJSDoc (methodName : string) (params : list Param)
    (actions : list Action) : string :=
  join lf
    (["  /**";
      "   * " +:+ generateMethodDescription methodName actions]
     ++ ((fun param =>
            "   * @param {" +:+ p_type param +:+ "} " +:+ p_name param
            +:+ " - " +:+ p_description param) <$> params)
     ++ ["   * @returns {Promise<void>}"; "   */"]).

(** [elements] is not read. *)
Definition createPageObjectMethod (methodName : string) (actions : list Action)
  : Method :=
  let params := generateMethodParameters actions in
  let methodBody :=
    join lf
      ((fun action =>
          join lf
            ((fun line => "    " +:+ line)
             <$> SelectorGenerator.split (ascii_of_nat 10)
                   (generateStepCode action)))
       <$> actions) in
  {| m_name := methodName;
     m_parameters := params;
     m_body := methodBody;
     m_jsdoc := generateMethodJSDoc methodName params actions;
     m_actions := length actions;
     m_isAsync := true |}.

(** The [Map] named [groups], keys in insertion order: the
    [has]/[set]/[get(...).push] of the loop of [groupActionsByFunction]. *)
Fixpoint groups_push (functionName : string) (action : Action)
    (groups : list (string * list Action)) : list (string * list Action) :=
  match groups with
  | [] => [(functionName, [action])]
  | (k, group) :: rest =>
      if bool_decide (k = functionName) then (k, group ++ [action]) :: rest
      else (k, group) :: groups_push functionName action rest
  end.

Section WithURL.

(** [new URL(url).pathname]: the URL parser is a global of the runtime;
    it throws on a string that is not an absolute URL, and on
    [undefined]. *)
Variable URL_pathname : option string -> Result string.

Definition inferFunctionName (action : Action) : Result string :=
  match action with
  | FormSequence _ _ _ => Ok "fillForm"
  | Recorded r =>
      if bool_decide (type r = navigation) then
        pathname ← URL_pathname (url r);
        Ok ("navigateTo"
            +:+ toPascalCase (or_else (Some (letters_only pathname)) "page"))
      else
        let late :=
          if bool_decide (type r = input) then
            "enter"
            +:+ toPascalCase
                  (or_else (or_opt (element_prop r name) (element_prop r id))
                     "field")
          else "perform" +:+ toPascalCase (kind_name (type r)) in
        match element r with
        | Some e =>
            if bool_decide (type r = click) then
              if isSubmitButton (Some e) then Ok "submitForm"
              else if truthy (textContent e) then
                Ok ("click" +:+ toPascalCase (letters_only (show (textContent e))))
              else Ok late
            else Ok late
        | None => Ok late
        end
  end.

(** The loop of [groupActionsByFunction]. *)
Fixpoint groupActionsByFunction_loop (actions : list Action)
    (groups : list (string * list Action))
  : Result (list (string * list Action)) :=
  match actions with
  | [] => Ok groups
  | action :: rest =>
      functionName ← inferFunctionName action;
      groupActionsByFunction_loop rest (groups_push functionName action groups)
  end.

Definition groupActionsByFunction (actions : list Action)
  : Result (list (string * list Action)) :=
  groupActionsByFunction_loop actions [].

(** One iteration of the loop of [generateMethods]; the state is
    [methods] and the set [processedSequences]. *)
Definition method_step (st : list Method * gset string)
    (entry : string * list Action) : list Method * gset string :=
  if bool_decide (fst entry ∈ snd st) then st
  else (fst st ++ [createPageObjectMethod (fst entry) (snd entry)],
        {[fst entry]} ∪ snd st).

Definition generateMethods (actions : list Action) : Result (list Method) :=
  actionGroups ← groupActionsByFunction actions;
  Ok (fst (foldl method_step ([], ∅) actionGroups)).

End WithURL.

(** A URL parser for examples: the text after the host of an [https]
    URL given by the table, an exception for anything else. *)
Definition example_pathname (u : option string) : Result string :=
  match u with
  | Some "https://app.example/login" => Ok "/login"
  | Some "https://app.example/" => Ok "/"
  | Some "https://app.example/orders/42" => Ok "/orders/42"
  | _ => Throw "Invalid URL"
  end.

End PageObjectMethods.

(** ** Vocabulary for strings and for the method examples *)

Module Strings.

(** Every character of [s] satisfies [p]. *)
Fixpoint string_forall (p : ascii -> bool) (s : string) : bool :=
  match s with
  | EmptyString => true
  | String c s' => p c && string_forall p s'
  end.

(** The characters of [s]. *)
Fixpoint chars (s : string) : list ascii :=
  match s with
  | EmptyString => []
  | String c s' => c :: chars s'
  end.

End Strings.

Module MethodExamples.

Import ActionParser.

Definition open_login : ActionRecord :=
  ParserExamples.nav 0 "https://app.example/login".

(** The login recording with an absolute URL, as the recorder buffers
    it. *)
Definition login_actions : list Action :=
  Recorded <$> [open_login; StageExamples.enter_user;
                StageExamples.enter_pass; StageExamples.click_submit].

End MethodExamples.

Module MethodVocabulary.

Import Js ActionParser PageObjectMethods.


(** A navigation action whose URL the parser accepts, or any other
    action. *)
Definition url_parses (URL_pathname : option string -> Result string)
    (a : Action) : Prop :=
  match a with
  | Recorded r =>
      type r = navigation -> exists p, URL_pathname (url r) = Ok p
  | FormSequence _ _ _ => True
  end.

End MethodVocabulary.

(** ** Test data extraction ([extractTestData] and its helpers,
    [action-parser.js]) *)

Module TestData.

Import Js ActionParser.
Import Regex.

(** [.] of a regular expression: any character but a line terminator. *)
Definition dot : Regex :=
  Class (fun c => negb ((nat_of_ascii c =? 10)%nat || (nat_of_ascii c =? 13)%nat)).

(** A literal word, case-sensitive. *)
Fixpoint lit (s : string) : Regex :=
  match s with
  | EmptyString => Eps
  | String a s' => Cat (chr a) (lit s')
  end.

(** [r{n}] *)
Fixpoint times (n : nat) (r : Regex) : Regex :=
  match n with
  | O => Eps
  | S n' => Cat r (times n' r)
  end.

(** [/@.*\./] *)
Definition email_pattern : Pattern :=
  mkPattern false (Cat (chr "@") (Cat (Star dot) (chr "."))) false.

(** [/^\d{10,}$/] *)
Definition phone_pattern : Pattern :=
  mkPattern true (at_least 10 (Class digit)) true.

(** [/^\d{4}-\d{2}-\d{2}$/] *)
Definition date_pattern : Pattern :=
  mkPattern true
    (Cat (times 4 (Class digit))
       (Cat (chr "-") (Cat (times 2 (Class digit))
          (Cat (chr "-") (times 2 (Class digit))))))
    true.

(** [/^user\d+$/] *)
Definition username_pattern : Pattern :=
  mkPattern true (Cat (lit "user") (plus (Class digit))) true.

(** [/^user\d+$/i] *)
Definition username_pattern_i : Pattern :=
  mkPattern true (Cat (lit_i "user") (plus (Class digit))) true.

(** [/test.*\d+/i] *)
Definition test_data_pattern : Pattern :=
  mkPattern false (Cat (lit_i "test") (Cat (Star dot) (plus (Class digit))))
    false.

Definition isDynamicValue (value : string) : bool :=
  existsb (fun pattern => test pattern value)
    [email_pattern; phone_pattern; date_pattern; username_pattern;
     test_data_pattern].

Definition detectValueType (value : string) : string :=
  if test email_pattern value then "email"
  else if test phone_pattern value then "phone"
  else if test date_pattern value then "date"
  else if test username_pattern_i value then "username"
  else "text".

(** An entry of [dynamicValues]. *)
Record DynamicValue : Type := mkDynamicValue {
  dv_field : string;
  dv_value : string;
  dv_type : string
}.

(** An entry of [staticValues]. *)
Record StaticValue : Type := mkStaticValue {
  sv_field : string;
  sv_value : string
}.

(** The object [testData]; [urls] is the [Set] in insertion order and,
    at the end, the array made of it; [formData] holds the own
    properties of the plain object. *)
Record TestData : Type := mkTestData {
  urls : list (option string);
  formData : gmap string string;
  dynamicValues : list DynamicValue;
  staticValues : list StaticValue
}.

(** [set.add(x)] on a [Set] kept in insertion order. *)
Definition set_add (x : option string) (s : list (option string))
  : list (option string) :=
  if bool_decide (x ∈ s) then s else s ++ [x].

(** [object[key] = value] for a string [value] on a plain object.  The
    key [__proto__] reaches the setter inherited from
    [Object.prototype], which ignores a string: no own property is
    stored. *)
Definition object_set (key value : string) (object : gmap string string)
  : gmap string string :=
  if bool_decide (key = "__proto__") then object
  else <[key := value]> object.

(** [action.element?.name || action.element?.id || 'unknown'] *)
Definition field_name (r : ActionRecord) : string :=
  or_else (or_opt (element_prop r name) (element_prop r id)) "unknown".

(** One iteration of the loop of [extractTestData]. *)
Definition extract_step (testData : TestData) (action : Action) : TestData :=
  match action with
  | FormSequence _ _ _ => testData
  | Recorded r =>
      let testData1 :=
        if bool_decide (type r = navigation) then
          {| urls := set_add (url r) (urls testData);
             formData := formData testData;
             dynamicValues := dynamicValues testData;
             staticValues := staticValues testData |}
        else testData in
      if bool_decide (type r = input) && truthy (value r) then
        let fieldName := field_name r in
        let v := show (value r) in
        {| urls := urls testData1;
           formData := object_set fieldName v (formData testData1);
           dynamicValues :=
             if isDynamicValue v
             then dynamicValues testData1
                  ++ [mkDynamicValue fieldName v (detectValueType v)]
             else dynamicValues testData1;
           staticValues :=
             if isDynamicValue v then staticValues testData1
             else staticValues testData1 ++ [mkStaticValue fieldName v] |}
      else testData1
  end.

Definition extractTestData (actions : list Action) : TestData :=
  foldl extract_step (mkTestData [] ∅ [] []) actions.

(** The top-level input actions that carry a non-empty value. *)
Definition valued_inputs (actions : list Action) : list ActionRecord :=
  actions ≫= fun a =>
    match a with
    | Recorded r =>
        if bool_decide (type r = input) && truthy (value r) then [r] else []
    | FormSequence _ _ _ => []
    end.

(** The elements of [l], each once, in the order of their first
    occurrence. *)
Fixpoint first_occurrences (l : list (option string))
  : list (option string) :=
  match l with
  | [] => []
  | x :: l' => x :: filter (fun y => y <> x) (first_occurrences l')
  end.

(** The URLs of the top-level navigation actions. *)
Definition navigation_urls (actions : list Action) : list (option string) :=
  actions ≫= fun a =>
    match a with
    | Recorded r => if bool_decide (type r = navigation) then [url r] else []
    | FormSequence _ _ _ => []
    end.

End TestData.

Module TestDataExamples.

Import ActionParser.

Definition named (nm : string) : Element :=
  {| tagName := Some "input"; id := None; name := Some nm;
     textContent := None; attributes := None; parent := None |}.

(** Typing [al] and then [alice@example.com] into the field [email]. *)
Definition typed_twice : list Action :=
  [Recorded (StageExamples.on_element input 10 "#email" (named "email")
               (Some "al"));
   Recorded (StageExamples.on_element input 20 "#email" (named "email")
               (Some "alice@example.com"))].

End TestDataExamples.

(** ** More of the selector generator ([generateMultipleStrategies] and
    the selector cache, [selector-generator.js]) *)

Module SelectorExtras.

Import Js SelectorGenerator.

(** The confidences a strategy can assign. *)
Definition strategy_confidences : list Q :=
  [9 # 10; 8 # 10; 7 # 10; 75 # 100; 6 # 10; 65 # 100; 5 # 10; 4 # 10; 3 # 10].

(** An entry of [strategies]: the candidate spread into an object with
    the added [strategy] label. *)
Record LabelledCandidate : Type := mkLabelled {
  l_candidate : Candidate;
  l_strategy : string
}.

(** [Array.prototype.sort] with the comparator
    [b.confidence - a.confidence]: the sort is stable, so its result is
    the stable arrangement by descending confidence. *)
Fixpoint insert_by_confidence (a : LabelledCandidate)
    (sorted : list LabelledCandidate) : list LabelledCandidate :=
  match sorted with
  | [] => [a]
  | b :: rest =>
      if Qle_bool (c_confidence (l_candidate b)) (c_confidence (l_candidate a))
      then a :: b :: rest
      else b :: insert_by_confidence a rest
  end.

Definition sort_by_confidence (l : list LabelledCandidate)
  : list LabelledCandidate :=
  foldr insert_by_confidence [] l.

Section MultipleStrategies.

Variable CSS_escape : string -> Result string.
Variable this : Options.

(** The array [strategies] before validation. *)
Definition candidate_strategies (elementInfo : ElementInfo)
  : Result (list LabelledCandidate) :=
  attrSelector ←
    match generateTestIdSelector this elementInfo with
    | Some c => Ok (Some c)
    | None => generateIdSelector CSS_escape elementInfo
    end;
  Ok (match attrSelector with
      | Some c => [mkLabelled c "attribute"]
      | None => []
      end
      ++ match generateTextSelector this elementInfo with
         | Some c => [mkLabelled c "text"]
         | None => []
         end
      ++ [mkLabelled (generateCssSelector elementInfo) "css"]
      ++ [mkLabelled (generateXPathSelector this elementInfo) "xpath"]).

Definition generateMultipleStrategies (page : Page) (elementHandle : Node)
  : Result (list LabelledCandidate) :=
  elementInfo ← getElementInfo page elementHandle;
  strategies ← candidate_strategies elementInfo;
  let validStrategies :=
    filter (fun strategy =>
              validateSelector page (l_candidate strategy) elementHandle = true)
           strategies in
  Ok (sort_by_confidence validStrategies).

End MultipleStrategies.

(** *** The selector cache *)

(** [this.selectorCache]: undefined until [createSelectorCache] runs. *)
Definition Cache : Type := option (gmap string SelectorResult).

Definition createSelectorCache (selectorCache : Cache) : Cache := Some ∅.

Definition getCachedSelector (selectorCache : Cache) (elementKey : string)
  : option SelectorResult :=
  match selectorCache with
  | Some m => m !! elementKey
  | None => None
  end.

Definition setCachedSelector (selectorCache : Cache) (elementKey : string)
    (selector : SelectorResult) : Cache :=
  match selectorCache with
  | Some m => Some (<[elementKey := selector]> m)
  | None => None
  end.

(** *** Vocabulary *)

(** In [s], read after a character that was a backslash or not
    ([after_backslash]), every double quote follows a backslash. *)
Fixpoint quotes_escaped (after_backslash : bool) (s : string) : bool :=
  match s with
  | EmptyString => true
  | String c s' =>
      (negb (bool_decide (c = ascii_of_nat 34)) || after_backslash)
      && quotes_escaped (bool_decide (c = ascii_of_nat 92)) s'
  end.

(** The three kinds of result of [generateSelector]. *)
Inductive ResultKind (page : Page) (elementHandle : Node)
    (r : SelectorResult) : Prop :=
  | Validated :
      locator_all page (primary r) = Ok [elementHandle] ->
      confidence r ∈ strategy_confidences ->
      ResultKind page elementHandle r
  | Composite :
      r_type r = "composite" -> confidence r = 2 # 10 -> fallbacks r = [] ->
      ResultKind page elementHandle r
  | Fallback (idx : Z) :
      getElementIndex page elementHandle = Ok idx ->
      primary r = "xpath=//body//*[position()=" +:+ show_Z idx +:+ "]" ->
      r_type r = "xpath" -> confidence r = 1 # 10 -> fallbacks r = [] ->
      ResultKind page elementHandle r.

End SelectorExtras.

(** ** Ending a recording session ([process-manager.js]) *)

Module RecorderSession.

Import Js PlaywrightRecorder.

(** [Math.round(n / 1000)] for an integer [n]: the nearest integer, a
    tie going up. *)
Definition round_thousandth (n : Z) : Z := (n + 500) / 1000.

Definition getDuration (r : Recorder) : Z :=
  match recordedActions r with
  | [] => 0
  | first :: _ =>
      let start := ActionParser.timestamp first in
      let end_ :=
        ActionParser.timestamp (default first (last (recordedActions r))) in
      round_thousandth (end_ - start)
  end.

(** The [results] object of [generateOutputFiles]: [pageObjects] holds
    the pairs of name and file path. *)
Record Results : Type := mkResults {
  testFile : option string;
  pageObjects : list (string * string);
  actions : nat;
  duration : Z
}.

(** Which of the two [close()] calls reject. *)
Record Closing : Type := mkClosing {
  context_close_rejects : bool;
  browser_close_rejects : bool
}.

(** [context.close()]; the world keeps track of browsers only, so that
    closing a context leaves it as it is. *)
Definition context_close (k : Closing) : Result unit :=
  if context_close_rejects k then Throw "context close failed" else Ok ().

(** [browser.close()] *)
Definition browser_close (k : Closing) (b : Handle) (w : World)
  : Result unit * World :=
  if browser_close_rejects k then (Throw "browser close failed", w)
  else
    (Ok (),
     {| next_handle := next_handle w;
        live_browsers := filter (fun h => h <> b) (live_browsers w);
        now := now w;
        launch_rejects := launch_rejects w;
        newContext_rejects := newContext_rejects w;
        newPage_rejects := newPage_rejects w;
        goto_rejects := goto_rejects w |}).

Definition set_isRecording (v : bool) (r : Recorder) : Recorder :=
  {| browser := browser r; context := context r; page := page r;
     isRecording := v; recordedActions := recordedActions r;
     testName := testName r; startUrl := startUrl r;
     emitted := emitted r |}.

Section Stop.

(** The file work in the [try] block of [generateOutputFiles]
    ([ensureDirectories], the page object files, the test file and the
    summary report): it reads the recorder, and gives the path of the
    test file and the page object entries, or throws. *)
Variable write_files : Recorder -> Result (string * list (string * string)).

Variable closing : Closing.

Definition generateOutputFiles (r : Recorder) : Result Results * Recorder :=
  let results :=
    {| testFile := None; pageObjects := [];
       actions := length (recordedActions r);
       duration := getDuration r |} in
  match write_files r with
  | Ok (testFilePath, written) =>
      (Ok {| testFile := Some testFilePath; pageObjects := written;
             actions := actions results; duration := duration results |},
       r)
  | Throw error => (Throw error, emit (EvError error) r)
  end.

(** [stopRecording()]: the outcome of the call, the recorder object
    afterwards and the world afterwards.  The [stopped] event, emitted
    with the results just before they are returned, is not logged. *)
Definition stopRecording (r : Recorder) (w : World)
  : Result Results * Recorder * World :=
  if negb (isRecording r) then (Throw "No recording in progress", r, w)
  else
    let r := set_isRecording false r in
    let r := emit (EvStatus "Processing recording...") r in
    match generateOutputFiles r with
    | (Throw error, r) => (Throw error, emit (EvError error) r, w)
    | (Ok results, r) =>
        match match context r with
              | Some _ => context_close closing
              | None => Ok ()
              end with
        | Throw error => (Throw error, emit (EvError error) r, w)
        | Ok _ =>
            match match browser r with
                  | Some b => browser_close closing b w
                  | None => (Ok (), w)
                  end with
            | (Throw error, w) => (Throw error, emit (EvError error) r, w)
            | (Ok _, w) =>
                (Ok results, emit (EvStatus "Recording stopped") r, w)
            end
        end
    end.

End Stop.

(** *** File names *)

(** [.replace(/([a-z0-9])([A-Z])/g, '$1-$2')] *)
Fixpoint split_camel (s : string) : string :=
  match s with
  | EmptyString => EmptyString
  | String a s' =>
      match s' with
      | String b _ =>
          if (Regex.lower a || Regex.digit a) && Regex.upper b
          then String a (String "-" (split_camel s'))
          else String a (split_camel s')
      | EmptyString => String a EmptyString
      end
  end.

Fixpoint string_map (f : ascii -> ascii) (s : string) : string :=
  match s with
  | EmptyString => EmptyString
  | String a s' => String (f a) (string_map f s')
  end.

(** [[a-z0-9-]] *)
Definition slug_char (c : ascii) : bool :=
  Regex.lower c || Regex.digit c || bool_decide (c = "-"%char).

(** [.replace(/-+/g, '-')] *)
Fixpoint collapse_dashes (s : string) : string :=
  match s with
  | EmptyString => EmptyString
  | String a s' =>
      match s' with
      | String b _ =>
          if bool_decide (a = "-"%char) && bool_decide (b = "-"%char)
          then collapse_dashes s'
          else String a (collapse_dashes s')
      | EmptyString => String a EmptyString
      end
  end.

(** [.replace(/^-|-$/g, '')], the part at the start. *)
Definition strip_start (s : string) : string :=
  match s with
  | String a s' => if bool_decide (a = "-"%char) then s' else s
  | EmptyString => EmptyString
  end.

(** [.replace(/^-|-$/g, '')], the part at the end. *)
Fixpoint strip_end (s : string) : string :=
  match s with
  | EmptyString => EmptyString
  | String a s' =>
      match s' with
      | EmptyString =>
          if bool_decide (a = "-"%char) then EmptyString
          else String a EmptyString
      | String _ _ => String a (strip_end s')
      end
  end.

Definition toKebabCase (str : string) : string :=
  strip_end
    (strip_start
       (collapse_dashes
          (string_map (fun c => if slug_char c then c else "-"%char)
             (string_map Regex.to_lower (split_camel str))))).

(** Read after a dash or at the start ([after_dash]) or after another
    character: no dash follows a dash or starts [s], and [s] does not
    end in a dash. *)
Fixpoint dashes_between (after_dash : bool) (s : string) : bool :=
  match s with
  | EmptyString => negb after_dash
  | String c s' =>
      if bool_decide (c = "-"%char)
      then negb after_dash && dashes_between true s'
      else dashes_between false s'
  end.

(** Words of lower-case letters and digits with single dashes between
    them, or the empty string. *)
Definition is_slug (s : string) : bool :=
  Strings.string_forall slug_char s
  && match s with
     | EmptyString => true
     | String _ _ => dashes_between true s
     end.

(** No two dashes in a row. *)
Fixpoint single_dashes (s : string) : bool :=
  match s with
  | EmptyString => true
  | String a s' =>
      match s' with
      | String b _ =>
          negb (bool_decide (a = "-"%char) && bool_decide (b = "-"%char))
          && single_dashes s'
      | EmptyString => true
      end
  end.

End RecorderSession.

Module SessionExamples.

Import PlaywrightRecorder RecorderSession.

(** File work that succeeds and writes one test file. *)
Definition files_written (r : Recorder)
  : Result (string * list (string * string)) :=
  Ok ("output/tests/first.spec.js", []).

(** File work that fails. *)
Definition disk_full (r : Recorder)
  : Result (string * list (string * string)) :=
  Throw "ENOSPC".

Definition closes : Closing :=
  {| context_close_rejects := false; browser_close_rejects := false |}.

(** A world in which the first navigation rejects. *)
Definition offline_world : World :=
  {| next_handle := 1%nat; live_browsers := []; now := 1000;
     launch_rejects := false; newContext_rejects := false;
     newPage_rejects := false; goto_rejects := true |}.

End SessionExamples.

(** ** Batching of inputs ([optimizeForPerformance]) *)

Module Performance.

Import Js ActionParser.

(** An entry of [optimized]: an action passed through, or a
    [batch_input] object. *)
Inductive Optimized : Type :=
  | Plain (action : Action)
  | BatchInput (actions : list Action) (bi_timestamp : Z)
      (description : string).

(** The [while] loop: [rest] is [actions] from index [j] on and
    [previous] the timestamp of the last element of [inputBatch]; the
    result is what the loop pushes and [actions] from the final [j]
    on. *)
Fixpoint input_batch (previous : Z) (rest : list Action)
  : list Action * list Action :=
  match rest with
  | next :: rest' =>
      if has_kind next input && (action_timestamp next - previous <? 1000)%Z
      then
        let '(pushed, after) := input_batch (action_timestamp next) rest' in
        (next :: pushed, after)
      else ([], rest)
  | [] => ([], [])
  end.

(** The [for] loop: [rest] is [actions] from index [i] on.  Every
    iteration moves [i] forward, so that [length actions] iterations
    are enough ([fuel]). *)
Fixpoint batch_loop (fuel : nat) (rest : list Action) : list Optimized :=
  match fuel, rest with
  | S fuel', action :: rest' =>
      if has_kind action input then
        let '(pushed, after) :=
          input_batch (action_timestamp action) rest' in
        let inputBatch := action :: pushed in
        if (1 <? length inputBatch)%nat then
          BatchInput inputBatch (action_timestamp action)
            ("Fill " +:+ show_nat (length inputBatch) +:+ " form fields")
          :: batch_loop fuel' after
        else Plain action :: batch_loop fuel' rest'
      else Plain action :: batch_loop fuel' rest'
  | _, _ => []
  end.

Definition optimizeForPerformance (actions : list Action) : list Optimized :=
  batch_loop (length actions) actions.

(** *** Vocabulary *)

(** The actions an entry stands for. *)
Definition batched (o : Optimized) : list Action :=
  match o with
  | Plain action => [action]
  | BatchInput actions _ _ => actions
  end.

Definition unbatch (l : list Optimized) : list Action :=
  concat (batched <$> l).

(** The actions of [l] are inputs, each less than a second after the
    one before it; [previous] is the timestamp before the first. *)
Fixpoint within_second (previous : Z) (l : list Action) : bool :=
  match l with
  | [] => true
  | a :: l' =>
      has_kind a input && (action_timestamp a - previous <? 1000)%Z
      && within_second (action_timestamp a) l'
  end.

Definition batch_well (o : Optimized) : Prop :=
  match o with
  | Plain _ => True
  | BatchInput [] _ _ => False
  | BatchInput (first :: more) t d =>
      has_kind first input = true
      /\ more <> []
      /\ within_second (action_timestamp first) more = true
      /\ t = action_timestamp first
      /\ d = "Fill " +:+ show_nat (S (length more)) +:+ " form fields"
  end.

(** No entry ends in an input that the next entry's first action, an
    input as well, follows by less than a second. *)
Fixpoint batches_maximal (l : list Optimized) : Prop :=
  match l with
  | e1 :: rest =>
      match rest with
      | e2 :: _ =>
          (forall a b,
             last (batched e1) = Some a -> head (batched e2) = Some b ->
             has_kind a input = true -> has_kind b input = true ->
             1000 <= action_timestamp b - action_timestamp a)
          /\ batches_maximal rest
      | [] => True
      end
  | [] => True
  end.

End Performance.

Module PerformanceExamples.

Import ActionParser Performance.

Definition typed (t : Z) (v : string) : Action :=
  Recorded {| type := input; timestamp := t; selector := None;
              element := None; url := None; value := Some v; key := None;
              strategy := None; timeout := None; expectedElements := None |}.

(** Two inputs 400 ms apart, a third 2 s later. *)
Definition three_inputs : list Action :=
  [typed 0 "a"; typed 400 "b"; typed 2400 "c"].

End PerformanceExamples.

(** ** Vocabulary for the assertions of Test Steps *)

Module StepVocabulary.

Import Js ActionParser.

(** A navigation record carries at most three expected elements. *)
Definition navigation_bounded (a : Action) : Prop :=
  match a with
  | Recorded r =>
      type r = navigation ->
      exists expected,
        expectedElements r = Some expected /\ (length expected <= 3)%nat
  | FormSequence _ _ _ => True
  end.

(** The assertions of a step fit its type: a navigation step has the URL
    assertion followed by at most three visibility assertions, an input
    step the one assertion on its value, a click step none or the one on
    the form submission, any other step none. *)
Definition assertions_fit (s : TestStep) : Prop :=
  if decide (ts_type s = "navigation") then
    exists first rest,
      ts_assertions s = Some (first :: rest)
      /\ as_type first = "url"
      /\ (length rest <= 3)%nat
      /\ Forall (fun a => as_type a = "visibility") rest
  else if decide (ts_type s = "input") then
    exists a, ts_assertions s = Some [a] /\ as_type a = "input_value"
  else if decide (ts_type s = "click") then
    ts_assertions s = None
    \/ exists a, ts_assertions s = Some [a] /\ as_type a = "form_submission"
  else ts_assertions s = None.

End StepVocabulary.

(** * Properties *)

(** ** The error monad *)

Lemma bind_Ok {A B : Type} (a : A) (f : A -> Result B) :
  (Ok a ≫= f) = f a.
Proof. done. Qed.


(** ** Loops over an index

    [removeRedundantActions], [addWaitStrategies] and [optimizeNavigation]
    are [for] loops over [i] that look at [actions[i]] and at what follows
    it, and push onto an output array.  Such a loop emits, for each [i],
    a chunk that depends on the suffix [drop i actions] only. *)

Section IndexLoops.

Context {A B : Type}.

Lemma foldl_app_chunks (f : nat -> list B) (acc : list B) (ixs : list nat) :
  foldl (fun acc i => acc ++ f i) acc ixs = acc ++ concat (f <$> ixs).
Proof.
  revert acc. induction ixs as [|i ixs IH]; intros acc; simpl.
  - by rewrite app_nil_r.
  - by rewrite IH, app_assoc.
Qed.

Lemma foldl_pointwise (step step' : list B -> nat -> list B) acc ixs :
  (forall acc i, step acc i = step' acc i) ->
  foldl step acc ixs = foldl step' acc ixs.
Proof.
  intros Heq. revert acc. induction ixs as [|i ixs IH]; intros acc; simpl.
  - done.
  - by rewrite Heq, IH.
Qed.

(** The chunks of the loop, suffix by suffix. *)
Lemma suffix_loop_cons (g : list A -> list B) (a : A) (l : list A) :
  foldl (fun acc i => acc ++ g (drop i (a :: l))) [] (seq 0 (length (a :: l)))
  = g (a :: l) ++ foldl (fun acc i => acc ++ g (drop i l)) [] (seq 0 (length l)).
Proof.
  rewrite !foldl_app_chunks. simpl. f_equal.
  rewrite <- seq_shift, <- list_fmap_compose. done.
Qed.

Lemma lookup_head_drop (l : list A) (i : nat) : l !! i = head (drop i l).
Proof.
  revert i. induction l as [|a l IH]; intros [|i]; simpl; try done.
Qed.

Lemma lookup_succ_drop (l : list A) (i : nat) :
  l !! (i + 1)%nat = head (tail (drop i l)).
Proof.
  revert i. induction l as [|a l IH]; intros [|i]; simpl; try done.
  by destruct l.
Qed.

End IndexLoops.

(** A loop whose chunk for [a] depends on [a] and on the record after it:
    what it pushes for a prefix does not depend on what comes after the
    record that follows the prefix. *)

Section LookAhead.

Context {A : Type} (F : list A -> list A) (g : A -> option A -> list A).

Hypothesis F_cons : forall a l, F (a :: l) = g a (head l) ++ F l.

Lemma look_ahead_prefix (pre rest : list A) (x : A) :
  exists kept,
    F (pre ++ [x]) = kept ++ F [x]
    /\ F (pre ++ x :: rest) = kept ++ F (x :: rest).
Proof.
  induction pre as [|p pre (kept & IH1 & IH2)]; simpl.
  - by exists [].
  - exists (g p (head (pre ++ [x])) ++ kept).
    rewrite !(F_cons p), IH1, IH2, <- !app_assoc.
    split; [done|]. by destruct pre.
Qed.

End LookAhead.

(** ** The index loops of the parser are their chunks *)

Section ParserLoops.

Import ActionParser Chunks.

Lemma removeRedundantActions_nil : removeRedundantActions [] = [].
Proof. done. Qed.

Lemma removeRedundantActions_cons (a : ActionRecord) (l : list ActionRecord) :
  removeRedundantActions (a :: l)
  = removeRedundant_chunk (a :: l) ++ removeRedundantActions l.
Proof.
  unfold removeRedundantActions.
  rewrite (foldl_pointwise _
             (fun acc i => acc ++ removeRedundant_chunk (drop i (a :: l)))).
  - rewrite suffix_loop_cons. f_equal.
    apply foldl_pointwise. intros acc i.
    unfold removeRedundant_step, removeRedundant_chunk.
    rewrite lookup_head_drop, lookup_succ_drop.
    destruct (drop i l) as [|c rest]; simpl; [by rewrite app_nil_r|].
    destruct (redundant c (head rest)); by rewrite ?app_nil_r.
  - intros acc i.
    unfold removeRedundant_step, removeRedundant_chunk.
    rewrite lookup_head_drop, lookup_succ_drop.
    destruct (drop i (a :: l)) as [|c rest]; simpl; [by rewrite app_nil_r|].
    destruct (redundant c (head rest)); by rewrite ?app_nil_r.
Qed.

Lemma addWaitStrategies_nil (this : Options) : addWaitStrategies this [] = [].
Proof. done. Qed.

Lemma addWait_step_chunk (this : Options) (actions acc : list Action) (i : nat) :
  addWait_step this actions acc i
  = acc ++ addWait_chunk this (drop i actions).
Proof.
  unfold addWait_step, addWait_chunk.
  rewrite lookup_head_drop, lookup_succ_drop.
  destruct (drop i actions) as [|c rest]; simpl; [by rewrite app_nil_r|].
  by destruct (determineWaitStrategy this c (head rest)).
Qed.

Lemma addWaitStrategies_cons (this : Options) (a : Action) (l : list Action) :
  addWaitStrategies this (a :: l)
  = addWait_chunk this (a :: l) ++ addWaitStrategies this l.
Proof.
  unfold addWaitStrategies.
  rewrite (foldl_pointwise _
             (fun acc i => acc ++ addWait_chunk this (drop i (a :: l))))
    by apply addWait_step_chunk.
  rewrite suffix_loop_cons. f_equal.
  symmetry. apply foldl_pointwise, addWait_step_chunk.
Qed.

Lemma optimizeNavigation_step_chunk (actions acc : list Action) (i : nat) :
  optimizeNavigation_step actions acc i
  = acc ++ optimizeNavigation_chunk (drop i actions).
Proof.
  unfold optimizeNavigation_step, optimizeNavigation_chunk,
    getSubsequentActions, annotate.
  rewrite lookup_head_drop.
  replace (drop (i + 1) actions) with (tail (drop i actions)).
  - destruct (drop i actions) as [|[r|sub t d] rest]; simpl;
      [by rewrite app_nil_r| |done].
    by destruct (bool_decide (type r = navigation)).
  - rewrite Nat.add_comm. simpl. revert i.
    induction actions as [|x actions IH]; intros [|i]; simpl; done.
Qed.

Lemma optimizeNavigation_nil : optimizeNavigation [] = [].
Proof. done. Qed.

Lemma optimizeNavigation_cons (a : Action) (l : list Action) :
  optimizeNavigation (a :: l)
  = optimizeNavigation_chunk (a :: l) ++ optimizeNavigation l.
Proof.
  unfold optimizeNavigation.
  rewrite (foldl_pointwise _
             (fun acc i => acc ++ optimizeNavigation_chunk (drop i (a :: l))))
    by apply optimizeNavigation_step_chunk.
  rewrite suffix_loop_cons. f_equal.
  symmetry. apply foldl_pointwise, optimizeNavigation_step_chunk.
Qed.

End ParserLoops.

(** ** Redundancy elimination *)

Section Redundancy.

Import ActionParser Chunks.

Lemma removeRedundant_chunk_sublist (a : ActionRecord) (l : list ActionRecord) :
  removeRedundant_chunk (a :: l) = [] \/ removeRedundant_chunk (a :: l) = [a].
Proof.
  unfold removeRedundant_chunk. destruct (redundant a (head l)); auto.
Qed.

Lemma removeRedundantActions_sublist (actions : list ActionRecord) :
  removeRedundantActions actions `sublist_of` actions.
Proof.
  induction actions as [|a l IH].
  - rewrite removeRedundantActions_nil. constructor.
  - rewrite removeRedundantActions_cons.
    destruct (removeRedundant_chunk_sublist a l) as [-> | ->]; simpl.
    + by apply sublist_cons.
    + by apply sublist_skip.
Qed.

(** The last record of the array has no successor and is always kept;
    what the loop pushes for a prefix depends on the prefix and on the
    record right after it. *)
Lemma removeRedundantActions_prefix (pre rest : list ActionRecord)
    (x : ActionRecord) :
  exists kept,
    removeRedundantActions (pre ++ [x]) = kept ++ [x]
    /\ removeRedundantActions (pre ++ x :: rest)
       = kept ++ removeRedundantActions (x :: rest).
Proof.
  destruct (look_ahead_prefix removeRedundantActions
              (fun a next => if redundant a next then [] else [a])
              removeRedundantActions_cons pre rest x) as (kept & H1 & H2).
  exists kept. split; [|done].
  by rewrite H1, removeRedundantActions_cons.
Qed.




End Redundancy.

(** ** The pipeline on a single record *)

Section SingleRecord.

Import ActionParser Chunks.


Lemma addWaitStrategies_single (this : Options) (x : Action) :
  addWaitStrategies this [x] = [x].
Proof. by rewrite addWaitStrategies_cons. Qed.



End SingleRecord.

(** ** Claims about redundancy elimination *)

Section RedundancyClaims.

Import ActionParser Chunks.

(** C9.  The output of the redundancy-elimination stage is a subsequence
    of its input: every surviving record is an input record, in the
    input's order, none duplicated or invented; hence the output is no
    longer than the input. *)
Theorem removeRedundantActions_subsequence (actions : list ActionRecord) :
  removeRedundantActions actions `sublist_of` actions
  /\ (length (removeRedundantActions actions) <= length actions)%nat.
Proof.
  split.
  - apply removeRedundantActions_sublist.
  - apply sublist_length, removeRedundantActions_sublist.
Qed.



(** A hover on [#btn] right before a click on it leaves the click only. *)
Example hover_before_click_is_dropped :
  removeRedundantActions [ParserExamples.hover_50; ParserExamples.click_100]
  = [ParserExamples.click_100].
Proof. reflexivity. Qed.

End RedundancyClaims.

(** ** Claims about wait insertion *)

Section WaitClaims.

Import ActionParser Chunks.

Lemma addWaitStrategies_chunk_eq (this : Options) (a : Action) (l : list Action) :
  addWaitStrategies this (a :: l)
  = match determineWaitStrategy this a (head l) with
    | Some waitStrategy => [a; Recorded (wait_record waitStrategy a)]
    | None => [a]
    end ++ addWaitStrategies this l.
Proof. apply addWaitStrategies_cons. Qed.

Lemma addWaitStrategies_prefix (this : Options) (pre rest : list Action)
    (x : Action) :
  exists kept,
    addWaitStrategies this (pre ++ [x]) = kept ++ [x]
    /\ addWaitStrategies this (pre ++ x :: rest)
       = kept ++ addWaitStrategies this (x :: rest).
Proof.
  destruct (look_ahead_prefix (addWaitStrategies this)
              (fun a next =>
                 match determineWaitStrategy this a next with
                 | Some waitStrategy => [a; Recorded (wait_record waitStrategy a)]
                 | None => [a]
                 end)
              (addWaitStrategies_chunk_eq this) pre rest x) as (kept & H1 & H2).
  exists kept. split; [|done].
  by rewrite H1, addWaitStrategies_single.
Qed.

Lemma navigation_wait_strategy (this : Options) (r : ActionRecord)
    (next : Action) :
  type r = navigation ->
  determineWaitStrategy this (Recorded r) (Some next)
  = Some (mkWaitStrategy "networkidle" None 5000 None).
Proof.
  intros Hr. unfold determineWaitStrategy, has_kind.
  by rewrite bool_decide_eq_true_2.
Qed.

Lemma addWaitStrategies_boundaries (this : Options) (actions : list Action) :
  exists chunks : list (list Action),
    Forall2 wait_boundary actions chunks
    /\ addWaitStrategies this actions = concat chunks.
Proof.
  induction actions as [|a l (chunks & Hb & Heq)].
  - exists []. split; [constructor | done].
  - exists (addWait_chunk this (a :: l) :: chunks). split.
    + constructor; [|done]. unfold wait_boundary, addWait_chunk.
      destruct (determineWaitStrategy this a (head l)) as [ws|]; eauto.
    + by rewrite addWaitStrategies_cons, Heq.
Qed.

(** C6, as the specification states it, fails: a sequence that ends in a
    navigation has no wait after that navigation.  The recording that is
    just the opening navigation is such a sequence after grouping. *)
Lemma trailing_navigation_gets_no_wait :
  addWaitStrategies default_options
    (groupSequentialActions [ParserExamples.nav_login])
  = [Recorded ParserExamples.nav_login]
  /\ ~ every_navigation_followed_by_wait
         (addWaitStrategies default_options
            (groupSequentialActions [ParserExamples.nav_login])).
Proof.
  split; [reflexivity|].
  intros Hall.
  destruct (Hall 0%nat ParserExamples.nav_login) as (w & Hw & _);
    [reflexivity | reflexivity | discriminate Hw].
Qed.

(** C6, amended.  A navigation record that has a successor in the
    sequence is immediately followed by one synthetic wait of strategy
    networkidle with a 5000 ms timeout, stamped one past the navigation
    ([kept] is what the loop pushed for the records before it, and the
    sequence that stops at the navigation ends with the navigation
    itself).  On every sequence the output is the input with, after each
    action, nothing or exactly one synthetic wait. *)
Theorem navigation_with_successor_gets_wait
    (this : Options) (pre post : list Action) (r : ActionRecord)
    (next : Action) :
  type r = navigation ->
  (exists kept : list Action,
     addWaitStrategies this (pre ++ [Recorded r]) = kept ++ [Recorded r]
     /\ addWaitStrategies this (pre ++ Recorded r :: next :: post)
        = kept ++ Recorded r :: Recorded (networkidle_wait (Recorded r))
               :: addWaitStrategies this (next :: post))
  /\ type (networkidle_wait (Recorded r)) = wait
  /\ strategy (networkidle_wait (Recorded r)) = Some "networkidle"
  /\ timeout (networkidle_wait (Recorded r)) = Some 5000
  /\ timestamp (networkidle_wait (Recorded r)) = timestamp r + 1
  /\ (forall actions : list Action,
        exists chunks : list (list Action),
          Forall2 wait_boundary actions chunks
          /\ addWaitStrategies this actions = concat chunks).
Proof.
  intros Hr. split; [|repeat split].
  - destruct (addWaitStrategies_prefix this pre (next :: post) (Recorded r))
      as (kept & H1 & H2).
    exists kept. split; [done|].
    rewrite H2, addWaitStrategies_cons. unfold addWait_chunk.
    change (head (next :: post)) with (Some next).
    by rewrite navigation_wait_strategy.
  - apply addWaitStrategies_boundaries.
Qed.

(** A navigation to [/login] followed by a click gets its wait. *)
Lemma navigation_with_successor_gets_wait_witness :
  type ParserExamples.nav_login = navigation
  /\ addWaitStrategies default_options
       [Recorded ParserExamples.nav_login; Recorded ParserExamples.click_100]
     = [Recorded ParserExamples.nav_login;
        Recorded (networkidle_wait (Recorded ParserExamples.nav_login));
        Recorded ParserExamples.click_100].
Proof.
  split; [reflexivity|].
  destruct (navigation_with_successor_gets_wait default_options [] []
              ParserExamples.nav_login (Recorded ParserExamples.click_100)
              eq_refl) as [(kept & H1 & H2) _].
  simpl in H1, H2.
  rewrite addWaitStrategies_single in H1.
  destruct kept as [|k kept]; [|destruct kept; discriminate H1].
  by rewrite H2, addWaitStrategies_single.
Defined.

End WaitClaims.

(** ** Test Steps: numbering and timestamps *)

Section TestSteps.

Import ActionParser Chunks.

Lemma convertToTestSteps_ids (l : list Action) :
  ts_id <$> convertToTestSteps l = seq 1 (length l).
Proof.
  unfold convertToTestSteps. rewrite fmap_imap.
  rewrite (imap_ext _ (fun index _ => S index)).
  - by rewrite imap_seq_0, fmap_S_seq.
  - intros i x _. simpl. lia.
Qed.

Lemma convertToTestSteps_length (l : list Action) :
  length (convertToTestSteps l) = length l.
Proof. apply length_imap. Qed.

Lemma convertToTestSteps_timestamps (l : list Action) :
  ts_timestamp <$> convertToTestSteps l = action_timestamp <$> l.
Proof.
  unfold convertToTestSteps. rewrite fmap_imap.
  rewrite (imap_ext _ (fun _ action => action_timestamp action)) by done.
  apply imap_const.
Qed.

End TestSteps.

(** ** Where the timestamps of the output come from *)

Section Provenance.

Import ActionParser Chunks.

(** A property of timestamps that holds of all timestamps so far. *)
Variable Q : Z -> Prop.

(** Splits a [Forall] over appended pieces into its pieces. *)
Ltac forall_pieces :=
  repeat match goal with
         | |- Forall _ [_] => apply Forall_singleton
         | |- Forall _ (_ ++ _) => apply Forall_app; split
         | _ => done
         end.

Lemma finalizeGroup_timestamps (group : list ActionRecord)
    (groupType : option GroupType) :
  Forall (fun r => Q (timestamp r)) group ->
  Forall (fun a => Q (action_timestamp a)) (finalizeGroup group groupType).
Proof.
  intros Hg.
  assert (Hrec : Forall (fun a => Q (action_timestamp a)) (Recorded <$> group))
    by (by apply Forall_fmap).
  unfold finalizeGroup.
  destruct groupType as [[|]|]; try done.
  destruct group as [|first [|second rest]]; try done.
  apply Forall_singleton. simpl. by inversion Hg.
Qed.

(** The invariant of the grouping loop. *)
Lemma group_step_timestamps (st : GroupState) (action : ActionRecord) :
  Forall (fun a => Q (action_timestamp a)) (grouped st) ->
  Forall (fun r => Q (timestamp r)) (currentGroup st) ->
  Q (timestamp action) ->
  Forall (fun a => Q (action_timestamp a)) (grouped (group_step st action))
  /\ Forall (fun r => Q (timestamp r)) (currentGroup (group_step st action)).
Proof.
  intros Hgr Hcur Hact.
  pose proof (finalizeGroup_timestamps (currentGroup st) (currentGroupType st) Hcur)
    as Hfin.
  assert (Hflush :
    Forall (fun a => Q (action_timestamp a))
      (if (0 <? length (currentGroup st))%nat
       then grouped st ++ finalizeGroup (currentGroup st) (currentGroupType st)
       else grouped st)).
  { destruct (0 <? length (currentGroup st))%nat; [|done].
    by apply Forall_app. }
  unfold group_step.
  destruct ((bool_decide (type action = input)
             || bool_decide (type action = select)
             || bool_decide (type action = click))
            && isFormElement (element action)).
  - destruct (currentGroupType st) as [[|]|]; simpl; split; forall_pieces.
  - destruct (bool_decide (type action = navigation)); simpl.
    + split; forall_pieces.
    + destruct (currentGroupType st) as [[|]|]; simpl; split; forall_pieces.
Qed.

Lemma group_loop_timestamps (actions : list ActionRecord) (st : GroupState) :
  Forall (fun a => Q (action_timestamp a)) (grouped st) ->
  Forall (fun r => Q (timestamp r)) (currentGroup st) ->
  Forall (fun r => Q (timestamp r)) actions ->
  Forall (fun a => Q (action_timestamp a))
    (grouped (foldl group_step st actions))
  /\ Forall (fun r => Q (timestamp r))
       (currentGroup (foldl group_step st actions)).
Proof.
  revert st. induction actions as [|a l IH]; intros st Hgr Hcur Hall; simpl.
  - done.
  - inversion Hall as [|? ? Ha Hl]; subst.
    destruct (group_step_timestamps st a Hgr Hcur Ha) as [Hgr' Hcur'].
    by apply IH.
Qed.

Lemma groupSequentialActions_timestamps (actions : list ActionRecord) :
  Forall (fun r => Q (timestamp r)) actions ->
  Forall (fun a => Q (action_timestamp a)) (groupSequentialActions actions).
Proof.
  intros Hall. unfold groupSequentialActions.
  destruct (group_loop_timestamps actions (mkGroupState [] [] None))
    as [Hgr Hcur]; [done..|].
  destruct (0 <? length _)%nat; [|done].
  apply Forall_app. split; [done|]. by apply finalizeGroup_timestamps.
Qed.

Lemma addWaitStrategies_timestamps (this : Options) (actions : list Action) :
  Forall (fun a => Q (action_timestamp a)) actions ->
  Forall (fun a => Q (action_timestamp a) \/ Q (action_timestamp a - 1))
    (addWaitStrategies this actions).
Proof.
  induction actions as [|a l IH]; intros Hall.
  - by rewrite addWaitStrategies_nil.
  - inversion Hall as [|? ? Ha Hl]; subst.
    rewrite addWaitStrategies_cons. apply Forall_app. split; [|by apply IH].
    unfold addWait_chunk.
    destruct (determineWaitStrategy this a (head l)) as [ws|].
    + apply Forall_cons. split; [by left|].
      apply Forall_singleton. right. simpl.
      by replace (action_timestamp a + 1 - 1) with (action_timestamp a) by lia.
    + apply Forall_singleton. by left.
Qed.

End Provenance.

Section ProvenanceStages.

Import ActionParser Chunks.

Lemma optimizeFormFilling_timestamps (actions : list Action) :
  action_timestamp <$> optimizeFormFilling actions = action_timestamp <$> actions.
Proof.
  unfold optimizeFormFilling. rewrite <- list_fmap_compose.
  apply list_fmap_ext. by intros i [r|sub t d] _.
Qed.

Lemma optimizeNavigation_timestamps (actions : list Action) :
  action_timestamp <$> optimizeNavigation actions = action_timestamp <$> actions.
Proof.
  induction actions as [|a l IH].
  - by rewrite optimizeNavigation_nil.
  - rewrite optimizeNavigation_cons, fmap_app, IH.
    destruct a as [r|sub t d]; simpl; [|done].
    by destruct (bool_decide (type r = navigation)).
Qed.

Lemma determineWaitStrategy_options (this that : Options)
    (currentAction : Action) (nextAction : option Action) :
  minWaitTime that = minWaitTime this ->
  maxWaitTime that = maxWaitTime this ->
  determineWaitStrategy that currentAction nextAction
  = determineWaitStrategy this currentAction nextAction.
Proof. intros Hmin Hmax. unfold determineWaitStrategy. by rewrite Hmin, Hmax. Qed.

Lemma addWaitStrategies_options (this that : Options) (actions : list Action) :
  minWaitTime that = minWaitTime this ->
  maxWaitTime that = maxWaitTime this ->
  addWaitStrategies that actions = addWaitStrategies this actions.
Proof.
  intros Hmin Hmax. induction actions as [|a l IH].
  - done.
  - rewrite !addWaitStrategies_cons, IH. unfold addWait_chunk.
    by rewrite (determineWaitStrategy_options this that a (head l) Hmin Hmax).
Qed.

(** C7.  Two runs of [optimizeActions] on the same list give the same
    Test Steps (ids, descriptions, code, data and assertions included):
    the output is determined by the list and by the two wait options of
    the parser, the only state a run reads, so the run of [that] parser
    (the same object later, or another one with the same wait options)
    repeats the run of [this] one.  No stage reads a clock or a random
    source: the timestamps of the output are those of the input records,
    or one past one of them on a synthetic wait. *)
Theorem optimizeActions_deterministic
    (this that : Options) (recordedActions : list ActionRecord) :
  minWaitTime that = minWaitTime this ->
  maxWaitTime that = maxWaitTime this ->
  optimizeActions that (ArrayOf recordedActions)
  = optimizeActions this (ArrayOf recordedActions)
  /\ Forall (fun step =>
               timestamp_from_input recordedActions (ts_timestamp step))
       (optimizeActions this (ArrayOf recordedActions)).
Proof.
  intros Hmin Hmax. split.
  { unfold optimizeActions. destruct recordedActions as [|first rest]; [done|].
    by rewrite (addWaitStrategies_options this that _ Hmin Hmax). }
  apply (Forall_fmap ts_timestamp (timestamp_from_input recordedActions)).
  destruct recordedActions as [|first rest]; [constructor|].
  unfold optimizeActions. cbv beta iota zeta. set (input := first :: rest).
  rewrite convertToTestSteps_timestamps, optimizeNavigation_timestamps,
    optimizeFormFilling_timestamps.
  apply Forall_fmap.
  set (Q := fun t => exists r, r ∈ input /\ t = timestamp r).
  assert (Hin : Forall (fun r => Q (timestamp r)) (removeRedundantActions input)).
  { apply Forall_forall. intros r Hr. exists r. split; [|done].
    eapply elem_of_sublist; [done | apply removeRedundantActions_sublist]. }
  apply (groupSequentialActions_timestamps Q) in Hin.
  apply (addWaitStrategies_timestamps Q this) in Hin.
  eapply Forall_impl; [exact Hin|].
  intros a [(r & Hr & Ht) | (r & Hr & Ht)]; exists r; simpl;
    (split; [done|]); [left | right]; lia.
Qed.

(** A second parser that differs from the default one in its unused
    flags only repeats the default parser's run on a navigation followed
    by a click. *)
Lemma optimizeActions_deterministic_witness :
  minWaitTime ParserExamples.other_parser = minWaitTime default_options
  /\ maxWaitTime ParserExamples.other_parser = maxWaitTime default_options
  /\ optimizeActions ParserExamples.other_parser
       (ArrayOf [ParserExamples.nav_login; ParserExamples.click_100])
     = optimizeActions default_options
         (ArrayOf [ParserExamples.nav_login; ParserExamples.click_100])
  /\ Forall (fun step =>
               timestamp_from_input
                 [ParserExamples.nav_login; ParserExamples.click_100]
                 (ts_timestamp step))
       (optimizeActions default_options
          (ArrayOf [ParserExamples.nav_login; ParserExamples.click_100])).
Proof.
  split; [reflexivity|]. split; [reflexivity|].
  apply (optimizeActions_deterministic default_options
           ParserExamples.other_parser
           [ParserExamples.nav_login; ParserExamples.click_100]);
    reflexivity.
Defined.

End ProvenanceStages.

(** ** The Validation Protocol *)

Section Validation.

Import SelectorGenerator.

(** [validateSelector] accepts exactly when the locator resolves to the
    original element alone and the identity comparison could be
    evaluated. *)
Lemma validateSelector_spec (page : Page) (c : Candidate) (h : Node) :
  validateSelector page c h = true
  <-> locator_all page (selector c) = Ok [h]
      /\ evaluate_pair page h h = Ok ().
Proof.
  unfold validateSelector, validateSelector_body.
  destruct (locator_all page (selector c)) as [elements|e]; simpl.
  - destruct elements as [|found [|second rest]]; simpl.
    + split; [done | by intros [? _]].
    + destruct (evaluate_pair page h found) as [[]|e] eqn:Hpair; simpl.
      * split.
        -- intros Hsame. apply bool_decide_eq_true_1 in Hsame. by subst.
        -- intros [Hloc _]. inversion Hloc. by apply bool_decide_eq_true_2.
      * split; [done|]. intros [Hloc Hok]. inversion Hloc; subst. congruence.
    + split; [done | by intros [? _]].
  - split; [done | by intros [? _]].
Qed.

Lemma generateFallbacks_ok (this : Options) (page : Page) (h : Node)
    (info : ElementInfo) (c : Candidate) :
  getElementInfo page h = Ok info ->
  exists fbs, generateFallbacks this page h c = Ok fbs.
Proof. intros Hinfo. unfold generateFallbacks. rewrite Hinfo. eauto. Qed.

(** A candidate that fails validation, or a strategy without candidate,
    sends the loop on to the next strategy. *)
Lemma strategies_loop_skip (this : Options) (page : Page) (h : Node)
    (info : ElementInfo)
    (strategy : ElementInfo -> Result (option Candidate))
    (rest : list (ElementInfo -> Result (option Candidate))) :
  strategy info = Ok None
  \/ (exists c, strategy info = Ok (Some c) /\ validateSelector page c h = false) ->
  strategies_loop this page h info (strategy :: rest)
  = strategies_loop this page h info rest.
Proof.
  intros [Hnone | (c & Hc & Hv)]; simpl.
  - by rewrite Hnone.
  - rewrite Hc. simpl. by rewrite Hv.
Qed.

Lemma strategies_loop_accept (this : Options) (page : Page) (h : Node)
    (info : ElementInfo)
    (strategy : ElementInfo -> Result (option Candidate))
    (rest : list (ElementInfo -> Result (option Candidate))) (c : Candidate) :
  strategy info = Ok (Some c) ->
  validateSelector page c h = true ->
  strategies_loop this page h info (strategy :: rest)
  = fbs ← generateFallbacks this page h c;
    Ok (Some {| primary := selector c; r_type := c_type c;
                confidence := c_confidence c; fallbacks := fbs |}).
Proof. intros Hc Hv. simpl. rewrite Hc. simpl. by rewrite Hv. Qed.

(** What the loop returns was validated. *)
Lemma strategies_loop_validated (this : Options) (page : Page) (h : Node)
    (info : ElementInfo)
    (strats : list (ElementInfo -> Result (option Candidate)))
    (r : SelectorResult) :
  strategies_loop this page h info strats = Ok (Some r) ->
  exists c, validateSelector page c h = true /\ primary r = selector c
            /\ r_type r = c_type c /\ confidence r = c_confidence c.
Proof.
  induction strats as [|strategy rest IH]; simpl; [done|].
  destruct (strategy info) as [[c|]|e]; simpl; [|done|done].
  destruct (validateSelector page c h) eqn:Hv; [|done].
  destruct (generateFallbacks this page h c) as [fbs|e]; simpl; [|done].
  intros [= <-]. by exists c.
Qed.

(** C1.  The Validation Protocol: a candidate is accepted exactly when its
    selector resolves on the page to one element, the original one (and
    the comparison could be evaluated); no match, several matches, another
    element, or a rejected evaluation reject it.  A rejected candidate
    sends the generator on to the next strategy, and the primary selector
    of a result returned by the strategy loop resolves to exactly the
    original element. *)
Theorem validated_selector_resolves_to_original
    (this : Options) (page : Page) (elementHandle : Node) :
  (forall c : Candidate,
     validateSelector page c elementHandle = true
     <-> locator_all page (selector c) = Ok [elementHandle]
         /\ evaluate_pair page elementHandle elementHandle = Ok ())
  /\ (forall (c : Candidate),
        (locator_all page (selector c) = Ok []
         \/ (exists a b rest, locator_all page (selector c) = Ok (a :: b :: rest))
         \/ (exists other, locator_all page (selector c) = Ok [other]
                           /\ other <> elementHandle)
         \/ (exists e, locator_all page (selector c) = Throw e)
         \/ (exists found e, locator_all page (selector c) = Ok [found]
                             /\ evaluate_pair page elementHandle found = Throw e)) ->
        validateSelector page c elementHandle = false)
  /\ (forall info strategy rest c,
        strategy info = Ok (Some c) ->
        validateSelector page c elementHandle = false ->
        strategies_loop this page elementHandle info (strategy :: rest)
        = strategies_loop this page elementHandle info rest)
  /\ (forall info strats r,
        strategies_loop this page elementHandle info strats = Ok (Some r) ->
        locator_all page (primary r) = Ok [elementHandle]).
Proof.
  split; [|split; [|split]].
  - intros c. apply validateSelector_spec.
  - intros c Hbad. unfold validateSelector, validateSelector_body.
    destruct Hbad as [H | [(a & b & rest & H) | [(other & H & Hne)
                     | [(e & H) | (found & e & H & He)]]]];
      rewrite H; simpl; try done.
    + destruct (evaluate_pair page elementHandle other); simpl; [|done].
      by apply bool_decide_eq_false_2.
    + by rewrite He.
  - intros info strategy rest c Hc Hv.
    apply strategies_loop_skip. right. by exists c.
  - intros info strats r Hr.
    destruct (strategies_loop_validated this page elementHandle info strats r Hr)
      as (c & Hv & -> & _).
    by apply validateSelector_spec in Hv as [Hloc _].
Qed.

(** On the page where the button is the only match of its test id, the
    loop returns the test-id selector, which resolves to the button. *)
Lemma validated_selector_resolves_to_original_witness :
  let found :=
    {| primary := Examples.testid_selector; r_type := "data-attribute";
       confidence := 9 # 10; fallbacks := [] |} in
  strategies_loop default_options Examples.page_unique 1%nat
    Examples.save_button (strategies Examples.css_escape_plain default_options)
  = Ok (Some found)
  /\ locator_all Examples.page_unique (primary found) = Ok [1%nat].
Proof.
  split; [reflexivity|].
  apply (proj2 (proj2 (proj2
           (validated_selector_resolves_to_original default_options
              Examples.page_unique 1%nat)))
           Examples.save_button
           (strategies Examples.css_escape_plain default_options)).
  reflexivity.
Defined.

End Validation.

(** ** Strategy order *)

Section StrategyOrder.

Import SelectorGenerator.

Variable CSS_escape : string -> Result string.
Variable this : Options.



Lemma generateSelector_of_loop (page : Page) (h : Node) (info : ElementInfo)
    (r : SelectorResult) :
  getElementInfo page h = Ok info ->
  strategies_loop this page h info (strategies CSS_escape this) = Ok (Some r) ->
  generateSelector CSS_escape this page h = Ok r.
Proof.
  intros Hinfo Hloop. unfold generateSelector, generateSelector_body.
  by rewrite Hinfo, bind_Ok, Hloop.
Qed.


End StrategyOrder.

Section StrategyClaims.

Import SelectorGenerator.




End StrategyClaims.

(** ** Unstable ids *)

Section UnstableIds.

Import SelectorGenerator.

(** The id strategy itself never uses an id that [isStableId] rejects. *)
Lemma generateIdSelector_skips_unstable
    (CSS_escape : string -> Result string) (info : ElementInfo) :
  isStableId (id info) = false ->
  generateIdSelector CSS_escape info = Ok None.
Proof.
  intros Hid. unfold generateIdSelector.
  by rewrite Hid, andb_false_r.
Qed.

(** The patterns on sample ids. *)
Example isStableId_samples :
  isStableId "save" = true
  /\ isStableId "deadbeef" = false
  /\ isStableId "DEADBEEF12" = false
  /\ isStableId "abcdef1" = true
  /\ isStableId "deadbeeg" = true
  /\ isStableId "12345" = false
  /\ isStableId "react-select-2" = false
  /\ isStableId "Vue-tab" = false
  /\ isStableId "item_42" = false
  /\ isStableId "generatedField" = false.
Proof. repeat split. Qed.

Example getStableClasses_sample :
  getStableClasses "btn css-a1b2c3d4 Button_root_a1b2  9col primary"
  = ["btn"; "primary"].
Proof. reflexivity. Qed.

(** With the default options, an element without test attributes whose
    [id] attribute selector resolves to it alone gets that selector as
    primary, whether [isStableId] accepts the id or not. *)
Lemma preferred_attribute_strategy_uses_any_id
    (CSS_escape : string -> Result string) (page : Page) (h : Node)
    (info : ElementInfo) (v : string) :
  getElementInfo page h = Ok info ->
  truthy_attribute info "data-testid" = None ->
  truthy_attribute info "data-test" = None ->
  truthy_attribute info "data-cy" = None ->
  truthy_attribute info "id" = Some v ->
  locator_all page ("[id=" +:+ Js.dq +:+ v +:+ Js.dq +:+ "]") = Ok [h] ->
  evaluate_pair page h h = Ok () ->
  exists fbs,
    generateSelector CSS_escape default_options page h
    = Ok {| primary := "[id=" +:+ Js.dq +:+ v +:+ Js.dq +:+ "]";
            r_type := "data-attribute"; confidence := 9 # 10;
            fallbacks := fbs |}.
Proof.
  intros Hinfo Ht1 Ht2 Ht3 Hid Hloc Hpair.
  pose (c := {| selector := "[" +:+ "id" +:+ "=" +:+ Js.dq +:+ v
                            +:+ Js.dq +:+ "]";
                c_type := "data-attribute"; c_confidence := 9 # 10;
                c_attribute := Some "id"; c_value := Some v;
                c_role := None; c_text := None;
                c_placeholder := None; c_classes := None |}).
  destruct (generateFallbacks_ok default_options page h info c Hinfo)
    as [fbs Hfbs].
  exists fbs. apply (generateSelector_of_loop _ _ _ _ info); [done|].
  unfold strategies.
  rewrite (strategies_loop_accept default_options page h info _ _ c).
  - by rewrite Hfbs.
  - unfold generateTestIdSelector. simpl. by rewrite Ht1, Ht2, Ht3, Hid.
  - by apply validateSelector_spec.
Qed.

(** C3 does not hold of the code.  The id [deadbeef] matches the pure-hex
    pattern and the id strategy skips it, but [id] is among the preferred
    attributes, so the preferred-attribute strategy builds its selector
    from that id; and where that selector is not unique the XPath strategy
    builds its selector from the same id. *)
Theorem unstable_hex_id_used_as_basis :
  Regex.test
    (Regex.mkPattern true (Regex.at_least 8 (Regex.Class Regex.hex_i)) true)
    (id Examples.hex_div) = true
  /\ isStableId (id Examples.hex_div) = false
  /\ generateIdSelector Examples.css_escape_plain Examples.hex_div = Ok None
  /\ (exists fbs,
        generateSelector Examples.css_escape_plain default_options
          Examples.page_hex 7%nat
        = Ok {| primary := "[id=" +:+ Js.dq +:+ "deadbeef" +:+ Js.dq +:+ "]";
                r_type := "data-attribute"; confidence := 9 # 10;
                fallbacks := fbs |})
  /\ generateSelector Examples.css_escape_plain default_options
       Examples.page_hex_xpath 7%nat
     = Ok {| primary :=
               "xpath=//div[@id=" +:+ Js.dq +:+ "deadbeef" +:+ Js.dq +:+ "]";
             r_type := "xpath"; confidence := 3 # 10; fallbacks := [] |}.
Proof.
  split; [reflexivity|]. split; [reflexivity|]. split; [reflexivity|].
  split; [eexists; reflexivity | reflexivity].
Qed.

End UnstableIds.

(** ** Exceptions of the generator *)

Section GeneratorExceptions.

Import SelectorGenerator.

Variable CSS_escape : string -> Result string.
Variable this : Options.

(** An exception of the [try] block is caught; the handler then asks the
    page for the element's index. *)
Lemma generateSelector_caught (page : Page) (h : Node) (e : string) :
  generateSelector_body CSS_escape this page h = Throw e ->
  generateSelector CSS_escape this page h
  = idx ← getElementIndex page h;
    Ok {| primary := "xpath=//body//*[position()=" +:+ Js.show_Z idx +:+ "]";
          r_type := "xpath"; confidence := 1 # 10; fallbacks := [] |}.
Proof. intros Hbody. unfold generateSelector. by rewrite Hbody. Qed.

(** When the index can be evaluated, the generator returns a result. *)
Lemma generateSelector_returns (page : Page) (h : Node) (idx : Z) :
  getElementIndex page h = Ok idx ->
  exists r, generateSelector CSS_escape this page h = Ok r.
Proof.
  intros Hidx.
  destruct (generateSelector_body CSS_escape this page h) as [r|e] eqn:Hbody.
  - exists r. unfold generateSelector. by rewrite Hbody.
  - rewrite (generateSelector_caught page h e Hbody), Hidx. eauto.
Qed.

(** The generator throws exactly when the [try] block throws and the
    evaluation inside the handler throws as well. *)
Lemma generateSelector_throws (page : Page) (h : Node) (e : string) :
  generateSelector CSS_escape this page h = Throw e
  <-> (exists e0, generateSelector_body CSS_escape this page h = Throw e0)
      /\ getElementIndex page h = Throw e.
Proof.
  unfold generateSelector, generateSelector_handler.
  destruct (generateSelector_body CSS_escape this page h) as [r|e0]; simpl.
  - split; [done | by intros [[? ?] _]].
  - destruct (getElementIndex page h) as [idx|e1]; simpl.
    + split; [done | by intros [_ ?]].
    + split; [intros [= ->]; eauto | by intros [_ [= ->]]].
Qed.

End GeneratorExceptions.

Section GeneratorExceptionClaims.

Import SelectorGenerator.

(** C4 does not hold of the code.  On a closed page, the snapshot
    evaluation throws, the handler's own evaluation of the element index
    throws again, and that exception leaves [generateSelector]. *)
Theorem exception_escapes_generateSelector :
  getElementInfo Examples.closed_page 7%nat = Throw "Target closed"
  /\ getElementIndex Examples.closed_page 7%nat = Throw "Target closed"
  /\ generateSelector Examples.css_escape_plain default_options
       Examples.closed_page 7%nat
     = Throw "Target closed".
Proof. repeat split. Qed.

(** An exception the handler can absorb: in a runtime without the [CSS]
    global the id strategy throws, and the generator returns the
    XPath-by-position fallback. *)
Example missing_CSS_global_is_caught :
  generateSelector Examples.css_escape_missing default_options
    Examples.page_shared_testid 1%nat
  = Ok {| primary := "xpath=//body//*[position()=0]"; r_type := "xpath";
          confidence := 1 # 10; fallbacks := [] |}.
Proof. reflexivity. Qed.

End GeneratorExceptionClaims.

(** ** The recording session *)

Section Session.

Import PlaywrightRecorder.

(** [startRecording] never reads [isRecording]: when no call of the
    automation library rejects, it succeeds and installs a fresh browser
    and the new test name, whatever the recorder was doing. *)
Lemma startRecording_ignores_isRecording
    (url testName0 : string) (r : Recorder) (w : World) :
  launch_rejects w = false ->
  newContext_rejects w = false ->
  newPage_rejects w = false ->
  goto_rejects w = false ->
  let '(outcome, r', w') := startRecording url testName0 r w in
  outcome = Ok true
  /\ isRecording r' = true
  /\ browser r' = Some (next_handle w)
  /\ testName r' = Some testName0
  /\ startUrl r' = Some url
  /\ live_browsers w' = live_browsers w ++ [next_handle w].
Proof.
  intros Hl Hc Hp Hg.
  unfold startRecording, launch, newContext, newPage, goto.
  rewrite Hl. simpl. rewrite Hc. simpl. rewrite Hp. simpl. rewrite Hg.
  done.
Qed.

(** C8 does not hold of the code.  A second [startRecording] on a
    recorder that is recording does not fail: it returns [true],
    launches a second browser (handle 4) next to the first (handle 1,
    still open), replaces the recorder's browser, context and page by
    the new ones, so that the recorder no longer refers to the first
    browser, and replaces the test name and the start URL of the active
    session. *)
Theorem second_startRecording_replaces_session :
  let '(outcome1, r1, w1) := RecorderExamples.first_session in
  let '(outcome2, r2, w2) := RecorderExamples.second_session in
  outcome1 = Ok true
  /\ isRecording r1 = true
  /\ browser r1 = Some 1%nat
  /\ context r1 = Some 2%nat
  /\ page r1 = Some 3%nat
  /\ testName r1 = Some "first"
  /\ startUrl r1 = Some "https://a.example/"
  /\ live_browsers w1 = [1%nat]
  /\ outcome2 = Ok true
  /\ isRecording r2 = true
  /\ browser r2 = Some 4%nat
  /\ context r2 = Some 5%nat
  /\ page r2 = Some 6%nat
  /\ testName r2 = Some "second"
  /\ startUrl r2 = Some "https://b.example/"
  /\ live_browsers w2 = [1%nat; 4%nat].
Proof. vm_compute. repeat split. Qed.

End Session.

(** * Further properties of the parser stages *)

(** ** Sequence grouping keeps every action, in order *)

Section GroupingFacts.

Import ActionParser Stages.

Lemma flatten_app (l1 l2 : list Action) :
  flatten (l1 ++ l2) = flatten l1 ++ flatten l2.
Proof. unfold flatten. by rewrite fmap_app, concat_app. Qed.

Lemma flatten_Recorded (group : list ActionRecord) :
  flatten (Recorded <$> group) = group.
Proof.
  induction group as [|r group IH]; [done|].
  unfold flatten in *. rewrite !fmap_cons. simpl. by f_equal.
Qed.

Lemma finalizeGroup_flatten (group : list ActionRecord)
    (groupType : option GroupType) :
  flatten (finalizeGroup group groupType) = group.
Proof.
  unfold finalizeGroup.
  destruct groupType as [[|]|]; try apply flatten_Recorded.
  destruct group as [|first [|second rest]]; try apply flatten_Recorded.
  unfold flatten. simpl. by rewrite app_nil_r.
Qed.

(** The invariant of the grouping loop: what was emitted, followed by
    the open group, is what was read. *)
Lemma group_step_flatten (st : GroupState) (action : ActionRecord) :
  flatten (grouped (group_step st action)) ++ currentGroup (group_step st action)
  = (flatten (grouped st) ++ currentGroup st) ++ [action].
Proof.
  assert (Hflush : forall groupType,
    flatten (if (0 <? length (currentGroup st))%nat
             then grouped st ++ finalizeGroup (currentGroup st) groupType
             else grouped st)
    = flatten (grouped st) ++ currentGroup st).
  { intros groupType. destruct (currentGroup st) as [|c cur]; simpl.
    - by rewrite app_nil_r.
    - by rewrite flatten_app, finalizeGroup_flatten. }
  unfold group_step.
  destruct ((bool_decide (type action = input)
             || bool_decide (type action = select)
             || bool_decide (type action = click))
            && isFormElement (element action)).
  - destruct (currentGroupType st) as [[|]|];
      cbn [grouped currentGroup]; rewrite ?Hflush; by rewrite ?app_assoc.
  - destruct (bool_decide (type action = navigation));
      cbn [grouped currentGroup].
    + rewrite flatten_app, Hflush. unfold flatten at 2. simpl.
      by rewrite !app_nil_r.
    + destruct (currentGroupType st) as [[|]|]; cbn [grouped currentGroup];
        rewrite ?flatten_app, ?finalizeGroup_flatten; by rewrite ?app_assoc.
Qed.

Lemma group_loop_flatten (actions : list ActionRecord) (st : GroupState) :
  flatten (grouped (foldl group_step st actions))
  ++ currentGroup (foldl group_step st actions)
  = (flatten (grouped st) ++ currentGroup st) ++ actions.
Proof.
  revert st. induction actions as [|a l IH]; intros st; simpl.
  - by rewrite app_nil_r.
  - by rewrite IH, group_step_flatten, <- app_assoc.
Qed.

Lemma group_flatten (actions : list ActionRecord) :
  flatten (groupSequentialActions actions) = actions.
Proof.
  unfold groupSequentialActions.
  pose proof (group_loop_flatten actions (mkGroupState [] [] None)) as Hloop.
  simpl in Hloop.
  destruct (currentGroup (foldl group_step _ actions)) as [|c cur] eqn:Hcur;
    simpl.
  - by rewrite app_nil_r in Hloop.
  - by rewrite flatten_app, finalizeGroup_flatten.
Qed.

End GroupingFacts.

(** ** What a form sequence contains *)

Section FormSequenceFacts.

Import ActionParser Stages.

Lemma Recorded_grouped_well (group : list ActionRecord) :
  Forall grouped_well (Recorded <$> group).
Proof. apply Forall_fmap, Forall_forall. by intros r _. Qed.

Lemma finalizeGroup_well (group : list ActionRecord)
    (groupType : option GroupType) :
  (groupType = Some form -> Forall (fun r => is_form_action r = true) group) ->
  Forall grouped_well (finalizeGroup group groupType).
Proof.
  intros Hform. unfold finalizeGroup.
  destruct groupType as [[|]|]; try apply Recorded_grouped_well.
  destruct group as [|first [|second rest]]; try apply Recorded_grouped_well.
  apply Forall_singleton. simpl. repeat split; [lia | by apply Hform].
Qed.

Lemma group_step_well (st : GroupState) (action : ActionRecord) :
  Forall grouped_well (grouped st) ->
  (currentGroupType st = Some form ->
   Forall (fun r => is_form_action r = true) (currentGroup st)) ->
  Forall grouped_well (grouped (group_step st action))
  /\ (currentGroupType (group_step st action) = Some form ->
      Forall (fun r => is_form_action r = true)
        (currentGroup (group_step st action))).
Proof.
  intros Hgr Hcur.
  pose proof (finalizeGroup_well (currentGroup st) (currentGroupType st) Hcur)
    as Hfin.
  assert (Hflush :
    Forall grouped_well
      (if (0 <? length (currentGroup st))%nat
       then grouped st ++ finalizeGroup (currentGroup st) (currentGroupType st)
       else grouped st)).
  { destruct (0 <? length (currentGroup st))%nat; [|done].
    by apply Forall_app. }
  unfold group_step. fold (is_form_action action).
  destruct (is_form_action action) eqn:Hact.
  - destruct (currentGroupType st) as [[|]|] eqn:Hty;
      cbn [grouped currentGroup currentGroupType]; split; try done.
    + intros _. apply Forall_app. split; [by apply Hcur|].
      by apply Forall_singleton.
    + intros _. by apply Forall_singleton.
    + intros _. by apply Forall_singleton.
  - destruct (bool_decide (type action = navigation));
      cbn [grouped currentGroup currentGroupType].
    + split; [|done]. apply Forall_app. split; [done|].
      by apply Forall_singleton.
    + destruct (currentGroupType st) as [[|]|] eqn:Hty;
        cbn [grouped currentGroup currentGroupType]; split; try done.
      apply Forall_app. split; [done|]. by apply Hfin.
Qed.

Lemma group_loop_well (actions : list ActionRecord) (st : GroupState) :
  Forall grouped_well (grouped st) ->
  (currentGroupType st = Some form ->
   Forall (fun r => is_form_action r = true) (currentGroup st)) ->
  Forall grouped_well (grouped (foldl group_step st actions))
  /\ (currentGroupType (foldl group_step st actions) = Some form ->
      Forall (fun r => is_form_action r = true)
        (currentGroup (foldl group_step st actions))).
Proof.
  revert st. induction actions as [|a l IH]; intros st Hgr Hcur; simpl.
  - done.
  - destruct (group_step_well st a Hgr Hcur) as [Hgr' Hcur']. by apply IH.
Qed.

Lemma group_well (actions : list ActionRecord) :
  Forall grouped_well (groupSequentialActions actions).
Proof.
  unfold groupSequentialActions.
  destruct (group_loop_well actions (mkGroupState [] [] None)) as [Hgr Hcur];
    [done..|].
  destruct (0 <? length _)%nat; [|done].
  apply Forall_app. split; [done|]. by apply finalizeGroup_well.
Qed.

(** Grouping never lengthens the sequence, and keeps it non-empty. *)
Lemma group_length (actions : list ActionRecord) :
  (length (groupSequentialActions actions) <= length actions)%nat
  /\ (actions <> [] -> groupSequentialActions actions <> []).
Proof.
  pose proof (group_flatten actions) as Hflat.
  pose proof (group_well actions) as Hwell.
  split.
  - rewrite <- Hflat at 2. clear Hflat.
    induction Hwell as [|a l Ha _ IH]; [done|].
    unfold flatten. rewrite fmap_cons. simpl. rewrite length_app.
    fold (flatten l). destruct a as [r|sub t d]; simpl.
    + lia.
    + destruct Ha as [Hlen _]. lia.
  - intros Hne Hnil. rewrite Hnil in Hflat. by symmetry in Hflat.
Qed.

Lemma is_form_action_kind (r : ActionRecord) :
  is_form_action r = true ->
  type r = input \/ type r = select \/ type r = click.
Proof.
  unfold is_form_action. intros H. apply andb_prop in H as [H _].
  repeat (apply orb_prop in H as [H|H]);
    apply bool_decide_eq_true_1 in H; auto.
Qed.

(** X1.  [groupSequentialActions] neither drops, duplicates nor reorders
    actions: replacing every [form_sequence] of its output by the
    sub-actions it folds gives back the input.  Hence the output is no
    longer than the input, and not empty unless the input is. *)
Theorem groupSequentialActions_keeps_actions (actions : list ActionRecord) :
  flatten (groupSequentialActions actions) = actions
  /\ (length (groupSequentialActions actions) <= length actions)%nat
  /\ (actions <> [] -> groupSequentialActions actions <> []).
Proof.
  split; [apply group_flatten|]. apply group_length.
Qed.

(** X2.  Every [form_sequence] that [groupSequentialActions] builds folds
    at least two actions, each an input, select or click on a form
    element, so never a navigation; it carries the timestamp of its first
    sub-action and the description generated from its sub-actions. *)
Theorem groupSequentialActions_form_sequences
    (actions sub : list ActionRecord) (t : Z) (d : string) :
  FormSequence sub t d ∈ groupSequentialActions actions ->
  (2 <= length sub)%nat
  /\ Forall (fun r => isFormElement (element r) = true
                      /\ (type r = input \/ type r = select \/ type r = click))
       sub
  /\ head (timestamp <$> sub) = Some t
  /\ d = generateFormDescription sub.
Proof.
  intros Hin.
  pose proof (group_well actions) as Hwell.
  rewrite Forall_forall in Hwell. specialize (Hwell _ Hin).
  destruct Hwell as (Hlen & Hform & Hts & Hd).
  repeat split; try done.
  eapply Forall_impl; [exact Hform|].
  intros r Hr. split; [|by apply is_form_action_kind].
  unfold is_form_action in Hr. by apply andb_prop in Hr as [_ Hr].
Qed.

(** The login recording: the two fields and the submit click are folded
    into one form sequence. *)
Lemma groupSequentialActions_form_sequences_witness :
  StageExamples.login_form
    ∈ groupSequentialActions StageExamples.login_recording
  /\ (2 <= length [StageExamples.enter_user; StageExamples.enter_pass;
                   StageExamples.click_submit])%nat
  /\ head (timestamp <$> [StageExamples.enter_user; StageExamples.enter_pass;
                          StageExamples.click_submit]) = Some 1000.
Proof.
  assert (Hin : StageExamples.login_form
                  ∈ groupSequentialActions StageExamples.login_recording).
  { apply list_elem_of_further, list_elem_of_here. }
  split; [exact Hin|].
  destruct (groupSequentialActions_form_sequences
              StageExamples.login_recording _ _ _ Hin) as (H1 & _ & H3 & _).
  split; [exact H1 | exact H3].
Defined.

End FormSequenceFacts.

(** ** Form filling reorders, and only reorders *)

Section FormFillingFacts.

Import ActionParser Stages.

Lemma foldl_app_pieces {A B : Type} (f : A -> list B) (acc : list B)
    (l : list A) :
  foldl (fun acc x => acc ++ f x) acc l = acc ++ concat (f <$> l).
Proof.
  revert acc. induction l as [|x l IH]; intros acc; simpl.
  - by rewrite app_nil_r.
  - by rewrite IH, app_assoc.
Qed.

Lemma sort_insert_perm (a : ActionRecord) (sorted : list ActionRecord) :
  sort_insert a sorted ≡ₚ a :: sorted.
Proof.
  induction sorted as [|b rest IH]; simpl; [done|].
  destruct (order (type a) - order (type b) <=? 0)%Z; [done|].
  by rewrite IH, Permutation_swap.
Qed.

Lemma optimizeFormGroup_perm (actions : list ActionRecord) (container : string) :
  optimizeFormGroup actions container ≡ₚ actions.
Proof.
  unfold optimizeFormGroup.
  induction actions as [|a l IH]; simpl; [done|].
  by rewrite sort_insert_perm, IH.
Qed.

Lemma formGroups_push_perm (k : string) (a : ActionRecord)
    (groups : list (string * list ActionRecord)) :
  concat (snd <$> formGroups_push k a groups) ≡ₚ a :: concat (snd <$> groups).
Proof.
  induction groups as [|[k' g] groups IH]; simpl; [done|].
  destruct (bool_decide (k' = k)); simpl.
  - rewrite <- app_assoc. simpl.
    by rewrite <- Permutation_middle.
  - rewrite IH. by rewrite <- Permutation_middle.
Qed.

Lemma formGroups_loop_perm (l : list ActionRecord)
    (groups : list (string * list ActionRecord)) :
  concat (snd <$> foldl (fun groups action =>
                           formGroups_push (identifyFormContainer action)
                             action groups) groups l)
  ≡ₚ concat (snd <$> groups) ++ l.
Proof.
  revert groups. induction l as [|a l IH]; intros groups; simpl.
  - by rewrite app_nil_r.
  - rewrite IH, formGroups_push_perm. by rewrite <- Permutation_middle.
Qed.

Lemma optimizeFormSequence_perm (formActions : list ActionRecord) :
  optimizeFormSequence formActions ≡ₚ formActions.
Proof.
  unfold optimizeFormSequence. rewrite foldl_app_pieces. simpl.
  etransitivity; [|apply (formGroups_loop_perm formActions [])].
  generalize (foldl (fun groups action =>
                       formGroups_push (identifyFormContainer action)
                         action groups) [] formActions).
  intros groups. induction groups as [|[k g] groups IH]; simpl; [done|].
  by rewrite optimizeFormGroup_perm, IH.
Qed.

(** X3.  Form filling only reorders: the sub-actions of an optimized form
    sequence are a permutation of the original ones, and the stage keeps
    the length of the sequence and, up to order inside form sequences,
    every recorded action. *)
Theorem optimizeFormFilling_permutes (actions : list Action) :
  (forall formActions : list ActionRecord,
     optimizeFormSequence formActions ≡ₚ formActions)
  /\ length (optimizeFormFilling actions) = length actions
  /\ flatten (optimizeFormFilling actions) ≡ₚ flatten actions.
Proof.
  split; [apply optimizeFormSequence_perm|]. split.
  - unfold optimizeFormFilling. apply length_fmap.
  - unfold flatten, optimizeFormFilling.
    induction actions as [|a l IH]; [done|].
    rewrite !fmap_cons. simpl. rewrite IH.
    destruct a as [r|sub t d]; simpl; [done|].
    by rewrite optimizeFormSequence_perm.
Qed.

(** With one container, the map of groups is that one group. *)
Lemma formGroups_single (c : string) (l g : list ActionRecord) :
  Forall (fun r => identifyFormContainer r = c) l ->
  foldl (fun groups action =>
           formGroups_push (identifyFormContainer action) action groups)
        [(c, g)] l
  = [(c, g ++ l)].
Proof.
  intros Hall. revert g. induction Hall as [|a l Ha _ IH]; intros g; simpl.
  - by rewrite app_nil_r.
  - rewrite Ha, bool_decide_eq_true_2 by done.
    by rewrite IH, <- app_assoc.
Qed.

Lemma sort_insert_front (a : ActionRecord) (l : list ActionRecord) :
  Forall (fun b => (order (type a) <= order (type b))%Z) l ->
  sort_insert a l = a :: l.
Proof.
  intros [|b rest Hb _]; simpl; [done|].
  destruct (Z.leb_spec (order (type a) - order (type b)) 0); [done | lia].
Qed.

Lemma sort_insert_skip (a : ActionRecord) (l1 l2 : list ActionRecord) :
  Forall (fun b => (order (type b) < order (type a))%Z) l1 ->
  sort_insert a (l1 ++ l2) = l1 ++ sort_insert a l2.
Proof.
  induction 1 as [|b rest Hb _ IH]; simpl; [done|].
  destruct (Z.leb_spec (order (type a) - order (type b)) 0); [lia|].
  by rewrite IH.
Qed.

Lemma of_order_Forall (k : Z) (l : list ActionRecord) :
  Forall (fun r => order (type r) = k) (of_order k l).
Proof.
  apply Forall_forall. intros r Hr.
  by apply list_elem_of_filter in Hr as [Hr _].
Qed.

Lemma order_values (k : ActionKind) : order k = 0 \/ order k = 1 \/ order k = 3.
Proof. destruct k; simpl; auto. Qed.

(** The stable sort by [order]: the actions of order 0 (inputs), then the
    selects, then the clicks, each in their original order. *)
Lemma optimizeFormGroup_by_order (actions : list ActionRecord) (c : string) :
  optimizeFormGroup actions c
  = of_order 0 actions ++ of_order 1 actions ++ of_order 3 actions.
Proof.
  unfold optimizeFormGroup.
  induction actions as [|a l IH]; [done|].
  change (foldr sort_insert [] (a :: l))
    with (sort_insert a (foldr sort_insert [] l)).
  rewrite IH. unfold of_order. rewrite !filter_cons.
  pose proof (of_order_Forall 0 l) as H0.
  pose proof (of_order_Forall 1 l) as H1.
  pose proof (of_order_Forall 3 l) as H3.
  unfold of_order in H0, H1, H3.
  destruct (order_values (type a)) as [Ha | [Ha | Ha]];
    repeat case_decide; try lia.
  - apply sort_insert_front. rewrite !Forall_app. repeat split;
      (eapply Forall_impl; [eassumption|]); simpl; intros; lia.
  - rewrite sort_insert_skip
      by (eapply Forall_impl; [exact H0|]; simpl; intros; lia).
    f_equal. apply sort_insert_front. rewrite !Forall_app. split;
      (eapply Forall_impl; [eassumption|]); simpl; intros; lia.
  - rewrite app_assoc.
    rewrite sort_insert_skip.
    + rewrite <- app_assoc. do 2 f_equal. apply sort_insert_front.
      eapply Forall_impl; [exact H3|]. simpl. intros. lia.
    + rewrite Forall_app. split;
        (eapply Forall_impl; [eassumption|]); simpl; intros; lia.
Qed.

(** X4.  When all sub-actions of a form sequence belong to one form
    container, the optimized sequence is: the inputs (and any action of
    order 0), then the selects, then the clicks, each group in its
    recorded order; so every input comes before every click. *)
Theorem optimizeFormSequence_single_container
    (formActions : list ActionRecord) (c : string) :
  Forall (fun r => identifyFormContainer r = c) formActions ->
  optimizeFormSequence formActions
  = of_order 0 formActions ++ of_order 1 formActions ++ of_order 3 formActions.
Proof.
  intros Hall. unfold optimizeFormSequence.
  destruct Hall as [|a l Ha Hl]; [done|].
  simpl. rewrite Ha.
  rewrite (formGroups_single c l [a] Hl). simpl.
  exact (optimizeFormGroup_by_order (a :: l) c).
Qed.

(** The submit click recorded before the two fields of the login form is
    moved behind them. *)
Lemma optimizeFormSequence_single_container_witness :
  Forall (fun r => identifyFormContainer r = "login") StageExamples.click_first
  /\ optimizeFormSequence StageExamples.click_first
     = [StageExamples.enter_user; StageExamples.enter_pass;
        StageExamples.click_submit].
Proof.
  assert (Hall : Forall (fun r => identifyFormContainer r = "login")
                   StageExamples.click_first).
  { repeat constructor. }
  split; [exact Hall|].
  by rewrite (optimizeFormSequence_single_container _ "login" Hall).
Defined.

End FormFillingFacts.

(** ** What the other stages keep *)

Section StageBounds.

Import ActionParser Chunks Stages.

Lemma redundant_kind (a : ActionRecord) (next : option ActionRecord) :
  redundant a next = true -> never_redundant a = false.
Proof.
  unfold redundant, never_redundant. destruct next as [next|]; [|done].
  destruct (type a); simpl; try done; by rewrite ?andb_false_r.
Qed.

Lemma removeRedundantActions_last (l : list ActionRecord) :
  last (removeRedundantActions l) = last l.
Proof.
  destruct (decide (l = [])) as [-> | Hne]; [done|].
  destruct (exists_last Hne) as (pre & x & ->).
  destruct (removeRedundantActions_prefix pre [] x) as (kept & Hk & _).
  by rewrite Hk, !last_snoc.
Qed.

Lemma removeRedundantActions_nonempty (l : list ActionRecord) :
  l <> [] -> removeRedundantActions l <> [].
Proof.
  intros Hne Hnil. pose proof (removeRedundantActions_last l) as Hlast.
  rewrite Hnil in Hlast. symmetry in Hlast. by apply last_None in Hlast.
Qed.

(** X9.  Redundancy elimination removes only clicks, inputs and hovers:
    the records of every other kind (navigation, select, keypress,
    submit, api_call, wait) all survive, in order.  The last record of
    the list always survives, whatever its kind. *)
Theorem removeRedundantActions_keeps (actions : list ActionRecord) :
  filter (fun r => never_redundant r = true) (removeRedundantActions actions)
  = filter (fun r => never_redundant r = true) actions
  /\ last (removeRedundantActions actions) = last actions.
Proof.
  split; [|apply removeRedundantActions_last].
  induction actions as [|a l IH]; [done|].
  rewrite removeRedundantActions_cons, filter_app, IH, filter_cons.
  unfold removeRedundant_chunk.
  destruct (redundant a (head l)) eqn:Hred.
  - apply redundant_kind in Hred. rewrite Hred. by case_decide.
  - rewrite filter_cons. by case_decide.
Qed.

Lemma addWait_chunk_shape (this : Options) (a : Action) (l : list Action) :
  addWait_chunk this (a :: l) = [a]
  \/ (l <> [] /\ exists w, addWait_chunk this (a :: l) = [a; Recorded w]).
Proof.
  unfold addWait_chunk. destruct l as [|b l]; [by left|].
  destruct (determineWaitStrategy this a (head (b :: l))); eauto.
Qed.

Lemma addWaitStrategies_sublist (this : Options) (actions : list Action) :
  actions `sublist_of` addWaitStrategies this actions.
Proof.
  induction actions as [|a l IH]; [done|].
  rewrite addWaitStrategies_cons.
  destruct (addWait_chunk_shape this a l) as [-> | (_ & w & ->)]; simpl.
  - by apply sublist_skip.
  - by apply sublist_skip, sublist_cons.
Qed.

Lemma addWaitStrategies_length (this : Options) (actions : list Action) :
  (length actions <= length (addWaitStrategies this actions)
   <= 2 * length actions - 1)%nat.
Proof.
  split; [apply sublist_length, addWaitStrategies_sublist|].
  induction actions as [|a l IH]; [done|].
  rewrite addWaitStrategies_cons, length_app.
  destruct (addWait_chunk_shape this a l) as [-> | (Hne & w & ->)]; simpl.
  - lia.
  - destruct l; [done|]. simpl in *. lia.
Qed.

(** X5.  Wait insertion only inserts: the input is a subsequence of the
    output, the output of [n] actions has at most [2n - 1] entries, and
    it ends with the last input action (no wait is ever appended at the
    end). *)
Theorem addWaitStrategies_only_inserts (this : Options) (actions : list Action) :
  actions `sublist_of` addWaitStrategies this actions
  /\ (length (addWaitStrategies this actions) <= 2 * length actions - 1)%nat
  /\ last (addWaitStrategies this actions) = last actions.
Proof.
  split; [apply addWaitStrategies_sublist|].
  split; [apply addWaitStrategies_length|].
  destruct (decide (actions = [])) as [-> | Hne]; [done|].
  destruct (exists_last Hne) as (pre & x & ->).
  destruct (addWaitStrategies_prefix this pre [] x) as (kept & Hk & _).
  by rewrite Hk, !last_snoc.
Qed.

Lemma no_wait_strategy (this : Options) (a : Action) (next : option Action) :
  may_get_wait a = false -> determineWaitStrategy this a next = None.
Proof.
  unfold may_get_wait, determineWaitStrategy.
  intros H. apply orb_false_elim in H as [H Hapi].
  apply orb_false_elim in H as [Hnav Hclick].
  destruct next; [|done]. by rewrite Hnav, Hclick, Hapi.
Qed.

(** X6.  A synthetic wait is inserted only after a navigation, a click or
    an api_call.  After any other action, and in particular after a
    [form_sequence] (also one that ends in a submit click), the output
    goes on directly with what the stage makes of the following
    actions. *)
Theorem addWaitStrategies_no_wait_after
    (this : Options) (pre rest : list Action) (a : Action) :
  may_get_wait a = false ->
  exists kept : list Action,
    addWaitStrategies this (pre ++ [a]) = kept ++ [a]
    /\ addWaitStrategies this (pre ++ a :: rest)
       = kept ++ a :: addWaitStrategies this rest.
Proof.
  intros Hkind.
  destruct (addWaitStrategies_prefix this pre rest a) as (kept & H1 & H2).
  exists kept. split; [done|].
  rewrite H2, addWaitStrategies_cons. unfold addWait_chunk.
  by rewrite no_wait_strategy.
Qed.

(** The login form followed, two seconds later, by a click: no wait
    between them. *)
Lemma addWaitStrategies_no_wait_after_witness :
  may_get_wait StageExamples.login_form = false
  /\ addWaitStrategies default_options
       [StageExamples.login_form;
        Recorded (ParserExamples.on_selector click 5000 "#next")]
     = [StageExamples.login_form;
        Recorded (ParserExamples.on_selector click 5000 "#next")].
Proof.
  split; [reflexivity|].
  destruct (addWaitStrategies_no_wait_after default_options []
              [Recorded (ParserExamples.on_selector click 5000 "#next")]
              StageExamples.login_form eq_refl) as (kept & H1 & H2).
  simpl in H1, H2. rewrite addWaitStrategies_single in H1.
  destruct kept as [|k kept]; [|destruct kept; discriminate H1].
  by rewrite H2, addWaitStrategies_single.
Defined.

Lemma extractExpectedElements_length (actions : list Action) :
  (length (extractExpectedElements (take 3 actions)) <= 3)%nat.
Proof.
  unfold extractExpectedElements. rewrite length_fmap.
  etransitivity; [apply length_filter|].
  rewrite length_take. lia.
Qed.

Lemma optimizeNavigation_looked_ahead (actions : list Action) :
  Forall2 looked_ahead actions (optimizeNavigation actions).
Proof.
  induction actions as [|a l IH].
  - rewrite optimizeNavigation_nil. constructor.
  - rewrite optimizeNavigation_cons. unfold optimizeNavigation_chunk.
    destruct a as [r|sub t d]; simpl.
    + destruct (bool_decide (type r = navigation)) eqn:Hnav; simpl;
        constructor; try done; unfold looked_ahead; rewrite Hnav; [|done].
      eexists. split; [apply extractExpectedElements_length | reflexivity].
    + by constructor.
Qed.

(** X7.  Navigation look-ahead changes nothing but the navigation
    records: the output has the length of the input, every action that is
    not a navigation is passed through unchanged, and a navigation is
    passed through with at most three expected elements attached and all
    its other fields as they were. *)
Theorem optimizeNavigation_annotates (actions : list Action) :
  Forall2 looked_ahead actions (optimizeNavigation actions)
  /\ length (optimizeNavigation actions) = length actions
  /\ action_type <$> optimizeNavigation actions = action_type <$> actions.
Proof.
  pose proof (optimizeNavigation_looked_ahead actions) as Hall.
  split; [done|]. split.
  - symmetry. by eapply Forall2_length.
  - induction Hall as [|a b l l' Hab _ IH]; [done|].
    rewrite !fmap_cons, IH. f_equal.
    destruct a as [r|sub t d]; simpl in Hab; [|by subst].
    destruct (bool_decide (type r = navigation)); [|by subst].
    by destruct Hab as (expected & _ & ->).
Qed.

(** X8.  A recording of [n >= 1] actions yields at least one and at most
    [2n - 1] Test Steps. *)
Theorem optimizeActions_length_bounds
    (this : Options) (first : ActionRecord) (rest : list ActionRecord) :
  (1 <= length (optimizeActions this (ArrayOf (first :: rest)))
   <= 2 * length (first :: rest) - 1)%nat.
Proof.
  unfold optimizeActions. set (input := first :: rest).
  rewrite convertToTestSteps_length.
  rewrite <- (Forall2_length _ _ _ (optimizeNavigation_looked_ahead _)).
  unfold optimizeFormFilling. rewrite length_fmap.
  pose proof (addWaitStrategies_length this
                (groupSequentialActions (removeRedundantActions input)))
    as [Hlo Hhi].
  destruct (group_length (removeRedundantActions input)) as [Hgl Hgne].
  pose proof (sublist_length _ _ (removeRedundantActions_sublist input)) as Hrl.
  assert (Hne : removeRedundantActions input <> [])
    by (by apply removeRedundantActions_nonempty).
  specialize (Hgne Hne).
  destruct (groupSequentialActions (removeRedundantActions input)) eqn:Hg;
    [done|].
  simpl in *. lia.
Qed.

End StageBounds.

(** ** Degenerate arguments and the numbering of the steps *)

Section TestStepNumbering.

Import ActionParser Chunks Stages.

(** The five stages leave at least one action of a recording that is
    not empty. *)
Lemma optimized_nonempty (this : Options) (first : ActionRecord)
    (rest : list ActionRecord) :
  (1 <= length (optimizeNavigation
                  (optimizeFormFilling
                     (addWaitStrategies this
                        (groupSequentialActions
                           (removeRedundantActions (first :: rest)))))))%nat.
Proof.
  set (input := first :: rest).
  rewrite <- (Forall2_length _ _ _ (optimizeNavigation_looked_ahead _)).
  unfold optimizeFormFilling. rewrite length_fmap.
  pose proof (addWaitStrategies_length this
                (groupSequentialActions (removeRedundantActions input)))
    as [Hlo _].
  destruct (group_length (removeRedundantActions input)) as [_ Hgne].
  assert (Hne : removeRedundantActions input <> [])
    by (by apply removeRedundantActions_nonempty).
  specialize (Hgne Hne).
  destruct (groupSequentialActions (removeRedundantActions input)) eqn:Hg;
    [done|].
  simpl in *. lia.
Qed.

(** C10.  [optimizeActions] returns the empty list of Test Steps for an
    argument that is not an array and for the empty array.  For a
    recording that is not empty it returns one Test Step for each
    action that the five stages leave, at least one, and these steps
    are numbered 1, 2, 3, ... in order: the step at index [i] has id
    [i + 1], and the first step has id 1. *)
Theorem optimizeActions_degenerate_and_numbering (this : Options) :
  optimizeActions this Undefined = []
  /\ optimizeActions this Null = []
  /\ (forall repr : string, optimizeActions this (NotArray repr) = [])
  /\ optimizeActions this (ArrayOf []) = []
  /\ (forall recordedActions : Argument,
        ts_id <$> optimizeActions this recordedActions
        = seq 1 (length (optimizeActions this recordedActions)))
  /\ (forall (first : ActionRecord) (rest : list ActionRecord),
        let optimizedActions :=
          optimizeNavigation
            (optimizeFormFilling
               (addWaitStrategies this
                  (groupSequentialActions
                     (removeRedundantActions (first :: rest))))) in
        let steps := optimizeActions this (ArrayOf (first :: rest)) in
        (1 <= length optimizedActions)%nat
        /\ length steps = length optimizedActions
        /\ ts_id <$> steps = seq 1 (length optimizedActions)
        /\ ts_id <$> head steps = Some 1%nat
        /\ forall (i : nat) (step : TestStep),
             steps !! i = Some step -> ts_id step = S i).
Proof.
  split; [done|]. split; [done|]. split; [done|]. split; [done|].
  split.
  { intros [ | | repr | [|first rest]]; try done.
    unfold optimizeActions.
    by rewrite convertToTestSteps_ids, convertToTestSteps_length. }
  intros first rest optimizedActions steps.
  pose proof (optimized_nonempty this first rest) as Hne.
  fold optimizedActions in Hne.
  assert (Hsteps : steps = convertToTestSteps optimizedActions) by done.
  assert (Hids : ts_id <$> steps = seq 1 (length optimizedActions)).
  { rewrite Hsteps. apply convertToTestSteps_ids. }
  split; [done|].
  split; [rewrite Hsteps; apply convertToTestSteps_length|].
  split; [done|]. split.
  - destruct steps as [|step0 others].
    + destruct optimizedActions; [simpl in Hne; lia | done].
    + destruct optimizedActions; [done|]. simpl in Hids.
      injection Hids as Hid _. simpl. by rewrite Hid.
  - intros i step Hi.
    assert (Hlookup : (ts_id <$> steps) !! i = Some (ts_id step)).
    { by rewrite list_lookup_fmap, Hi. }
    rewrite Hids in Hlookup. apply lookup_seq in Hlookup as [-> _]. lia.
Qed.

End TestStepNumbering.

(** * Properties of the page-object methods *)

Section MethodGroups.

Import ActionParser PageObjectMethods.

Lemma groups_push_keys (k : string) (a : Action)
    (groups : list (string * list Action)) :
  fst <$> groups_push k a groups
  = if bool_decide (k ∈ fst <$> groups) then fst <$> groups
    else (fst <$> groups) ++ [k].
Proof.
  induction groups as [|[k' g] groups IH]; csimpl; [done|].
  destruct (decide (k' = k)) as [-> | Hne].
  - rewrite !bool_decide_eq_true_2; [done | | done]. apply list_elem_of_here.
  - rewrite (bool_decide_eq_false_2 (k' = k)) by done. csimpl. rewrite IH.
    destruct (decide (k ∈ fst <$> groups)) as [Hin | Hnin].
    + rewrite !bool_decide_eq_true_2; [done | | done].
      by apply list_elem_of_further.
    + rewrite !bool_decide_eq_false_2; [done | | done].
      intros [->|Hin]%elem_of_cons; done.
Qed.

Lemma groups_push_NoDup (k : string) (a : Action)
    (groups : list (string * list Action)) :
  NoDup (fst <$> groups) -> NoDup (fst <$> groups_push k a groups).
Proof.
  intros Hnd. rewrite groups_push_keys. case_bool_decide; [done|].
  apply NoDup_app. repeat split; [done | | apply NoDup_singleton].
  intros x Hx ->%list_elem_of_singleton. done.
Qed.

Lemma groups_push_sizes (k : string) (a : Action)
    (groups : list (string * list Action)) :
  sum_list ((fun e => length (snd e)) <$> groups_push k a groups)
  = S (sum_list ((fun e => length (snd e)) <$> groups)).
Proof.
  induction groups as [|[k' g] groups IH]; csimpl; [done|].
  destruct (bool_decide (k' = k)); csimpl.
  - rewrite length_app. csimpl. lia.
  - rewrite IH. lia.
Qed.

Lemma groups_push_nonempty (k : string) (a : Action)
    (groups : list (string * list Action)) :
  Forall (fun e => (1 <= length (snd e))%nat) groups ->
  Forall (fun e => (1 <= length (snd e))%nat) (groups_push k a groups).
Proof.
  induction 1 as [|[k' g] groups Hg Hrest IH]; csimpl.
  - apply Forall_singleton. csimpl. lia.
  - destruct (bool_decide (k' = k)); constructor; try done.
    cbn [snd]. rewrite length_app. simpl. lia.
Qed.

Variable URL_pathname : option string -> Result string.

(** The invariant of the grouping loop: distinct keys, non-empty groups,
    one slot per action read. *)
Lemma groupActionsByFunction_loop_inv (actions : list Action)
    (groups groups' : list (string * list Action)) :
  groupActionsByFunction_loop URL_pathname actions groups = Ok groups' ->
  NoDup (fst <$> groups) ->
  Forall (fun e => (1 <= length (snd e))%nat) groups ->
  NoDup (fst <$> groups')
  /\ Forall (fun e => (1 <= length (snd e))%nat) groups'
  /\ sum_list ((fun e => length (snd e)) <$> groups')
     = (sum_list ((fun e => length (snd e)) <$> groups) + length actions)%nat.
Proof.
  revert groups. induction actions as [|a l IH]; intros groups; csimpl.
  - intros [= <-] Hnd Hne. repeat split; [done..|lia].
  - destruct (inferFunctionName URL_pathname a) as [k|e]; csimpl; [|done].
    intros Hloop Hnd Hne.
    destruct (IH _ Hloop (groups_push_NoDup k a groups Hnd)
                (groups_push_nonempty k a groups Hne)) as (H1 & H2 & H3).
    repeat split; [done..|]. rewrite H3, groups_push_sizes. lia.
Qed.

(** With distinct keys, the loop of [generateMethods] makes one method
    per entry of the map. *)
Lemma method_loop (entries : list (string * list Action))
    (methods : list Method) (processed : gset string) :
  NoDup (fst <$> entries) ->
  (forall k, k ∈ fst <$> entries -> k ∉ processed) ->
  fst (foldl method_step (methods, processed) entries)
  = methods
    ++ ((fun e => createPageObjectMethod (fst e) (snd e)) <$> entries).
Proof.
  revert methods processed.
  induction entries as [|[k g] entries IH]; intros methods processed Hnd Hfresh;
    csimpl.
  - by rewrite app_nil_r.
  - apply NoDup_cons in Hnd as [Hk Hnd].
    unfold method_step at 2. csimpl.
    rewrite bool_decide_eq_false_2
      by (apply Hfresh; rewrite fmap_cons; apply list_elem_of_here).
    rewrite IH, <- app_assoc; [done | done |].
    intros k' Hk'. apply not_elem_of_union. split.
    + intros ->%elem_of_singleton. done.
    + apply Hfresh. rewrite fmap_cons. by apply list_elem_of_further.
Qed.

Lemma generateMethods_of_groups (actions : list Action) (methods : list Method) :
  generateMethods URL_pathname actions = Ok methods ->
  exists groups,
    groupActionsByFunction URL_pathname actions = Ok groups
    /\ methods = (fun e => createPageObjectMethod (fst e) (snd e)) <$> groups
    /\ NoDup (fst <$> groups)
    /\ Forall (fun e => (1 <= length (snd e))%nat) groups
    /\ sum_list ((fun e => length (snd e)) <$> groups) = length actions.
Proof.
  unfold generateMethods.
  destruct (groupActionsByFunction URL_pathname actions) as [groups|e] eqn:Hg;
    csimpl; [|done].
  intros [= <-]. exists groups.
  destruct (groupActionsByFunction_loop_inv actions [] groups Hg)
    as (Hnd & Hne & Hsum); [constructor..|].
  repeat split; try done.
  rewrite method_loop; [done | done |]. intros k _. apply not_elem_of_empty.
Qed.

End MethodGroups.

Section MethodClaims.

Import ActionParser PageObjectMethods.

(** X10.  When [generateMethods] returns, the methods have pairwise
    distinct names, every method stands for at least one action, the
    action counts of the methods add up to the number of actions given,
    and every method is marked async. *)
Theorem generateMethods_partitions
    (URL_pathname : option string -> Result string)
    (actions : list Action) (methods : list Method) :
  generateMethods URL_pathname actions = Ok methods ->
  NoDup (m_name <$> methods)
  /\ sum_list (m_actions <$> methods) = length actions
  /\ Forall (fun m => (1 <= m_actions m)%nat /\ m_isAsync m = true) methods
  /\ (length methods <= length actions)%nat.
Proof.
  intros Hgen.
  destruct (generateMethods_of_groups URL_pathname actions methods Hgen)
    as (groups & _ & -> & Hnd & Hne & Hsum).
  assert (Hcount : sum_list (m_actions
                      <$> ((fun e => createPageObjectMethod (fst e) (snd e))
                           <$> groups)) = length actions).
  { rewrite <- Hsum, <- list_fmap_compose. done. }
  split; [|split; [|split]].
  - by rewrite <- list_fmap_compose.
  - done.
  - apply Forall_fmap. eapply Forall_impl; [exact Hne|]. by intros e He.
  - rewrite length_fmap, <- Hsum. clear -Hne.
    induction Hne as [|e groups He _ IH]; csimpl; lia.
Qed.

(** The login recording gives three methods for its four actions. *)
Lemma generateMethods_partitions_witness :
  exists methods,
    generateMethods example_pathname MethodExamples.login_actions = Ok methods
    /\ m_name <$> methods = ["navigateToLogin"; "enterField"; "submitForm"]
    /\ NoDup (m_name <$> methods)
    /\ sum_list (m_actions <$> methods) = 4%nat.
Proof.
  eexists. split; [reflexivity|]. split; [reflexivity|].
  split;
    apply (generateMethods_partitions example_pathname
             MethodExamples.login_actions _ eq_refl).
Defined.

End MethodClaims.

Section MethodParameters.

Import Js ActionParser PageObjectMethods MethodVocabulary.





End MethodParameters.

Section MethodErrors.

Import Js ActionParser PageObjectMethods MethodVocabulary.

Variable URL_pathname : option string -> Result string.

Lemma inferFunctionName_returns (a : Action) :
  (exists k, inferFunctionName URL_pathname a = Ok k)
  <-> url_parses URL_pathname a.
Proof.
  destruct a as [r|sub t d]; unfold inferFunctionName, url_parses;
    [|split; eauto].
  destruct (bool_decide (type r = navigation)) eqn:Hnav.
  - apply bool_decide_eq_true_1 in Hnav. split.
    + intros [k Hk] _. destruct (URL_pathname (url r)); [eauto | done].
    + intros Hp. destruct (Hp Hnav) as [p ->]. simpl. eauto.
  - apply bool_decide_eq_false_1 in Hnav. split; [done|]. intros _.
    destruct (element r) as [e|]; [|eauto].
    destruct (bool_decide (type r = click)); [|eauto].
    destruct (isSubmitButton (Some e)); [eauto|].
    destruct (truthy (textContent e)); eauto.
Qed.

Lemma groupActionsByFunction_loop_returns (actions : list Action)
    (groups : list (string * list Action)) :
  (exists groups',
     groupActionsByFunction_loop URL_pathname actions groups = Ok groups')
  <-> Forall (url_parses URL_pathname) actions.
Proof.
  revert groups. induction actions as [|a l IH]; intros groups; simpl.
  - split; [constructor | eauto].
  - rewrite Forall_cons, <- inferFunctionName_returns.
    destruct (inferFunctionName URL_pathname a) as [k|e]; simpl.
    + rewrite IH. split; [eauto | tauto].
    + split; [by intros [? ?] | by intros [[? ?] _]].
Qed.

(** X12.  [generateMethods] returns normally exactly when the URL of
    every navigation action can be parsed by the runtime's URL parser;
    otherwise the parser's exception leaves it and no method is
    produced. *)
Theorem generateMethods_returns_iff (actions : list Action) :
  (exists methods, generateMethods URL_pathname actions = Ok methods)
  <-> Forall (url_parses URL_pathname) actions.
Proof.
  rewrite <- (groupActionsByFunction_loop_returns actions []).
  unfold generateMethods, groupActionsByFunction.
  destruct (groupActionsByFunction_loop URL_pathname actions []) as [g|e];
    simpl.
  - split; eauto.
  - split; by intros [? ?].
Qed.

End MethodErrors.

Section MethodErrorExamples.

Import ActionParser PageObjectMethods MethodVocabulary.

(** A navigation to the relative URL [/login] makes [generateMethods]
    throw; with the absolute URL it returns. *)
Lemma generateMethods_returns_iff_witness :
  Forall (url_parses example_pathname) MethodExamples.login_actions
  /\ (exists methods,
        generateMethods example_pathname MethodExamples.login_actions
        = Ok methods)
  /\ generateMethods example_pathname [Recorded ParserExamples.nav_login]
     = Throw "Invalid URL".
Proof.
  assert (Hall : Forall (url_parses example_pathname)
                   MethodExamples.login_actions).
  { unfold MethodExamples.login_actions. cbn [fmap list_fmap].
    repeat (apply Forall_cons; split); [..|apply Forall_nil_2];
      unfold url_parses; cbn;
      first [ by intros [=] | intros _; by eexists ]. }
  split; [exact Hall|]. split; [|reflexivity].
  by apply (generateMethods_returns_iff example_pathname).
Defined.

End MethodErrorExamples.

Section MethodNames.

Import Js ActionParser PageObjectMethods Strings.

Lemma string_forall_app (p : ascii -> bool) (s1 s2 : string) :
  string_forall p (s1 +:+ s2) = string_forall p s1 && string_forall p s2.
Proof.
  induction s1 as [|c s1 IH]; simpl; [done|]. by rewrite IH, andb_assoc.
Qed.

Lemma remove_spaces_forall (p : ascii -> bool) (s : string) :
  string_forall p s = true -> string_forall p (remove_spaces s) = true.
Proof.
  induction s as [|c s IH]; simpl; [done|].
  intros [Hc Hs]%andb_prop.
  destruct (SelectorGenerator.is_space c); simpl; [by apply IH|].
  by rewrite Hc, IH.
Qed.

Lemma to_upper_word (c : ascii) :
  Regex.word c = true -> Regex.word (to_upper c) = true.
Proof.
  destruct c as [[] [] [] [] [] [] [] []]; intros H; vm_compute in *;
    congruence.
Qed.

Lemma replace_word_starts_word (prev : option ascii) (s : string) :
  string_forall Regex.word s = true ->
  string_forall Regex.word
    (replace_word_starts (fun _ word => to_upper word) prev s) = true.
Proof.
  revert prev. induction s as [|c s IH]; intros prev; simpl; [done|].
  intros [Hc Hs]%andb_prop. rewrite (IH _ Hs), andb_true_r.
  destruct (_ || _); [by apply to_upper_word | done].
Qed.

Lemma toPascalCase_word (s : string) :
  string_forall Regex.word s = true ->
  string_forall Regex.word (toPascalCase s) = true.
Proof.
  intros Hs. unfold toPascalCase.
  by apply remove_spaces_forall, replace_word_starts_word.
Qed.

Lemma is_letter_word (c : ascii) : is_letter c = true -> Regex.word c = true.
Proof.
  unfold is_letter, Regex.word, Regex.alnum.
  intros [->| ->]%orb_prop; by rewrite ?orb_true_r.
Qed.

Lemma letters_only_word (s : string) :
  string_forall Regex.word (letters_only s) = true.
Proof.
  induction s as [|c s IH]; simpl; [done|].
  destruct (is_letter c) eqn:Hc; simpl; [|done].
  by rewrite (is_letter_word c Hc), IH.
Qed.

Lemma kind_name_word (k : ActionKind) :
  string_forall Regex.word (kind_name k) = true.
Proof. by destruct k. Qed.

(** X13.  The method name inferred for an action that is not an input is
    a JavaScript identifier made of ASCII word characters: it starts
    with a lower-case letter and contains only letters, digits and
    underscores.  (The name inferred for an input takes the field's name
    or id as it is and carries no such guarantee.) *)
Theorem inferFunctionName_identifier
    (URL_pathname : option string -> Result string)
    (a : Action) (functionName : string) :
  has_kind a input = false ->
  inferFunctionName URL_pathname a = Ok functionName ->
  string_forall Regex.word functionName = true
  /\ exists c rest, functionName = String c rest /\ Regex.lower c = true.
Proof.
  intros Hkind.
  destruct a as [r|sub t d]; unfold inferFunctionName, has_kind in *;
    [|intros [= <-]; split; [done | by eexists _, _]].
  assert (Hlate : forall s,
    Ok ("perform" +:+ toPascalCase (kind_name (type r))) = Ok s ->
    string_forall Regex.word s = true
    /\ exists c rest, s = String c rest /\ Regex.lower c = true).
  { intros s [= <-]. split; [|by eexists _, _].
    rewrite string_forall_app. simpl.
    apply toPascalCase_word, kind_name_word. }
  rewrite Hkind.
  destruct (bool_decide (type r = navigation)).
  - destruct (URL_pathname (url r)) as [p|e]; simpl; [|done].
    intros [= <-]. split; [|by eexists _, _].
    rewrite string_forall_app. simpl.
    apply toPascalCase_word.
    pose proof (letters_only_word p) as Hp.
    by destruct (letters_only p).
  - destruct (element r) as [e|]; [|apply Hlate].
    destruct (bool_decide (type r = click)); [|apply Hlate].
    destruct (isSubmitButton (Some e));
      [intros [= <-]; split; [done | by eexists _, _]|].
    destruct (truthy (textContent e)); [|apply Hlate].
    intros [= <-]. split; [|by eexists _, _].
    rewrite string_forall_app. simpl.
    apply toPascalCase_word, letters_only_word.
Qed.

(** A click without element: [performClick]. *)
Lemma inferFunctionName_identifier_witness :
  has_kind (Recorded ParserExamples.click_100) input = false
  /\ inferFunctionName example_pathname (Recorded ParserExamples.click_100)
     = Ok "performClick"
  /\ string_forall Regex.word "performClick" = true.
Proof.
  split; [reflexivity|]. split; [reflexivity|].
  apply (inferFunctionName_identifier example_pathname
           (Recorded ParserExamples.click_100) "performClick");
    reflexivity.
Defined.

End MethodNames.

(** * Properties of the extracted test data *)

Section TestDataFacts.

Import Js ActionParser TestData.

Lemma set_add_elem_of (x y : option string) (s : list (option string)) :
  y ∈ set_add x s <-> y = x \/ y ∈ s.
Proof.
  unfold set_add. case_bool_decide as Hin.
  - split; [auto | intros [-> | ?]; done].
  - rewrite elem_of_app, list_elem_of_singleton. tauto.
Qed.

Lemma set_add_NoDup (x : option string) (s : list (option string)) :
  NoDup s -> NoDup (set_add x s).
Proof.
  intros Hnd. unfold set_add. case_bool_decide as Hin; [done|].
  apply NoDup_app. repeat split; [done | | apply NoDup_singleton].
  by intros y Hy ->%list_elem_of_singleton.
Qed.

(** The fields of the state after one iteration. *)
Lemma extract_step_urls (st : TestData) (a : Action) :
  urls (extract_step st a)
  = match a with
    | Recorded r =>
        if bool_decide (type r = navigation) then set_add (url r) (urls st)
        else urls st
    | FormSequence _ _ _ => urls st
    end.
Proof.
  destruct a as [r|sub t d]; [|done]. unfold extract_step.
  destruct (bool_decide (type r = navigation));
    by destruct (bool_decide (type r = input) && truthy (value r)).
Qed.

Lemma extract_step_input (st : TestData) (r : ActionRecord) :
  bool_decide (type r = input) && truthy (value r) = true ->
  formData (extract_step st (Recorded r))
  = object_set (field_name r) (show (value r)) (formData st)
  /\ dynamicValues (extract_step st (Recorded r))
     = dynamicValues st
       ++ (if isDynamicValue (show (value r))
           then [mkDynamicValue (field_name r) (show (value r))
                   (detectValueType (show (value r)))]
           else [])
  /\ staticValues (extract_step st (Recorded r))
     = staticValues st
       ++ (if isDynamicValue (show (value r)) then []
           else [mkStaticValue (field_name r) (show (value r))]).
Proof.
  intros Hin. unfold extract_step. rewrite Hin.
  apply andb_prop in Hin as [Hty%bool_decide_eq_true_1 _].
  rewrite (bool_decide_eq_false_2 (type r = navigation)) by (by rewrite Hty).
  cbn [formData dynamicValues staticValues].
  destruct (isDynamicValue (show (value r))); by rewrite ?app_nil_r.
Qed.

Lemma extract_step_other (st : TestData) (a : Action) :
  match a with
  | Recorded r => bool_decide (type r = input) && truthy (value r) = false
  | FormSequence _ _ _ => True
  end ->
  formData (extract_step st a) = formData st
  /\ dynamicValues (extract_step st a) = dynamicValues st
  /\ staticValues (extract_step st a) = staticValues st.
Proof.
  destruct a as [r|sub t d]; [|done]. intros Hin.
  unfold extract_step. rewrite Hin.
  by destruct (bool_decide (type r = navigation)).
Qed.

Lemma extract_loop_formData (actions : list Action) (st : TestData)
    (f : string) :
  f <> "__proto__" ->
  formData (foldl extract_step st actions) !! f
  = match last ((fun r => show (value r))
                <$> filter (fun r => field_name r = f) (valued_inputs actions))
    with
    | Some v => Some v
    | None => formData st !! f
    end.
Proof.
  intros Hproto.
  revert st. induction actions as [|a l IH]; intros st; [done|].
  cbn [foldl]. rewrite IH. unfold valued_inputs. rewrite bind_cons.
  fold (valued_inputs l). rewrite filter_app, fmap_app, last_app.
  destruct (last (_ <$> filter _ (valued_inputs l))); [done|].
  destruct a as [r|sub t d]; [|done].
  destruct (bool_decide (type r = input) && truthy (value r)) eqn:Hin.
  - destruct (extract_step_input st r Hin) as (-> & _ & _).
    rewrite filter_cons. unfold object_set.
    destruct (decide (field_name r = f)) as [Hf|Hf]; simpl.
    + rewrite bool_decide_eq_false_2 by (by rewrite Hf).
      by rewrite <- Hf, lookup_insert_eq.
    + destruct (bool_decide (field_name r = "__proto__")); [done|].
      by rewrite lookup_insert_ne.
  - by destruct (extract_step_other st (Recorded r) Hin) as (-> & _ & _).
Qed.

(** No own property [__proto__] is ever stored. *)
Lemma extract_loop_proto (actions : list Action) (st : TestData) :
  formData (foldl extract_step st actions) !! "__proto__"
  = formData st !! "__proto__".
Proof.
  revert st. induction actions as [|a l IH]; intros st; [done|].
  cbn [foldl]. rewrite IH.
  destruct a as [r|sub t d]; [|done].
  destruct (bool_decide (type r = input) && truthy (value r)) eqn:Hin.
  - destruct (extract_step_input st r Hin) as (-> & _ & _).
    unfold object_set.
    destruct (bool_decide (field_name r = "__proto__")) eqn:Hkey; [done|].
    apply bool_decide_eq_false_1 in Hkey. by rewrite lookup_insert_ne.
  - by destruct (extract_step_other st (Recorded r) Hin) as (-> & _ & _).
Qed.

(** X14.  In the extracted test data, [formData] maps a field name other
    than [__proto__] to the value of the last top-level input action on
    that field that carries a non-empty value (earlier values are
    overwritten), and has no entry for a field without such an action.
    Fields without name and id all share the key [unknown].  For the
    field name [__proto__] nothing is stored, whatever was typed. *)
Theorem extractTestData_formData_last (actions : list Action) (f : string) :
  formData (extractTestData actions) !! f
  = if bool_decide (f = "__proto__") then None
    else last ((fun r => show (value r))
               <$> filter (fun r => field_name r = f)
                     (valued_inputs actions)).
Proof.
  unfold extractTestData. case_bool_decide as Hf.
  - subst f. rewrite extract_loop_proto. apply lookup_empty.
  - rewrite (extract_loop_formData _ _ _ Hf).
    destruct (last _); [done|]. apply lookup_empty.
Qed.

(** Typing into a field named [__proto__]: the value is listed among
    the static values and is no property of [formData]. *)
Example extractTestData_proto_field :
  let actions :=
    [Recorded (StageExamples.on_element input 10 "#p"
                 (TestDataExamples.named "__proto__") (Some "v"))] in
  formData (extractTestData actions) = ∅
  /\ staticValues (extractTestData actions) = [mkStaticValue "__proto__" "v"].
Proof. split; reflexivity. Qed.

(** The [Set] of URLs after the loop: what it held, then the first
    occurrences of the new URLs. *)
Lemma extract_loop_first_occurrences (actions : list Action) (st : TestData) :
  urls (foldl extract_step st actions)
  = urls st
    ++ filter (fun u => u ∉ urls st)
         (first_occurrences (navigation_urls actions)).
Proof.
  revert st. induction actions as [|a l IH]; intros st.
  - simpl. by rewrite app_nil_r.
  - cbn [foldl]. rewrite IH, extract_step_urls.
    unfold navigation_urls. rewrite bind_cons. fold (navigation_urls l).
    destruct a as [r|sub t d]; [|done].
    destruct (bool_decide (type r = navigation)); [|done].
    cbn [app first_occurrences]. unfold set_add.
    case_bool_decide as Hin.
    + rewrite filter_cons_False by (by intros Hnot).
      rewrite list_filter_filter. f_equal. apply list_filter_iff.
      intros u. split; [|by intros [? _]].
      intros Hu. split; [done|]. by intros ->.
    + rewrite filter_cons_True by done.
      rewrite <- app_assoc. cbn [app]. do 2 f_equal.
      rewrite list_filter_filter. apply list_filter_iff.
      intros u. rewrite not_elem_of_app, list_elem_of_singleton. tauto.
Qed.

Lemma extract_loop_urls (actions : list Action) (st : TestData) :
  NoDup (urls st) ->
  NoDup (urls (foldl extract_step st actions))
  /\ (forall u, u ∈ urls (foldl extract_step st actions)
                <-> u ∈ urls st \/ u ∈ navigation_urls actions)
  /\ exists added,
       urls (foldl extract_step st actions) = urls st ++ added
       /\ added `sublist_of` navigation_urls actions.
Proof.
  revert st. induction actions as [|a l IH]; intros st Hnd.
  - simpl. split; [done|]. split.
    + intros u. split; [auto | intros [?|Hu]; [done|]].
      by apply elem_of_nil in Hu.
    + exists []. by rewrite app_nil_r.
  - cbn [foldl]. unfold navigation_urls. rewrite bind_cons.
    fold (navigation_urls l).
    assert (Hnd' : NoDup (urls (extract_step st a))).
    { rewrite extract_step_urls. destruct a as [r|]; [|done].
      destruct (bool_decide (type r = navigation)); [|done].
      by apply set_add_NoDup. }
    destruct (IH _ Hnd') as (H1 & H2 & added & H3 & H4).
    split; [done|]. rewrite H3. rewrite extract_step_urls in *.
    destruct a as [r|sub t d]; simpl.
    + destruct (bool_decide (type r = navigation)); simpl.
      * split.
        -- intros u. rewrite <- H3, H2, set_add_elem_of, elem_of_cons. tauto.
        -- unfold set_add in *. case_bool_decide.
           ++ exists added. split; [done|]. by apply sublist_cons.
           ++ exists (url r :: added). rewrite <- app_assoc.
              split; [done|]. by apply sublist_skip.
      * split; [by intros u; rewrite <- H3, H2 | eauto].
    + split; [by intros u; rewrite <- H3, H2 | eauto].
Qed.

(** X15.  The [urls] of the extracted test data are the URLs of the
    top-level navigation actions, each listed once, in the order of
    their first visit. *)
Theorem extractTestData_urls (actions : list Action) :
  urls (extractTestData actions)
  = first_occurrences (navigation_urls actions)
  /\ NoDup (urls (extractTestData actions))
  /\ (forall u, u ∈ urls (extractTestData actions)
                <-> u ∈ navigation_urls actions)
  /\ urls (extractTestData actions) `sublist_of` navigation_urls actions.
Proof.
  split.
  { unfold extractTestData. rewrite extract_loop_first_occurrences.
    cbn [urls app].
    induction (first_occurrences (navigation_urls actions)) as [|u l IH];
      [done|].
    rewrite filter_cons_True by apply not_elem_of_nil. by rewrite IH. }
  destruct (extract_loop_urls actions (mkTestData [] ∅ [] []))
    as (H1 & H2 & added & H3 & H4); [constructor|].
  split; [exact H1|]. split.
  - intros u. rewrite (H2 u). split; [|auto].
    intros [Hu|Hu]; [|done]. by apply elem_of_nil in Hu.
  - unfold extractTestData. by rewrite H3.
Qed.

(** Visiting [a], [b] and [a] again lists [a] before [b]. *)
Example extractTestData_urls_revisit :
  first_occurrences [Some "a"; Some "b"; Some "a"] = [Some "a"; Some "b"].
Proof. reflexivity. Qed.

Lemma extract_loop_values (actions : list Action) (st : TestData) :
  dynamicValues (foldl extract_step st actions)
  = dynamicValues st
    ++ ((fun r => mkDynamicValue (field_name r) (show (value r))
                    (detectValueType (show (value r))))
        <$> filter (fun r => isDynamicValue (show (value r)) = true)
              (valued_inputs actions))
  /\ staticValues (foldl extract_step st actions)
     = staticValues st
       ++ ((fun r => mkStaticValue (field_name r) (show (value r)))
           <$> filter (fun r => isDynamicValue (show (value r)) <> true)
                 (valued_inputs actions)).
Proof.
  revert st. induction actions as [|a l IH]; intros st.
  - simpl. by rewrite !app_nil_r.
  - cbn [foldl]. destruct (IH (extract_step st a)) as [-> ->].
    unfold valued_inputs. rewrite bind_cons. fold (valued_inputs l).
    rewrite !filter_app, !fmap_app, !app_assoc.
    destruct a as [r|sub t d];
      [|by rewrite !app_nil_r].
    destruct (bool_decide (type r = input) && truthy (value r)) eqn:Hin.
    + destruct (extract_step_input st r Hin) as (_ & -> & ->).
      rewrite !filter_cons, !filter_nil.
      destruct (isDynamicValue (show (value r))) eqn:Hdyn;
        repeat case_decide; try done; by rewrite ?app_nil_r.
    + destruct (extract_step_other st (Recorded r) Hin) as (_ & -> & ->).
      by rewrite !app_nil_r.
Qed.

(** X16.  Every top-level input action with a non-empty value yields
    exactly one entry of the extracted test data, in recorded order: an
    entry of [dynamicValues] when its value matches one of the dynamic
    patterns, an entry of [staticValues] otherwise. *)
Theorem extractTestData_classifies (actions : list Action) :
  dynamicValues (extractTestData actions)
  = (fun r => mkDynamicValue (field_name r) (show (value r))
                (detectValueType (show (value r))))
    <$> filter (fun r => isDynamicValue (show (value r)) = true)
          (valued_inputs actions)
  /\ staticValues (extractTestData actions)
     = (fun r => mkStaticValue (field_name r) (show (value r)))
       <$> filter (fun r => isDynamicValue (show (value r)) <> true)
             (valued_inputs actions)
  /\ (length (dynamicValues (extractTestData actions))
      + length (staticValues (extractTestData actions))
      = length (valued_inputs actions))%nat.
Proof.
  destruct (extract_loop_values actions (mkTestData [] ∅ [] [])) as [Hd Hs].
  unfold extractTestData. rewrite Hd, Hs. simpl.
  split; [done|]. split; [done|].
  rewrite !length_fmap. clear Hd Hs.
  induction (valued_inputs actions) as [|r l IH]; [done|].
  rewrite !filter_cons.
  destruct (isDynamicValue (show (value r)));
    repeat case_decide; try done; simpl; lia.
Qed.

End TestDataFacts.

(** * Further properties of the selector generator *)

Section GeneratorResults.

Import Js SelectorGenerator SelectorExtras.

Variable CSS_escape : string -> Result string.
Variable this : Options.

(** What the strategy loop returns comes from one of the strategies, was
    validated, and carries the fallbacks of [generateFallbacks]. *)
Lemma strategies_loop_origin (page : Page) (h : Node) (info : ElementInfo)
    (strats : list (ElementInfo -> Result (option Candidate)))
    (r : SelectorResult) :
  strategies_loop this page h info strats = Ok (Some r) ->
  exists s c fbs,
    s ∈ strats /\ s info = Ok (Some c)
    /\ validateSelector page c h = true
    /\ generateFallbacks this page h c = Ok fbs
    /\ r = {| primary := selector c; r_type := c_type c;
              confidence := c_confidence c; fallbacks := fbs |}.
Proof.
  induction strats as [|strategy rest IH]; simpl; [done|].
  assert (Hrest : strategies_loop this page h info rest = Ok (Some r) ->
                  exists s c fbs,
                    s ∈ strategy :: rest /\ s info = Ok (Some c)
                    /\ validateSelector page c h = true
                    /\ generateFallbacks this page h c = Ok fbs
                    /\ r = {| primary := selector c; r_type := c_type c;
                              confidence := c_confidence c;
                              fallbacks := fbs |}).
  { intros Hr. destruct (IH Hr) as (s & c & fbs & Hs & H).
    exists s, c, fbs. split; [by apply list_elem_of_further | done]. }
  destruct (strategy info) as [[c|]|e] eqn:Hc; simpl; [|done|done].
  destruct (validateSelector page c h) eqn:Hv; [|done].
  destruct (generateFallbacks this page h c) as [fbs|e] eqn:Hf; simpl; [|done].
  intros [= <-]. exists strategy, c, fbs.
  split; [apply list_elem_of_here | done].
Qed.

(** The three ways in which [generateSelector] returns. *)
Lemma generateSelector_cases (page : Page) (h : Node) (r : SelectorResult) :
  generateSelector CSS_escape this page h = Ok r ->
  (exists info s c fbs,
     getElementInfo page h = Ok info
     /\ s ∈ strategies CSS_escape this /\ s info = Ok (Some c)
     /\ validateSelector page c h = true
     /\ generateFallbacks this page h c = Ok fbs
     /\ r = {| primary := selector c; r_type := c_type c;
               confidence := c_confidence c; fallbacks := fbs |})
  \/ (exists info, generateCompositeSelector page h info = Ok r)
  \/ (exists e, generateSelector_handler page h e = Ok r).
Proof.
  intros Hr. unfold generateSelector in Hr.
  destruct (generateSelector_body CSS_escape this page h) as [r0|e] eqn:Hbody;
    unfold try_catch in Hr; [|right; right; by exists e].
  injection Hr as ->. unfold generateSelector_body in Hbody.
  destruct (getElementInfo page h) as [info|e] eqn:Hinfo; [|done].
  rewrite bind_Ok in Hbody.
  destruct (strategies_loop this page h info (strategies CSS_escape this))
    as [[found|]|e] eqn:Hloop; [| |done]; rewrite bind_Ok in Hbody.
  - injection Hbody as ->. left.
    destruct (strategies_loop_origin page h info _ r Hloop)
      as (s & c & fbs & H).
    by exists info, s, c, fbs.
  - right. left. by exists info.
Qed.

Lemma testid_loop_confidence (info : ElementInfo) (attrs : list string)
    (c : Candidate) :
  testid_loop info attrs = Some c -> c_confidence c = 9 # 10.
Proof.
  induction attrs as [|attr rest IH]; simpl; [done|].
  destruct (truthy_attribute info attr); [by intros [= <-] | done].
Qed.

Lemma strategy_confidence (info : ElementInfo)
    (s : ElementInfo -> Result (option Candidate)) (c : Candidate) :
  s ∈ strategies CSS_escape this ->
  s info = Ok (Some c) ->
  c_confidence c ∈ strategy_confidences.
Proof.
  unfold strategies, strategy_confidences. intros Hs Hc.
  repeat (apply elem_of_cons in Hs as [-> | Hs]);
    [..|by apply elem_of_nil in Hs]; cbv beta in Hc.
  - injection Hc as Hc. apply testid_loop_confidence in Hc. rewrite Hc.
    apply list_elem_of_here.
  - unfold generateIdSelector in Hc. destruct (_ && _); [|done].
    destruct (CSS_escape (id info)); [|done].
    rewrite bind_Ok in Hc. injection Hc as <-. cbn [c_confidence].
    repeat first [apply list_elem_of_here | apply list_elem_of_further].
  - unfold generateNameSelector in Hc. destruct (_ && _); [|done].
    injection Hc as <-. cbn [c_confidence].
    repeat first [apply list_elem_of_here | apply list_elem_of_further].
  - unfold generateRoleSelector in Hc. cbv zeta in Hc.
    repeat match type of Hc with
           | context [if ?b then _ else _] => destruct b
           end; try done;
      injection Hc as <-; cbn [c_confidence];
      repeat first [apply list_elem_of_here | apply list_elem_of_further].
  - unfold generateTextSelector in Hc. cbv zeta in Hc.
    repeat match type of Hc with
           | Ok (if ?b then _ else _) = _ => destruct b
           end; try done;
      injection Hc as <-; cbn [c_confidence];
      repeat first [apply list_elem_of_here | apply list_elem_of_further].
  - injection Hc as <-. unfold generateCssSelector. cbn [c_confidence].
    repeat first [apply list_elem_of_here | apply list_elem_of_further].
  - injection Hc as <-. unfold generateXPathSelector. cbn [c_confidence].
    repeat first [apply list_elem_of_here | apply list_elem_of_further].
Qed.

Lemma fallbacks_loop_inv (page : Page) (h : Node) (primarySelector : Candidate)
    (info : ElementInfo)
    (strats : list (ElementInfo -> option Candidate)) (acc : list Candidate) :
  Forall (fun fb => validateSelector page fb h = true
                    /\ selector fb <> selector primarySelector) acc ->
  (length acc <= 1)%nat ->
  Forall (fun fb => validateSelector page fb h = true
                    /\ selector fb <> selector primarySelector)
    (fallbacks_loop page h primarySelector info strats acc)
  /\ (length (fallbacks_loop page h primarySelector info strats acc) <= 2)%nat.
Proof.
  revert acc. induction strats as [|strategy rest IH]; intros acc Hacc Hlen;
    cbn [fallbacks_loop]; cbv zeta.
  - split; [done | lia].
  - destruct (strategy info) as [fb|]; [|by apply IH].
    destruct (negb (bool_decide (selector fb = selector primarySelector))
              && validateSelector page fb h) eqn:Hok; [|by apply IH].
    apply andb_prop in Hok as [Hne%negb_true_iff%bool_decide_eq_false_1 Hv].
    assert (Hacc' : Forall (fun fb => validateSelector page fb h = true
                              /\ selector fb <> selector primarySelector)
                      (acc ++ [fb])).
    { apply Forall_app. split; [done|]. by apply Forall_singleton. }
    destruct (2 <=? length (acc ++ [fb]))%nat eqn:Hfull.
    + split; [done|]. rewrite length_app. simpl. lia.
    + apply IH; [done|]. apply Nat.leb_gt in Hfull. lia.
Qed.

Lemma generateFallbacks_inv (page : Page) (h : Node) (c : Candidate)
    (fbs : list Candidate) :
  generateFallbacks this page h c = Ok fbs ->
  Forall (fun fb => validateSelector page fb h = true
                    /\ selector fb <> selector c) fbs
  /\ (length fbs <= 2)%nat.
Proof.
  unfold generateFallbacks.
  destruct (getElementInfo page h) as [info|e]; [|done].
  rewrite bind_Ok. intros Hf.
  match type of Hf with
  | Ok ?loop = _ => replace fbs with loop by congruence
  end.
  apply fallbacks_loop_inv; [constructor | simpl; lia].
Qed.

End GeneratorResults.

Section GeneratorResultClaims.

Import Js SelectorGenerator SelectorExtras.

(** X17.  Whatever [generateSelector] returns is of one of three kinds:
    a validated result (its primary selector resolves on the page to the
    element alone, its confidence is one of the strategy confidences,
    0.3 to 0.9), the unvalidated composite selector (confidence 0.2, no
    fallbacks), or the XPath-by-position fallback of the catch block
    (confidence 0.1, no fallbacks). *)
Theorem generateSelector_result_kinds
    (CSS_escape : string -> Result string) (this : Options)
    (page : Page) (elementHandle : Node) (r : SelectorResult) :
  generateSelector CSS_escape this page elementHandle = Ok r ->
  ResultKind page elementHandle r.
Proof.
  intros Hr.
  destruct (generateSelector_cases CSS_escape this page elementHandle r Hr)
    as [(info & s & c & fbs & _ & Hs & Hc & Hv & _ & ->)
       | [(info & Hcomp) | (e & Hhandler)]].
  - apply Validated; simpl.
    + by apply validateSelector_spec in Hv as [Hloc _].
    + by apply (strategy_confidence CSS_escape this info s c).
  - injection Hcomp as <-. by apply Composite.
  - unfold generateSelector_handler in Hhandler.
    destruct (getElementIndex page elementHandle) as [idx|e'] eqn:Hidx;
      simpl in Hhandler; [|done].
    injection Hhandler as <-. by apply (Fallback _ _ _ idx).
Qed.

(** The div with the hex id: a validated result. *)
Lemma generateSelector_result_kinds_witness :
  exists r,
    generateSelector Examples.css_escape_plain default_options
      Examples.page_hex 7%nat = Ok r
    /\ ResultKind Examples.page_hex 7%nat r.
Proof.
  eexists. split; [reflexivity|].
  by apply (generateSelector_result_kinds Examples.css_escape_plain
              default_options).
Defined.

(** X18.  A Selector Result returned by [generateSelector] has at most
    two fallbacks; each fallback was validated, so its selector resolves
    on the page to the element alone, and differs from the primary
    selector. *)
Theorem generateSelector_fallbacks
    (CSS_escape : string -> Result string) (this : Options)
    (page : Page) (elementHandle : Node) (r : SelectorResult) :
  generateSelector CSS_escape this page elementHandle = Ok r ->
  (length (fallbacks r) <= 2)%nat
  /\ Forall (fun fb => locator_all page (selector fb) = Ok [elementHandle]
                       /\ selector fb <> primary r)
       (fallbacks r).
Proof.
  intros Hr.
  destruct (generateSelector_cases CSS_escape this page elementHandle r Hr)
    as [(info & s & c & fbs & _ & _ & _ & _ & Hfbs & ->)
       | [(info & Hcomp) | (e & Hhandler)]].
  - destruct (generateFallbacks_inv this page elementHandle c fbs Hfbs)
      as [Hall Hlen].
    split; [done|]. simpl. eapply Forall_impl; [exact Hall|].
    intros fb [Hv Hne]. split; [|done].
    by apply validateSelector_spec in Hv as [Hloc _].
  - injection Hcomp as <-. simpl. split; [lia | constructor].
  - unfold generateSelector_handler in Hhandler.
    destruct (getElementIndex page elementHandle); simpl in Hhandler; [|done].
    injection Hhandler as <-. simpl. split; [lia | constructor].
Qed.

(** The div with the hex id: its XPath is the one fallback. *)
Lemma generateSelector_fallbacks_witness :
  exists r,
    generateSelector Examples.css_escape_plain default_options
      Examples.page_hex 7%nat = Ok r
    /\ selector <$> fallbacks r = [Examples.hex_xpath_selector]
    /\ Forall (fun fb => locator_all Examples.page_hex (selector fb)
                         = Ok [7%nat]
                         /\ selector fb <> primary r)
         (fallbacks r).
Proof.
  eexists. split; [reflexivity|]. split; [reflexivity|].
  by apply (generateSelector_fallbacks Examples.css_escape_plain
              default_options Examples.page_hex 7%nat).
Defined.

End GeneratorResultClaims.

Section MultipleStrategyFacts.

Import Js SelectorGenerator SelectorExtras.

Lemma insert_by_confidence_perm (a : LabelledCandidate)
    (l : list LabelledCandidate) :
  insert_by_confidence a l ≡ₚ a :: l.
Proof.
  induction l as [|b rest IH]; simpl; [done|].
  destruct (Qle_bool _ _); [done|].
  by rewrite IH, Permutation_swap.
Qed.

Lemma sort_by_confidence_perm (l : list LabelledCandidate) :
  sort_by_confidence l ≡ₚ l.
Proof.
  induction l as [|a rest IH]; simpl; [done|].
  by rewrite insert_by_confidence_perm, IH.
Qed.

Lemma insert_by_confidence_sorted (a : LabelledCandidate)
    (l : list LabelledCandidate) :
  StronglySorted
    (fun x y => (c_confidence (l_candidate y) <= c_confidence (l_candidate x))%Q)
    l ->
  StronglySorted
    (fun x y => (c_confidence (l_candidate y) <= c_confidence (l_candidate x))%Q)
    (insert_by_confidence a l).
Proof.
  induction 1 as [|b rest Hsorted IH Hb]; simpl.
  - by repeat constructor.
  - destruct (Qle_bool (c_confidence (l_candidate b))
                (c_confidence (l_candidate a))) eqn:Hle.
    + apply Qle_bool_iff in Hle.
      apply SSorted_cons; [by apply SSorted_cons|].
      apply Forall_cons. split; [done|].
      eapply Forall_impl; [exact Hb|]. intros x Hx. simpl in Hx.
      by apply (Qle_trans _ (c_confidence (l_candidate b))).
    + apply SSorted_cons; [done|].
      rewrite insert_by_confidence_perm. apply Forall_cons. split; [|done].
      apply Qlt_le_weak, Qnot_le_lt. intros Hle'.
      apply Qle_bool_iff in Hle'. congruence.
Qed.

Lemma sort_by_confidence_sorted (l : list LabelledCandidate) :
  StronglySorted
    (fun x y => (c_confidence (l_candidate y) <= c_confidence (l_candidate x))%Q)
    (sort_by_confidence l).
Proof.
  induction l as [|a rest IH]; simpl; [constructor|].
  by apply insert_by_confidence_sorted.
Qed.

Lemma candidate_strategies_labels (CSS_escape : string -> Result string)
    (this : Options) (info : ElementInfo) (l : list LabelledCandidate) :
  candidate_strategies CSS_escape this info = Ok l ->
  l_strategy <$> l `sublist_of` ["attribute"; "text"; "css"; "xpath"].
Proof.
  unfold candidate_strategies.
  destruct (match generateTestIdSelector this info with
            | Some c => Ok (Some c)
            | None => generateIdSelector CSS_escape info
            end) as [attr|e]; [|done].
  rewrite bind_Ok. intros Hl.
  match type of Hl with
  | Ok ?built = _ => replace l with built by congruence
  end.
  destruct attr as [a|]; destruct (generateTextSelector this info) as [t|];
    cbn [app fmap list_fmap l_strategy];
    repeat first [ apply sublist_skip | apply sublist_cons | apply sublist_nil ].
Qed.

End MultipleStrategyFacts.

Section MultipleStrategyClaims.

Import Js SelectorGenerator SelectorExtras.

(** X19.  The list returned by [generateMultipleStrategies] is in
    non-increasing order of confidence; every entry was validated, so
    its selector resolves on the page to the element alone; and the
    labels of the entries are distinct and among attribute, text, css
    and xpath, so there are at most four entries. *)
Theorem generateMultipleStrategies_sorted_valid
    (CSS_escape : string -> Result string) (this : Options)
    (page : Page) (elementHandle : Node) (l : list LabelledCandidate) :
  generateMultipleStrategies CSS_escape this page elementHandle = Ok l ->
  StronglySorted
    (fun x y => (c_confidence (l_candidate y) <= c_confidence (l_candidate x))%Q)
    l
  /\ Forall (fun s => locator_all page (selector (l_candidate s))
                      = Ok [elementHandle]) l
  /\ NoDup (l_strategy <$> l)
  /\ l_strategy <$> l ⊆ ["attribute"; "text"; "css"; "xpath"]
  /\ (length l <= 4)%nat.
Proof.
  unfold generateMultipleStrategies.
  destruct (getElementInfo page elementHandle) as [info|e]; [|done].
  rewrite bind_Ok.
  destruct (candidate_strategies CSS_escape this info) as [cands|e] eqn:Hcands;
    [|done].
  rewrite bind_Ok. cbv zeta. intros [= <-].
  pose proof (candidate_strategies_labels _ _ _ _ Hcands) as Hlabels.
  set (valid := filter _ cands).
  assert (Hsub : l_strategy <$> sort_by_confidence valid
                 ≡ₚ l_strategy <$> valid).
  { by rewrite sort_by_confidence_perm. }
  assert (Hvalid : l_strategy <$> valid
                   `sublist_of` ["attribute"; "text"; "css"; "xpath"]).
  { transitivity (l_strategy <$> cands); [|done].
    apply fmap_sublist, sublist_filter. }
  split; [apply sort_by_confidence_sorted|].
  split.
  { rewrite sort_by_confidence_perm. subst valid.
    apply Forall_forall. intros s [Hv _]%list_elem_of_filter.
    by apply validateSelector_spec in Hv as [Hloc _]. }
  split.
  { rewrite Hsub. eapply sublist_NoDup; [|exact Hvalid].
    by apply (bool_decide_unpack _). }
  split.
  { rewrite Hsub. intros x Hx. by eapply elem_of_sublist. }
  rewrite <- (length_fmap l_strategy), Hsub.
  by apply sublist_length in Hvalid.
Qed.

(** The div with the hex id: the attribute selector (0.9) and the
    XPath (0.3) validate. *)
Lemma generateMultipleStrategies_sorted_valid_witness :
  exists l,
    generateMultipleStrategies Examples.css_escape_plain default_options
      Examples.page_hex 7%nat = Ok l
    /\ c_confidence ∘ l_candidate <$> l = [9 # 10; 3 # 10]
    /\ StronglySorted
         (fun x y =>
            (c_confidence (l_candidate y) <= c_confidence (l_candidate x))%Q)
         l.
Proof.
  eexists. split; [reflexivity|]. split; [reflexivity|].
  by apply (generateMultipleStrategies_sorted_valid Examples.css_escape_plain
              default_options Examples.page_hex 7%nat).
Defined.

End MultipleStrategyClaims.

Section EscapeTextFacts.

Import Js SelectorGenerator SelectorExtras Strings.

Lemma replace_all_forall (p : ascii -> bool) (c : ascii) (by_ s : string) :
  (forall a, a <> c -> p a = true) ->
  string_forall p by_ = true ->
  string_forall p (replace_all c by_ s) = true.
Proof.
  intros Hother Hby. induction s as [|a s IH]; simpl; [done|].
  case_bool_decide as Ha.
  - by rewrite string_forall_app, Hby, IH.
  - simpl. by rewrite (Hother a Ha), IH.
Qed.

Lemma trim_start_forall (p : ascii -> bool) (s : string) :
  string_forall p s = true -> string_forall p (trim_start s) = true.
Proof.
  induction s as [|a s IH]; simpl; [done|].
  intros Hs. destruct (is_space a); [|done].
  apply andb_prop in Hs as [_ Hs]. by apply IH.
Qed.

Lemma trim_end_forall (p : ascii -> bool) (s : string) :
  string_forall p s = true -> string_forall p (trim_end s) = true.
Proof.
  induction s as [|a s IH]; simpl; [done|].
  intros [Ha Hs]%andb_prop. specialize (IH Hs).
  destruct (trim_end s) as [|b t].
  - destruct (is_space a); simpl; [done|]. by rewrite Ha.
  - change (p a && string_forall p (String b t) = true). by rewrite Ha, IH.
Qed.

Lemma quotes_escaped_weaken (b : bool) (s : string) :
  quotes_escaped false s = true -> quotes_escaped b s = true.
Proof.
  destruct s as [|c s]; simpl; [done|].
  intros [Hc Hs]%andb_prop. rewrite Hs.
  rewrite orb_false_r in Hc. by rewrite Hc.
Qed.

Lemma quotes_escaped_replace_quote (b : bool) (s : string) :
  quotes_escaped b (replace_all (ascii_of_nat 34) (bs +:+ dq) s) = true.
Proof.
  revert b. induction s as [|a s IH]; intros b; simpl; [done|].
  case_bool_decide as Ha.
  - change (quotes_escaped b
              (String (ascii_of_nat 92)
                 (String (ascii_of_nat 34)
                    (replace_all (ascii_of_nat 34) (bs +:+ dq) s))) = true).
    cbn [quotes_escaped]. rewrite IH.
    by rewrite (bool_decide_eq_true_2 (ascii_of_nat 92 = ascii_of_nat 92)).
  - cbn [quotes_escaped]. rewrite IH.
    by rewrite (bool_decide_eq_false_2 _ Ha).
Qed.

Lemma quotes_escaped_replace_lf (b : bool) (s : string) :
  quotes_escaped b s = true ->
  quotes_escaped b (replace_all (ascii_of_nat 10) (bs +:+ "n") s) = true.
Proof.
  revert b. induction s as [|a s IH]; intros b; [done|].
  cbn [replace_all]. intros Hq. cbn [quotes_escaped] in Hq.
  apply andb_prop in Hq as [Ha Hs].
  destruct (bool_decide (a = ascii_of_nat 10)) eqn:Hlf.
  - apply bool_decide_eq_true_1 in Hlf. subst a.
    change (quotes_escaped b
              (String (ascii_of_nat 92)
                 (String "n"%char
                    (replace_all (ascii_of_nat 10) (bs +:+ "n") s))) = true).
    cbn [quotes_escaped].
    change (bool_decide (ascii_of_nat 10 = ascii_of_nat 92)) with false in Hs.
    change (bool_decide ("n"%char = ascii_of_nat 92)) with false.
    rewrite (IH _ Hs). by destruct b.
  - cbn [quotes_escaped]. by rewrite Ha, (IH _ Hs).
Qed.

Lemma is_space_not_backslash (a : ascii) :
  is_space a = true -> bool_decide (a = ascii_of_nat 92) = false.
Proof.
  intros Ha. apply bool_decide_eq_false_2. by intros ->.
Qed.

Lemma trim_start_quotes (s : string) :
  quotes_escaped false s = true ->
  quotes_escaped false (trim_start s) = true.
Proof.
  induction s as [|a s IH]; [done|].
  intros Hs. cbn [trim_start].
  destruct (is_space a) eqn:Ha; [|done].
  apply IH. cbn [quotes_escaped] in Hs.
  apply andb_prop in Hs as [_ Hs].
  by rewrite (is_space_not_backslash a Ha) in Hs.
Qed.

Lemma trim_end_quotes (b : bool) (s : string) :
  quotes_escaped b s = true -> quotes_escaped b (trim_end s) = true.
Proof.
  revert b. induction s as [|a s IH]; intros b; [done|].
  cbn [quotes_escaped trim_end].
  intros [Ha Hs]%andb_prop. specialize (IH _ Hs).
  destruct (trim_end s) as [|c t].
  - destruct (is_space a); [done|]. cbn [quotes_escaped]. by rewrite Ha.
  - change (quotes_escaped b (String a (String c t)))
      with ((negb (bool_decide (a = ascii_of_nat 34)) || b)
            && quotes_escaped (bool_decide (a = ascii_of_nat 92))
                 (String c t)).
    by rewrite Ha, IH.
Qed.

End EscapeTextFacts.

Section EscapeTextClaims.

Import Js SelectorGenerator SelectorExtras Strings.

(** X20.  For every text, the result of [escapeText] contains no line
    feed, and every double quote in it directly follows a backslash. *)
Theorem escapeText_escapes (text : string) :
  string_forall (fun c => negb (bool_decide (c = ascii_of_nat 10)))
    (escapeText text) = true
  /\ quotes_escaped false (escapeText text) = true.
Proof.
  unfold escapeText, trim. split.
  - apply trim_end_forall, trim_start_forall, replace_all_forall; [|done].
    intros a Ha. by rewrite (bool_decide_eq_false_2 _ Ha).
  - apply trim_end_quotes, trim_start_quotes, quotes_escaped_replace_lf,
      quotes_escaped_replace_quote.
Qed.

End EscapeTextClaims.

Section SelectorCacheClaims.

Import SelectorGenerator SelectorExtras.

(** X21.  The selector cache.  Once [createSelectorCache] has run, a
    selector stored under a key is what [getCachedSelector] returns for
    that key, and other keys are unaffected; [createSelectorCache]
    forgets every entry; and while no cache was created,
    [setCachedSelector] stores nothing, so that [getCachedSelector]
    still returns undefined. *)
Theorem selector_cache_round_trip (selectorCache : Cache)
    (key other : string) (result : SelectorResult) :
  (is_Some selectorCache ->
     getCachedSelector (setCachedSelector selectorCache key result) key
     = Some result)
  /\ (other <> key ->
        getCachedSelector (setCachedSelector selectorCache key result) other
        = getCachedSelector selectorCache other)
  /\ getCachedSelector
       (createSelectorCache (setCachedSelector selectorCache key result)) key
     = None
  /\ (selectorCache = None ->
        getCachedSelector (setCachedSelector selectorCache key result) key
        = None).
Proof.
  split; [|split; [|split]].
  - intros [m ->]. simpl. apply lookup_insert_eq.
  - intros Hne. destruct selectorCache as [m|]; simpl; [|done].
    by apply lookup_insert_ne.
  - simpl. apply lookup_empty.
  - by intros ->.
Qed.

(** A cache that was just created. *)
Lemma selector_cache_round_trip_witness :
  getCachedSelector
    (setCachedSelector (createSelectorCache None) "save"
       {| primary := "#save"; r_type := "id"; confidence := 8 # 10;
          fallbacks := [] |})
    "save"
  = Some {| primary := "#save"; r_type := "id"; confidence := 8 # 10;
            fallbacks := [] |}
  /\ getCachedSelector
       (setCachedSelector None "save"
          {| primary := "#save"; r_type := "id"; confidence := 8 # 10;
             fallbacks := [] |})
       "save"
     = None.
Proof.
  split.
  - apply (selector_cache_round_trip (createSelectorCache None) "save" "save").
    by eexists.
  - by apply (selector_cache_round_trip None "save" "save").
Defined.

End SelectorCacheClaims.

(** * Further properties of the recorder session *)

Section SessionFailures.

Import PlaywrightRecorder RecorderSession.

(** X22.  [startRecording] returns true exactly when none of the launch,
    the context, the page and the first navigation rejects.  When it
    throws, the last event is the error; a browser that was launched
    stays open and stays in the recorder's [browser] field; when the
    launch rejects, no browser is opened and the recorder's browser
    handle and flag are as before; and when only the first navigation
    rejects, the recorder is left recording. *)
Theorem startRecording_failure (url name : string) (r : Recorder) (w : World) :
  let '(outcome, r', w') := startRecording url name r w in
  (outcome = Ok true
   <-> launch_rejects w = false /\ newContext_rejects w = false
       /\ newPage_rejects w = false /\ goto_rejects w = false)
  /\ forall error, outcome = Throw error ->
       last (emitted r') = Some (EvError error)
       /\ (launch_rejects w = true ->
             live_browsers w' = live_browsers w
             /\ browser r' = browser r
             /\ isRecording r' = isRecording r)
       /\ (launch_rejects w = false ->
             live_browsers w' = live_browsers w ++ [next_handle w]
             /\ browser r' = Some (next_handle w))
       /\ (launch_rejects w = false -> newContext_rejects w = false ->
           newPage_rejects w = false ->
             isRecording r' = true).
Proof.
  destruct r as [rb rc rp ri ra rn ru re], w as [n live t l c p g].
  destruct l; [|destruct c; [|destruct p; [|destruct g]]]; cbn -[app last];
    (split; [split; [try done; intros _; by repeat split
                    | by intros (? & ? & ? & ?)]|]);
    intros error Herror; try done; injection Herror as <-;
    (split; [by rewrite last_snoc|]); by repeat split.
Qed.

End SessionFailures.

Section SessionFailureExamples.

Import PlaywrightRecorder RecorderSession.

(** The first navigation rejects: the call throws, the recorder is left
    recording and browser 1 stays open. *)
Lemma startRecording_failure_witness :
  let '(outcome, r', w') :=
    startRecording "https://a.example/" "first" new_recorder
      SessionExamples.offline_world in
  outcome = Throw "navigation failed"
  /\ isRecording r' = true
  /\ live_browsers w' = [1%nat].
Proof.
  pose proof (startRecording_failure "https://a.example/" "first"
                new_recorder SessionExamples.offline_world) as H.
  destruct (startRecording "https://a.example/" "first" new_recorder
              SessionExamples.offline_world) as [[outcome r'] w'] eqn:Hrun.
  vm_compute in Hrun. injection Hrun as <- <- <-.
  destruct H as [_ H].
  destruct (H _ eq_refl) as (_ & _ & Hopen & Hrec).
  split; [done|]. split; [by apply Hrec | by apply Hopen].
Defined.

End SessionFailureExamples.

Section StopFacts.

Import PlaywrightRecorder RecorderSession.

Variable write_files : Recorder -> Result (string * list (string * string)).
Variable closing : Closing.

(** The recorder when the file work starts. *)
Lemma stopRecording_cases (r : Recorder) (w : World) :
  isRecording r = true ->
  let r0 := emit (EvStatus "Processing recording...")
              (set_isRecording false r) in
  (exists error,
     stopRecording write_files closing r w
     = (Throw error, emit (EvError error) (emit (EvError error) r0), w)
     /\ write_files r0 = Throw error)
  \/ (exists error out,
        stopRecording write_files closing r w
        = (Throw error, emit (EvError error) r0, w)
        /\ write_files r0 = Ok out
        /\ (is_Some (context r) /\ context_close_rejects closing = true
            \/ is_Some (browser r) /\ browser_close_rejects closing = true))
  \/ (exists path written w',
        stopRecording write_files closing r w
        = (Ok {| testFile := Some path; pageObjects := written;
                 actions := length (recordedActions r);
                 duration := getDuration r |},
           emit (EvStatus "Recording stopped") r0, w')
        /\ write_files r0 = Ok (path, written)
        /\ w' = match browser r with
                | Some b => snd (browser_close
                                   {| context_close_rejects := false;
                                      browser_close_rejects := false |} b w)
                | None => w
                end).
Proof.
  intros Hrec r0. unfold stopRecording. rewrite Hrec.
  cbn [negb]. cbv zeta. fold r0. unfold generateOutputFiles.
  destruct (write_files r0) as [[path written]|error] eqn:Hfiles.
  - right. cbv zeta.
    change (context r0) with (context r). change (browser r0) with (browser r).
    unfold context_close, browser_close.
    destruct (context r) as [c|] eqn:Hc;
      [destruct (context_close_rejects closing) eqn:Hcc|].
    + left. eexists _, _. split; [done|]. split; [done|]. left. by eauto.
    + destruct (browser r) as [b|] eqn:Hb;
        [destruct (browser_close_rejects closing) eqn:Hbc|].
      * left. eexists _, _. split; [done|]. split; [done|]. right. by eauto.
      * right. by eexists _, _, _.
      * right. by eexists _, _, _.
    + destruct (browser r) as [b|] eqn:Hb;
        [destruct (browser_close_rejects closing) eqn:Hbc|].
      * left. eexists _, _. split; [done|]. split; [done|]. right. by eauto.
      * right. by eexists _, _, _.
      * right. by eexists _, _, _.
  - left. by exists error.
Qed.

End StopFacts.

Section StopClaims.

Import PlaywrightRecorder RecorderSession.

(** X23.  When [stopRecording] throws on a recorder that is recording,
    no browser was closed: the browsers that were open are still open
    (when it is [browser.close()] that rejects, the context has been
    closed before).  The recorder is no longer recording and keeps its
    browser handle, its last event is the error, and a further
    [stopRecording] only throws ``No recording in progress'', changing
    nothing. *)
Theorem stopRecording_failure_is_final
    (write_files : Recorder -> Result (string * list (string * string)))
    (closing : Closing) (r r' : Recorder) (w w' : World) (error : string) :
  isRecording r = true ->
  stopRecording write_files closing r w = (Throw error, r', w') ->
  live_browsers w' = live_browsers w
  /\ isRecording r' = false
  /\ browser r' = browser r
  /\ last (emitted r') = Some (EvError error)
  /\ forall write_files' closing',
       stopRecording write_files' closing' r' w'
       = (Throw "No recording in progress", r', w').
Proof.
  intros Hrec Hstop.
  destruct (stopRecording_cases write_files closing r w Hrec)
    as [(e & Hrun & _) | [(e & out & Hrun & _) | (p & wr & w0 & Hrun & _)]];
    rewrite Hrun in Hstop; [| |done]; injection Hstop as <- <- <-;
    (split; [done|]); (split; [done|]); (split; [done|]);
    (split; [cbn [emitted emit]; by rewrite last_snoc|]);
    intros write_files' closing'; by unfold stopRecording.
Qed.

(** The disk is full while a session with browser 1 is recording. *)
Lemma stopRecording_failure_is_final_witness :
  let r1 := snd (fst RecorderExamples.first_session) in
  let w1 := snd RecorderExamples.first_session in
  let run :=
    stopRecording SessionExamples.disk_full SessionExamples.closes r1 w1 in
  isRecording r1 = true
  /\ fst (fst run) = Throw "ENOSPC"
  /\ live_browsers (snd run) = [1%nat]
  /\ isRecording (snd (fst run)) = false
  /\ stopRecording SessionExamples.files_written SessionExamples.closes
       (snd (fst run)) (snd run)
     = (Throw "No recording in progress", snd (fst run), snd run).
Proof.
  intros r1 w1 run.
  destruct (stopRecording_failure_is_final SessionExamples.disk_full
              SessionExamples.closes r1 (snd (fst run)) w1 (snd run)
              "ENOSPC" eq_refl eq_refl)
    as (Hw & Hrec & _ & _ & Hagain).
  split; [reflexivity|]. split; [reflexivity|].
  split; [by rewrite Hw|]. split; [done|]. apply Hagain.
Defined.


End StopClaims.

Section StopExamples.

Import PlaywrightRecorder RecorderSession.


End StopExamples.

Section SessionRoundTrip.

Import PlaywrightRecorder RecorderSession.




End SessionRoundTrip.

(** ** File names *)

Section KebabCase.

Import RecorderSession Strings.

Lemma slug_char_replaced (c : ascii) :
  slug_char (if slug_char c then c else "-"%char) = true.
Proof. by destruct (slug_char c) eqn:Hc. Qed.

Lemma string_map_slug_chars (s : string) :
  string_forall slug_char
    (string_map (fun c => if slug_char c then c else "-"%char) s) = true.
Proof.
  induction s as [|a s IH]; [done|].
  cbn [string_map string_forall]. by rewrite slug_char_replaced, IH.
Qed.

Lemma collapse_dashes_head (a : ascii) (s : string) :
  exists t, collapse_dashes (String a s) = String a t.
Proof.
  revert a. induction s as [|b s IH]; intros a; [by eexists|].
  cbn [collapse_dashes]. destruct (IH b) as [t Ht].
  destruct (bool_decide (a = "-"%char)) eqn:Ha,
           (bool_decide (b = "-"%char)) eqn:Hb; cbn [andb]; try by eexists.
  apply bool_decide_eq_true_1 in Ha, Hb. subst. by exists t.
Qed.

Lemma collapse_dashes_forall (p : ascii -> bool) (s : string) :
  string_forall p s = true -> string_forall p (collapse_dashes s) = true.
Proof.
  induction s as [|a s IH]; [done|].
  cbn [string_forall]. intros [Ha Hs]%andb_prop. specialize (IH Hs).
  cbn [collapse_dashes]. destruct s as [|b s];
    [cbn [string_forall]; by rewrite Ha|].
  destruct (_ && _); [done|].
  cbn [string_forall]. by rewrite Ha, IH.
Qed.

Lemma single_dashes_cons (a b : ascii) (s : string) :
  single_dashes (String a (String b s))
  = negb (bool_decide (a = "-"%char) && bool_decide (b = "-"%char))
    && single_dashes (String b s).
Proof. done. Qed.

Lemma collapse_dashes_single (s : string) :
  single_dashes (collapse_dashes s) = true.
Proof.
  induction s as [|a s IH]; [done|].
  cbn [collapse_dashes]. destruct s as [|b s]; [done|].
  destruct (bool_decide (a = "-"%char) && bool_decide (b = "-"%char)) eqn:Hab;
    [done|].
  destruct (collapse_dashes_head b s) as [t Ht]. rewrite Ht in IH |- *.
  by rewrite single_dashes_cons, Hab, IH.
Qed.

Lemma single_dashes_tail (a : ascii) (s : string) :
  single_dashes (String a s) = true -> single_dashes s = true.
Proof.
  destruct s as [|b s]; [done|]. rewrite single_dashes_cons.
  by intros [_ ?]%andb_prop.
Qed.

Lemma strip_end_head (a : ascii) (s : string) :
  a <> "-"%char -> strip_end (String a s) = String a (strip_end s).
Proof.
  intros Ha. cbn [strip_end]. destruct s as [|b s]; [|done].
  by rewrite (bool_decide_eq_false_2 _ Ha).
Qed.

Lemma strip_end_forall (p : ascii -> bool) (s : string) :
  string_forall p s = true -> string_forall p (strip_end s) = true.
Proof.
  induction s as [|a s IH]; [done|].
  cbn [string_forall]. intros [Ha Hs]%andb_prop. specialize (IH Hs).
  cbn [strip_end]. destruct s as [|b s].
  - destruct (bool_decide _); [done|]. cbn [string_forall]. by rewrite Ha.
  - cbn [string_forall]. by rewrite Ha, IH.
Qed.

Lemma strip_start_forall (p : ascii -> bool) (s : string) :
  string_forall p s = true -> string_forall p (strip_start s) = true.
Proof.
  destruct s as [|a s]; [done|]. cbn [strip_start string_forall].
  intros [Ha Hs]%andb_prop. destruct (bool_decide _); [done|].
  cbn [string_forall]. by rewrite Ha, Hs.
Qed.

Lemma strip_end_dashes (s : string) :
  single_dashes s = true -> dashes_between false (strip_end s) = true.
Proof.
  induction s as [|a s IH]; [done|]. intros Hs.
  specialize (IH (single_dashes_tail _ _ Hs)).
  destruct (decide (a = "-"%char)) as [->|Ha].
  - destruct s as [|b s]; [done|].
    rewrite single_dashes_cons in Hs. apply andb_prop in Hs as [Hb _].
    assert (Hne : b <> "-"%char).
    { intros ->. done. }
    change (strip_end (String "-" (String b s)))
      with (String "-"%char (strip_end (String b s))).
    cbn [dashes_between]. rewrite bool_decide_eq_true_2 by done.
    cbn [negb andb].
    rewrite (strip_end_head b s Hne) in IH |- *.
    cbn [dashes_between] in IH |- *.
    by rewrite (bool_decide_eq_false_2 _ Hne) in IH |- *.
  - rewrite (strip_end_head a s Ha). cbn [dashes_between].
    by rewrite (bool_decide_eq_false_2 _ Ha).
Qed.

Lemma strip_start_single (s : string) :
  single_dashes s = true ->
  single_dashes (strip_start s) = true
  /\ match strip_start s with
     | String c _ => c <> "-"%char
     | EmptyString => True
     end.
Proof.
  destruct s as [|a s]; [done|]. intros Hs. cbn [strip_start].
  destruct (bool_decide (a = "-"%char)) eqn:Ha.
  - apply bool_decide_eq_true_1 in Ha. subst a.
    split; [by apply (single_dashes_tail "-")|].
    destruct s as [|b s]; [done|].
    rewrite single_dashes_cons in Hs. apply andb_prop in Hs as [Hb _].
    intros ->. done.
  - split; [done|]. by apply bool_decide_eq_false_1 in Ha.
Qed.

Lemma toKebabCase_is_slug (str : string) : is_slug (toKebabCase str) = true.
Proof.
  unfold toKebabCase.
  set (t := collapse_dashes _).
  assert (Hchars : string_forall slug_char t = true).
  { apply collapse_dashes_forall, string_map_slug_chars. }
  pose proof (collapse_dashes_single
                (string_map (fun c => if slug_char c then c else "-"%char)
                   (string_map Regex.to_lower (split_camel str)))) as Hsingle.
  fold t in Hsingle.
  destruct (strip_start_single t Hsingle) as [Hsingle' Hhead].
  pose proof (strip_start_forall _ _ Hchars) as Hchars'.
  pose proof (strip_end_dashes _ Hsingle') as Hdashes.
  pose proof (strip_end_forall _ _ Hchars') as Hchars''.
  unfold is_slug. rewrite Hchars''. cbn [andb].
  destruct (strip_start t) as [|c u]; [done|].
  rewrite (strip_end_head c u Hhead) in Hdashes |- *.
  cbn [dashes_between] in Hdashes |- *.
  by rewrite (bool_decide_eq_false_2 _ Hhead) in Hdashes |- *.
Qed.

(** *** Slugs are left alone *)

Lemma slug_char_not_upper (c : ascii) :
  slug_char c = true -> Regex.upper c = false.
Proof. by destruct c as [[] [] [] [] [] [] [] []]. Qed.

Lemma split_camel_slug (s : string) :
  string_forall slug_char s = true -> split_camel s = s.
Proof.
  induction s as [|a s IH]; [done|].
  cbn [string_forall]. intros [Ha Hs]%andb_prop. specialize (IH Hs).
  cbn [split_camel]. destruct s as [|b s]; [done|].
  cbn [string_forall] in Hs. apply andb_prop in Hs as [Hb _].
  rewrite (slug_char_not_upper b Hb), andb_false_r. by rewrite IH.
Qed.

Lemma string_map_fixed (f : ascii -> ascii) (p : ascii -> bool) (s : string) :
  (forall c, p c = true -> f c = c) ->
  string_forall p s = true -> string_map f s = s.
Proof.
  intros Hf. induction s as [|a s IH]; [done|].
  cbn [string_forall string_map]. intros [Ha Hs]%andb_prop.
  by rewrite (Hf a Ha), (IH Hs).
Qed.

Lemma dashes_between_single (b : bool) (s : string) :
  dashes_between b s = true -> single_dashes s = true.
Proof.
  revert b. induction s as [|a s IH]; intros b; [done|].
  cbn [dashes_between single_dashes]. destruct s as [|c s]; [done|].
  destruct (bool_decide (a = "-"%char)); cbn [andb].
  - intros [_ Hs]%andb_prop. rewrite (IH _ Hs), andb_true_r.
    cbn [dashes_between] in Hs.
    destruct (bool_decide (c = "-"%char)); [done|done].
  - intros Hs. by rewrite (IH _ Hs).
Qed.

Lemma collapse_dashes_fixed (s : string) :
  single_dashes s = true -> collapse_dashes s = s.
Proof.
  induction s as [|a s IH]; [done|]. intros Hs.
  specialize (IH (single_dashes_tail _ _ Hs)).
  cbn [collapse_dashes]. destruct s as [|b s]; [done|].
  rewrite single_dashes_cons in Hs. apply andb_prop in Hs as [Hab _].
  apply negb_true_iff in Hab. by rewrite Hab, IH.
Qed.

Lemma strip_end_fixed (b : bool) (s : string) :
  dashes_between b s = true -> strip_end s = s.
Proof.
  revert b. induction s as [|a s IH]; intros b; [done|].
  cbn [dashes_between strip_end]. destruct s as [|c s].
  - destruct (bool_decide (a = "-"%char)); [|done].
    cbn [dashes_between negb]. by rewrite andb_false_r.
  - destruct (bool_decide (a = "-"%char)).
    + intros [_ Hs]%andb_prop. by rewrite (IH _ Hs).
    + intros Hs. by rewrite (IH _ Hs).
Qed.

Lemma toKebabCase_of_slug (s : string) :
  is_slug s = true -> toKebabCase s = s.
Proof.
  unfold is_slug. intros [Hchars Hdashes]%andb_prop.
  unfold toKebabCase. rewrite (split_camel_slug s Hchars).
  rewrite (string_map_fixed Regex.to_lower slug_char s); [|       |done].
  2:{ intros c Hc. unfold Regex.to_lower.
      by rewrite (slug_char_not_upper c Hc). }
  rewrite (string_map_fixed _ slug_char s); [| |done].
  2:{ intros c Hc. by rewrite Hc. }
  destruct s as [|a s]; [done|].
  rewrite (collapse_dashes_fixed _ (dashes_between_single _ _ Hdashes)).
  cbn [dashes_between] in Hdashes. cbn [strip_start].
  destruct (bool_decide (a = "-"%char)) eqn:Ha; [done|].
  apply (strip_end_fixed true). cbn [dashes_between]. by rewrite Ha.
Qed.

End KebabCase.

Section KebabCaseClaims.

Import RecorderSession.

(** X26.  [toKebabCase] always returns a slug: lower-case letters and
    digits in words separated by single dashes, with no dash at either
    end (or the empty string).  The slugs are exactly the strings it
    leaves unchanged, so applying it twice is the same as applying it
    once. *)
Theorem toKebabCase_slug (str : string) :
  is_slug (toKebabCase str) = true
  /\ (is_slug str = true <-> toKebabCase str = str)
  /\ toKebabCase (toKebabCase str) = toKebabCase str.
Proof.
  split; [apply toKebabCase_is_slug|]. split.
  - split; [apply toKebabCase_of_slug|].
    intros Hfixed. rewrite <- Hfixed. apply toKebabCase_is_slug.
  - apply toKebabCase_of_slug, toKebabCase_is_slug.
Qed.

End KebabCaseClaims.

(** * Batching of inputs *)

Section BatchingFacts.

Import Js ActionParser Performance.

Lemma input_batch_app (previous : Z) (rest : list Action) :
  (input_batch previous rest).1 ++ (input_batch previous rest).2 = rest.
Proof.
  revert previous. induction rest as [|next rest IH]; intros previous; [done|].
  cbn [input_batch]. destruct (_ && _); [|done].
  specialize (IH (action_timestamp next)).
  destruct (input_batch (action_timestamp next) rest) as [pushed after].
  cbn [fst snd] in *. cbn [app]. by rewrite IH.
Qed.

Lemma input_batch_within (previous : Z) (rest : list Action) :
  within_second previous (input_batch previous rest).1 = true.
Proof.
  revert previous. induction rest as [|next rest IH]; intros previous; [done|].
  cbn [input_batch]. destruct (_ && _) eqn:Hnext; [|done].
  specialize (IH (action_timestamp next)).
  destruct (input_batch (action_timestamp next) rest) as [pushed after].
  cbn [fst snd within_second] in *. by rewrite Hnext, IH.
Qed.

Lemma input_batch_maximal (first : Action) (rest : list Action) (a b : Action) :
  last (first :: (input_batch (action_timestamp first) rest).1) = Some a ->
  head (input_batch (action_timestamp first) rest).2 = Some b ->
  has_kind b input = true ->
  1000 <= action_timestamp b - action_timestamp a.
Proof.
  revert first. induction rest as [|next rest IH]; intros first; [done|].
  cbn [input_batch].
  destruct (has_kind next input
            && (action_timestamp next - action_timestamp first <? 1000)%Z)
    eqn:Hnext.
  - specialize (IH next).
    destruct (input_batch (action_timestamp next) rest) as [pushed after].
    cbn [fst snd] in *. rewrite last_cons_cons. apply IH.
  - cbn [fst snd head last]. intros [= <-] [= <-] Hinput.
    rewrite Hinput in Hnext. cbn [andb] in Hnext.
    apply Z.ltb_ge in Hnext. lia.
Qed.

Lemma batch_loop_spec (fuel : nat) (rest : list Action) :
  (length rest <= fuel)%nat ->
  unbatch (batch_loop fuel rest) = rest
  /\ Forall batch_well (batch_loop fuel rest)
  /\ batches_maximal (batch_loop fuel rest)
  /\ head (batch_loop fuel rest) ≫= (fun e => head (batched e)) = head rest.
Proof.
  revert rest. induction fuel as [|fuel IH]; intros rest Hfuel.
  { destruct rest; [done | simpl in Hfuel; lia]. }
  destruct rest as [|action rest]; [done|].
  cbn [length] in Hfuel.
  assert (Hplain :
    (forall a b, a = action -> head rest = Some b ->
                 has_kind a input = true -> has_kind b input = true ->
                 1000 <= action_timestamp b - action_timestamp a) ->
    unbatch (Plain action :: batch_loop fuel rest) = action :: rest
    /\ Forall batch_well (Plain action :: batch_loop fuel rest)
    /\ batches_maximal (Plain action :: batch_loop fuel rest)
    /\ head (Plain action :: batch_loop fuel rest)
       ≫= (fun e => head (batched e)) = head (action :: rest)).
  { intros Hgap.
    destruct (IH rest) as (Hall & Hwell & Hmax & Hhead); [lia|].
    split; [unfold unbatch in *; cbn; by rewrite Hall|].
    split; [by apply Forall_cons|]. split; [|done].
    cbn [batches_maximal].
    destruct (batch_loop fuel rest) as [|e2 tl]; [done|].
    split; [|done]. cbn [head mbind option_bind] in Hhead.
    intros a b [= <-] Hb. rewrite Hhead in Hb. by apply Hgap. }
  cbn [batch_loop].
  destruct (has_kind action input) eqn:Hinput;
    [|apply Hplain; intros a b -> _ Ha; congruence].
  pose proof (input_batch_app (action_timestamp action) rest) as Happ.
  pose proof (input_batch_within (action_timestamp action) rest) as Hwithin.
  pose proof (input_batch_maximal action rest) as Hmaximal.
  destruct (input_batch (action_timestamp action) rest) as [pushed after].
  cbn [fst snd] in *. cbv zeta.
  destruct pushed as [|second pushed].
  - cbn [length Nat.ltb Nat.leb]. apply Hplain.
    intros a b -> Hb _ Hkind. rewrite app_nil_l in Happ. subst after.
    by apply (Hmaximal action b).
  - change (1 <? length (action :: second :: pushed))%nat with true.
    cbv iota.
    destruct (IH after) as (Hall & Hwell & Hmax & Hhead).
    { rewrite <- Happ in Hfuel. rewrite length_app in Hfuel.
      cbn [length] in Hfuel. lia. }
    split.
    { unfold unbatch in *. cbn [fmap list_fmap concat batched].
      rewrite Hall. by rewrite <- Happ. }
    split.
    { apply Forall_cons. split; [|done]. by repeat split. }
    split; [|done].
    cbn [batches_maximal].
    destruct (batch_loop fuel after) as [|e2 tl]; [done|].
    split; [|done]. cbn [head mbind option_bind] in Hhead.
    intros a b Ha Hb _ Hkind. cbn [batched] in Ha.
    rewrite Hhead in Hb. by apply (Hmaximal a b).
Qed.

End BatchingFacts.

Section BatchingClaims.

Import Js ActionParser Performance.

(** X27.  [optimizeForPerformance] neither drops nor reorders actions:
    unfolding the batches of its output gives back the input.  Every
    batch holds at least two actions, all of them inputs, each less than
    a second after the one before it, and carries the timestamp of its
    first action and the number of its actions in its description.  The
    batches are maximal: an entry that ends in an input is never
    followed by an entry starting with an input less than a second
    later. *)
Theorem optimizeForPerformance_batches (actions : list Action) :
  unbatch (optimizeForPerformance actions) = actions
  /\ Forall batch_well (optimizeForPerformance actions)
  /\ batches_maximal (optimizeForPerformance actions).
Proof.
  destruct (batch_loop_spec (length actions) actions) as (H1 & H2 & H3 & _);
    [lia | done].
Qed.

(** Three inputs: the first two are batched, the third is on its own. *)
Example optimizeForPerformance_three_inputs :
  optimizeForPerformance PerformanceExamples.three_inputs
  = [BatchInput [PerformanceExamples.typed 0 "a";
                 PerformanceExamples.typed 400 "b"] 0 "Fill 2 form fields";
     Plain (PerformanceExamples.typed 2400 "c")].
Proof. reflexivity. Qed.

End BatchingClaims.

(** * Assertions of the Test Steps *)

Section StepAssertions.

Import Js ActionParser Stages StepVocabulary.

Lemma Forall_imap {A B : Type} (P : A -> Prop) (Q : B -> Prop)
    (f : nat -> A -> B) (l : list A) :
  (forall i x, P x -> Q (f i x)) -> Forall P l -> Forall Q (imap f l).
Proof.
  intros Hf Hl. revert f Hf.
  induction Hl as [|x l Hx Hl IH]; intros f Hf; [constructor|].
  cbn [imap]. apply Forall_cons. split; [by apply Hf|].
  apply IH. intros i y. apply Hf.
Qed.

Lemma optimizeNavigation_bounded (actions : list Action) :
  Forall navigation_bounded (optimizeNavigation actions).
Proof.
  pose proof (optimizeNavigation_looked_ahead actions) as Hahead.
  induction Hahead as [|a b l k Hab Hlk IH]; [constructor|].
  apply Forall_cons. split; [|done].
  unfold looked_ahead in Hab. destruct a as [r|sub t d].
  - destruct (bool_decide (type r = navigation)) eqn:Hnav.
    + destruct Hab as (expected & Hlen & ->). intros _. by exists expected.
    + subst b. intros Hr. apply bool_decide_eq_false_1 in Hnav. done.
  - by subst b.
Qed.

Lemma generateAssertions_fit (index : nat) (action : Action) :
  navigation_bounded action ->
  assertions_fit
    {| ts_id := (index + 1)%nat;
       ts_type := action_type action;
       ts_description := generateStepDescription action;
       ts_code := generateStepCode action;
       ts_selector := action_selector action;
       ts_data := extractStepData action;
       ts_assertions := generateAssertions action;
       ts_timestamp := action_timestamp action |}.
Proof.
  intros Hbounded. unfold assertions_fit. cbn [ts_type ts_assertions].
  destruct action as [r|sub t d]; [|by repeat case_decide].
  cbn [action_type navigation_bounded] in *. unfold generateAssertions.
  destruct (type r) eqn:Htype; cbn [kind_name];
    repeat case_decide; try done.
  - destruct (Hbounded eq_refl) as (expected & -> & Hlen).
    eexists _, _. split; [reflexivity|]. split; [done|].
    cbn [default]. rewrite length_fmap. split; [done|].
    apply Forall_fmap, Forall_forall. by intros e _.
  - destruct (_ && _); [right; by eexists | by left].
  - by eexists.
Qed.

End StepAssertions.

Section StepAssertionClaims.

Import Js ActionParser StepVocabulary.

(** X28.  In the Test Steps that [optimizeActions] returns, the
    assertions fit the type of the step: a navigation step has the URL
    assertion followed by at most three visibility assertions, an input
    step exactly the assertion on its value, a click step at most the
    form submission assertion, and a step of any other type (wait,
    hover, select, keypress, submit, api_call, form_sequence) has no
    assertions. *)
Theorem optimizeActions_assertions (this : Options)
    (recordedActions : Argument) :
  Forall assertions_fit (optimizeActions this recordedActions).
Proof.
  unfold optimizeActions.
  destruct recordedActions as [| | repr | [|first rest]]; try constructor.
  cbv zeta. unfold convertToTestSteps.
  eapply Forall_imap; [|apply optimizeNavigation_bounded].
  intros index action. apply generateAssertions_fit.
Qed.

End StepAssertionClaims.
